(** * Flash-flood dashboard: name resolution, tab state and event-range
      aggregation

    A shallow embedding of the client-side hooks of the dashboard
    ([hooks/useStationSearch.ts], [hooks/useMapState.ts],
    [hooks/useStationEvents.ts] and the index construction of the
    [LeafletMap] component), followed by the properties that the
    specification states about them.

    Conventions of the embedding:
    - a JavaScript string is a [string] (a sequence of code units);
      [null]/[undefined] are [None] of an [option];
    - React state is an explicit record; an event handler is a function
      from the committed state to the next one (the values a handler closes
      over are those of the render it was created in, that is, of the state
      it is applied to);
    - a [Record<string, T>] dictionary is a [gmap string T];
    - arrays that are shared and updated in place live in an explicit store
      (module [Store]). *)

From Stdlib Require Import String Ascii List ZArith QArith Lia Lqa Permutation Sorted.
From stdpp Require Import base option list gmap strings.

Local Open Scope nat_scope.

(** * JavaScript primitives used by the hooks *)

Module Js.

(** Truthiness of a string: only the empty string is falsy. *)
Definition truthy (s : string) : bool :=
  match s with
  | EmptyString => false
  | String _ _ => true
  end.

(** Truthiness of [string | null]. *)
Definition truthy_opt (o : option string) : bool :=
  match o with
  | Some s => truthy s
  | None => false
  end.

(** [a || b] on [string] and [string | null]. *)
Definition or_else (a : string) (b : option string) : option string :=
  if truthy a then Some a else b.

(** White space removed by [String.prototype.trim], restricted to the code
    units below 256: TAB, LF, VT, FF, CR, SPACE and NBSP. *)
Definition is_white (c : ascii) : bool :=
  match nat_of_ascii c with
  | 9 | 10 | 11 | 12 | 13 | 32 | 160 => true
  | _ => false
  end.

Fixpoint trimStart (s : string) : string :=
  match s with
  | EmptyString => EmptyString
  | String c s' => if is_white c then trimStart s' else s
  end.

Definition trimEnd (s : string) : string :=
  String.rev (trimStart (String.rev s)).

Definition trim (s : string) : string := trimEnd (trimStart s).

(** [s.startsWith(k)] *)
Definition startsWith (s k : string) : bool := String.prefix k s.

(** [s.includes(k)]: [k] is a prefix of some suffix of [s]. *)
Fixpoint includes (s k : string) : bool :=
  String.prefix k s ||
  match s with
  | EmptyString => false
  | String _ s' => includes s' k
  end.

(** [s.slice(0, n)] *)
Definition slice0 (n : nat) (s : string) : string := String.substring 0 n s.

(** [a > b] and [a < b] on strings: lexicographic on code units. *)
Definition str_gt (a b : string) : bool := String.ltb b a.
Definition str_lt (a b : string) : bool := String.ltb a b.

(** [Array.prototype.find] *)
Definition find {A} (p : A -> bool) (l : list A) : option A := List.find p l.

(** [Array.prototype.sort(cmp)]. The comparator answers [Lt] for a
    negative number, [Eq] for zero and [Gt] for a positive one. The
    language requires the sort to be stable; a stable sort with a
    consistent comparator has one possible result, which the insertion
    sort below computes. *)
Section Sort.
Context {A : Type} (cmp : A -> A -> comparison).

Fixpoint insert (x : A) (l : list A) : list A :=
  match l with
  | [] => [x]
  | y :: l' =>
      match cmp x y with
      | Gt => y :: insert x l'
      | _ => x :: l
      end
  end.

Fixpoint sort (l : list A) : list A :=
  match l with
  | [] => []
  | x :: l' => insert x (sort l')
  end.
End Sort.

(** [Array.prototype.slice(0, n)] *)
Definition take {A} (n : nat) (l : list A) : list A := firstn n l.

(** A [Set<string>] in insertion order. *)
Definition set_add (acc : list string) (x : string) : list string :=
  if bool_decide (x ∈ acc) then acc else acc ++ [x].

(** Numbers. A finite double is the rational it denotes; the sign of a
    rounded difference of two finite doubles is the sign of the exact
    difference, which is all the comparators below look at. *)
Inductive number :=
| Fin (q : Q)
| NaN
| PosInf
| NegInf.

Definition isFinite (x : number) : bool :=
  match x with
  | Fin _ => true
  | _ => false
  end.

(** [a - b] *)
Definition sub (a b : number) : number :=
  match a, b with
  | NaN, _ | _, NaN => NaN
  | Fin x, Fin y => Fin (x - y)
  | PosInf, PosInf | NegInf, NegInf => NaN
  | PosInf, _ => PosInf
  | NegInf, _ => NegInf
  | Fin _, PosInf => NegInf
  | Fin _, NegInf => PosInf
  end.

(** How [sort] reads the number a comparator returns ([NaN] counts as
    zero). *)
Definition sign (x : number) : comparison :=
  match x with
  | Fin q => (q ?= 0)%Q
  | NaN => Eq
  | PosInf => Gt
  | NegInf => Lt
  end.

End Js.

(** * Data model ([types], [app/map/types])

    A station keeps the fields the hooks read when they resolve names and
    build keys; its coordinates, river name, description and data flag are
    only passed on to the map. An event summary keeps the count and the two
    ends of the span; the averages are only displayed. *)

Record Station := {
  station_id : string;
  basin_name : option string;
  station_name : option string;
  station_name2 : option string;
  station_name3 : option string
}.

Inductive TabKind := TabBasin | TabStation.

(** ['basin' | 'station' | null] *)
Definition ActiveTab := option TabKind.

Record BasinTabData := {
  basinName : string;
  stationCount : nat
}.

Inductive SuggestionType := Basin | StationT.

Record SearchSuggestion := {
  value : string;
  type : SuggestionType
}.

Record SelectedSearchItem := {
  label : string;
  item_type : SuggestionType
}.

Record MonthlyFrequencyPoint := {
  month : nat;
  count : nat
}.

Record PeakDistributionPoint := {
  rank : nat;
  dist_peak_value : Js.number
}.

Record StationMatchedPoint := {
  id : Z;
  peak_time : string;
  peak_value : Js.number;
  peak_time_str : option string
}.

Record StationEventSummary := {
  matchedEvents : nat;
  minPeakTime : option string;
  maxPeakTime : option string
}.

Record StationEventsApiResponse := {
  summary : StationEventSummary;
  matchedSeries : option (list StationMatchedPoint)
}.

(** * Collaborators

    [app/map/mapUtils] is not among the sources at hand; the two functions
    the hooks import from it are parameters. [normalizeText] is also applied
    to the nullable name fields of a station, so its argument is a
    [string | null]. *)

Class MapUtils := {
  normalizeText : option string -> string;
  stationDisplayName : Station -> string
}.

(** Built-ins of the JavaScript runtime whose result depends on the host:
    collation, date parsing, the local calendar month of a time value (0 for
    January) and URI escaping. [Date_parse] answers [None] for [NaN]. *)

Class Runtime := {
  localeCompare : string -> string -> comparison;
  Date_parse : string -> option Z;
  Date_getMonth : Z -> nat;
  encodeURIComponent : string -> string
}.

(** * Search index ([LeafletMap]) *)

Record BasinSearchIndexItem := {
  name : string;
  normalizedName : string
}.

Record StationSearchIndexItem := {
  station : Station;
  names : list string
}.

(** A [Map<string, Station[]>] keeps its keys in order of first insertion. *)
Definition BasinGroups := list (string * list Station).

Fixpoint groups_get (key : string) (groups : BasinGroups) : option (list Station) :=
  match groups with
  | [] => None
  | (k, l) :: rest => if String.eqb k key then Some l else groups_get key rest
  end.

Fixpoint groups_set (key : string) (l : list Station) (groups : BasinGroups) : BasinGroups :=
  match groups with
  | [] => [(key, l)]
  | (k, l0) :: rest =>
      if String.eqb k key then (k, l) :: rest else (k, l0) :: groups_set key l rest
  end.

Definition groups_keys (groups : BasinGroups) : list string := map fst groups.

Definition basinGroups_step (groups : BasinGroups) (station : Station) : BasinGroups :=
  match basin_name station with
  | None => groups
  | Some raw =>
      let name := Js.trim raw in
      if negb (Js.truthy name) then groups
      else
        let list := default [] (groups_get name groups) in
        groups_set name (list ++ [station]) groups
  end.

Definition basinGroups (stations : list Station) : BasinGroups :=
  fold_left basinGroups_step stations [].

Definition basinSearchIndex `{MapUtils} (groups : BasinGroups) : list BasinSearchIndexItem :=
  map (fun name => {| name := name; normalizedName := normalizeText (Some name) |})
      (groups_keys groups).

Definition stationSearchIndex `{MapUtils} (stations : list Station) : list StationSearchIndexItem :=
  map (fun station =>
         {| station := station;
            names := List.filter Js.truthy
                       (map normalizeText
                          [station_name station; station_name2 station; station_name3 station]) |})
      stations.

(** * User-interface state shared by the hooks *)

Inductive MapCall :=
| ClosePopup
| FlyTo (target : Station)
| FitBounds (targets : list Station).

(** [mapInstance] is [None] until the map is ready; a ready map is the log
    of the calls made on it, oldest first. The zoom level of [useMapState]
    only sizes the markers and is left out. *)
Record UiState := {
  basinTab : option BasinTabData;
  stationTab : option Station;
  activeTab : ActiveTab;
  mapInstance : option (list MapCall);
  selectedStationId : option string;
  previewStationId : option string;
  searchText : string;
  searchHint : string;
  selectedSearchItem : option SelectedSearchItem
}.

Definition setBasinTab (v : option BasinTabData) (st : UiState) : UiState :=
  {| basinTab := v; stationTab := stationTab st; activeTab := activeTab st;
     mapInstance := mapInstance st; selectedStationId := selectedStationId st;
     previewStationId := previewStationId st; searchText := searchText st;
     searchHint := searchHint st; selectedSearchItem := selectedSearchItem st |}.

Definition setStationTab (v : option Station) (st : UiState) : UiState :=
  {| basinTab := basinTab st; stationTab := v; activeTab := activeTab st;
     mapInstance := mapInstance st; selectedStationId := selectedStationId st;
     previewStationId := previewStationId st; searchText := searchText st;
     searchHint := searchHint st; selectedSearchItem := selectedSearchItem st |}.

Definition setActiveTab (v : ActiveTab) (st : UiState) : UiState :=
  {| basinTab := basinTab st; stationTab := stationTab st; activeTab := v;
     mapInstance := mapInstance st; selectedStationId := selectedStationId st;
     previewStationId := previewStationId st; searchText := searchText st;
     searchHint := searchHint st; selectedSearchItem := selectedSearchItem st |}.

Definition setMapInstance (v : option (list MapCall)) (st : UiState) : UiState :=
  {| basinTab := basinTab st; stationTab := stationTab st; activeTab := activeTab st;
     mapInstance := v; selectedStationId := selectedStationId st;
     previewStationId := previewStationId st; searchText := searchText st;
     searchHint := searchHint st; selectedSearchItem := selectedSearchItem st |}.

Definition setSelectedStationId (v : option string) (st : UiState) : UiState :=
  {| basinTab := basinTab st; stationTab := stationTab st; activeTab := activeTab st;
     mapInstance := mapInstance st; selectedStationId := v;
     previewStationId := previewStationId st; searchText := searchText st;
     searchHint := searchHint st; selectedSearchItem := selectedSearchItem st |}.

Definition setPreviewStationId (v : option string) (st : UiState) : UiState :=
  {| basinTab := basinTab st; stationTab := stationTab st; activeTab := activeTab st;
     mapInstance := mapInstance st; selectedStationId := selectedStationId st;
     previewStationId := v; searchText := searchText st;
     searchHint := searchHint st; selectedSearchItem := selectedSearchItem st |}.

Definition setSearchText (v : string) (st : UiState) : UiState :=
  {| basinTab := basinTab st; stationTab := stationTab st; activeTab := activeTab st;
     mapInstance := mapInstance st; selectedStationId := selectedStationId st;
     previewStationId := previewStationId st; searchText := v;
     searchHint := searchHint st; selectedSearchItem := selectedSearchItem st |}.

Definition setSearchHint (v : string) (st : UiState) : UiState :=
  {| basinTab := basinTab st; stationTab := stationTab st; activeTab := activeTab st;
     mapInstance := mapInstance st; selectedStationId := selectedStationId st;
     previewStationId := previewStationId st; searchText := searchText st;
     searchHint := v; selectedSearchItem := selectedSearchItem st |}.

Definition setSelectedSearchItem (v : option SelectedSearchItem) (st : UiState) : UiState :=
  {| basinTab := basinTab st; stationTab := stationTab st; activeTab := activeTab st;
     mapInstance := mapInstance st; selectedStationId := selectedStationId st;
     previewStationId := previewStationId st; searchText := searchText st;
     searchHint := searchHint st; selectedSearchItem := v |}.

(** [mapInstance?.closePopup()] *)
Definition closePopup (st : UiState) : UiState :=
  setMapInstance (option_map (fun log => log ++ [ClosePopup]) (mapInstance st)) st.

(** [zoomToStations] of [LeafletMap] *)
Definition zoomToStations (targetStations : list Station) (st : UiState) : UiState :=
  match mapInstance st, targetStations with
  | None, _ => st
  | Some _, [] => st
  | Some log, [target] => setMapInstance (Some (log ++ [FlyTo target])) st
  | Some log, _ => setMapInstance (Some (log ++ [FitBounds targetStations])) st
  end.

(** * Selection state machine ([useMapState]) *)

Module MapState.

Definition clearPreview (st : UiState) : UiState := setPreviewStationId None st.

Definition handlePreviewChange (stationId : option string) (st : UiState) : UiState :=
  setPreviewStationId stationId st.

Definition commitStationSelection (station : Station) (st : UiState) : UiState :=
  setActiveTab (Some TabStation)
    (closePopup
       (setPreviewStationId None
          (setStationTab (Some station)
             (setSelectedStationId (Some (station_id station)) st)))).

Definition handleActivateStationTab (st : UiState) : UiState :=
  match stationTab st with
  | None => st
  | Some s => setSelectedStationId (Some (station_id s)) (setActiveTab (Some TabStation) st)
  end.

Definition handleCloseStationTab (st : UiState) : UiState :=
  let st1 := setPreviewStationId None (setSelectedStationId None (setStationTab None st)) in
  let st2 :=
    match basinTab st with
    | Some _ => setActiveTab (Some TabBasin) st1
    | None => setActiveTab None st1
    end in
  closePopup st2.

Definition handleCloseBasinTab (st : UiState) : UiState :=
  let nextStationTab := stationTab st in
  let st1 := setPreviewStationId None (setBasinTab None st) in
  match activeTab st with
  | Some TabBasin =>
      match nextStationTab with
      | Some s => setSelectedStationId (Some (station_id s)) (setActiveTab (Some TabStation) st1)
      | None => closePopup (setSelectedStationId None (setActiveTab None st1))
      end
  | _ => st1
  end.

(** [handleOpenBasinTab] and [handleActivateBasinTab] of [LeafletMap] *)
Definition handleOpenBasinTab (groups : BasinGroups) (basinName : string) (st : UiState)
  : UiState :=
  let trimmed := Js.trim basinName in
  if negb (Js.truthy trimmed) then st
  else
    let matched := default [] (groups_get trimmed groups) in
    closePopup
      (clearPreview
         (setActiveTab (Some TabBasin)
            (setBasinTab (Some {| basinName := trimmed; stationCount := length matched |}) st))).

Definition handleActivateBasinTab (st : UiState) : UiState :=
  match basinTab st with
  | None => st
  | Some _ => setActiveTab (Some TabBasin) st
  end.

End MapState.

(** * Name resolution and suggestions ([useStationSearch]) *)

Module Search.

(** The parameters the hook receives from [LeafletMap], apart from the
    state setters, which act on [UiState]. *)
Record Params := {
  stations : list Station;
  groups : BasinGroups;
  basinIndex : list BasinSearchIndexItem;
  stationIndex : list StationSearchIndexItem;
  noMatchHint : string
}.

(** The hint [LeafletMap] passes for a search without a match. *)
Definition leafletNoMatchHint : string :=
  "No results matched. Try a more complete name.".

(** The parameters as [LeafletMap] derives them from the loaded stations. *)
Definition leafletParams `{MapUtils} (stations : list Station) : Params :=
  {| stations := stations;
     groups := basinGroups stations;
     basinIndex := basinSearchIndex (basinGroups stations);
     stationIndex := stationSearchIndex stations;
     noMatchHint := leafletNoMatchHint |}.

Definition emptyKeywordHint : string := "Please enter a basin / station name.".
Definition mapNotReadyHint : string := "Map is not ready yet. Please try again shortly.".

Section Hook.
Context `{MapUtils} `{Runtime}.

Definition basinSuggestions (p : Params) (searchText : string) : list string :=
  let keyword := normalizeText (Some searchText) in
  if negb (Js.truthy keyword) then []
  else
    Js.take 8
      (Js.sort localeCompare
         (map name
            (List.filter (fun e => Js.startsWith (normalizedName e) keyword)
               (basinIndex p)))).

Definition collectStationName (keyword : string) (unique : list string) (st : Station)
  : list string :=
  match station_name st with
  | None => unique
  | Some raw =>
      let name := Js.trim raw in
      if negb (Js.truthy name) then unique
      else if Js.startsWith (normalizeText (Some name)) keyword
           then Js.set_add unique name
           else unique
  end.

Definition stationNameSuggestions (p : Params) (searchText : string) : list string :=
  let keyword := normalizeText (Some searchText) in
  if negb (Js.truthy keyword) then []
  else
    let unique := fold_left (collectStationName keyword) (stations p) [] in
    Js.take 8 (Js.sort localeCompare unique).

Definition searchSuggestions (p : Params) (searchText : string) : list SearchSuggestion :=
  map (fun v => {| value := v; type := Basin |}) (basinSuggestions p searchText) ++
  map (fun v => {| value := v; type := StationT |}) (stationNameSuggestions p searchText).

Definition searchHintText (p : Params) (st : UiState) : string :=
  if Js.truthy (searchHint st) && negb (String.eqb (searchHint st) (noMatchHint p))
  then searchHint st
  else if negb (Js.truthy (Js.trim (searchText st))) then ""
  else if 0 <? length (searchSuggestions p (searchText st)) then ""
  else noMatchHint p.

(** The value of [basin] in [performSearch]: three [find]s over the whole
    basin index chained by [??]. *)
Definition findBasin (index : list BasinSearchIndexItem) (normalizedKeyword : string)
  : option string :=
  match Js.find (fun e => String.eqb (normalizedName e) normalizedKeyword) index with
  | Some e => Some (name e)
  | None =>
      match Js.find (fun e => Js.startsWith (normalizedName e) normalizedKeyword) index with
      | Some e => Some (name e)
      | None =>
          match Js.find (fun e => Js.includes (normalizedName e) normalizedKeyword) index with
          | Some e => Some (name e)
          | None => None
          end
      end
  end.

(** The value of [stationMatch]. *)
Definition stationMatches (normalizedKeyword : string) (e : StationSearchIndexItem) : bool :=
  existsb (fun n => String.eqb n normalizedKeyword || Js.includes n normalizedKeyword)
    (names e).

Definition findStation (index : list StationSearchIndexItem) (normalizedKeyword : string)
  : option Station :=
  option_map station (Js.find (stationMatches normalizedKeyword) index).

(** What a search resolves to, read off the branches of [performSearch]
    that follow the two input checks. *)
Inductive Resolved :=
| RBasin (basin : string)
| RStation (stationMatch : Station)
| RNone.

Definition resolve (p : Params) (keyword : string) : Resolved :=
  let normalizedKeyword := normalizeText (Some keyword) in
  match findBasin (basinIndex p) normalizedKeyword with
  | Some basin =>
      if Js.truthy basin then RBasin basin
      else
        match findStation (stationIndex p) normalizedKeyword with
        | Some s => RStation s
        | None => RNone
        end
  | None =>
      match findStation (stationIndex p) normalizedKeyword with
      | Some s => RStation s
      | None => RNone
      end
  end.

Definition performSearch (p : Params) (rawKeyword : string) (st : UiState)
  : bool * UiState :=
  let keyword := Js.trim rawKeyword in
  if negb (Js.truthy keyword) then
    (false,
     setSearchHint emptyKeywordHint
       (MapState.clearPreview (setSelectedSearchItem None st)))
  else
    match mapInstance st with
    | None =>
        (false,
         setSearchHint mapNotReadyHint
           (MapState.clearPreview (setSelectedSearchItem None st)))
    | Some _ =>
        match resolve p keyword with
        | RBasin basin =>
            let matched := default [] (groups_get basin (groups p)) in
            (true,
             closePopup
               (setActiveTab (Some TabBasin)
                  (setBasinTab
                     (Some {| basinName := basin; stationCount := length matched |})
                     (setSelectedSearchItem
                        (Some {| label := basin; item_type := Basin |})
                        (MapState.clearPreview
                           (setSearchHint "" (zoomToStations matched st)))))))
        | RStation stationMatch =>
            let label :=
              match station_name stationMatch with
              | Some n => if Js.truthy n then n else stationDisplayName stationMatch
              | None => stationDisplayName stationMatch
              end in
            (true,
             MapState.commitStationSelection stationMatch
               (setSelectedSearchItem
                  (Some {| label := label; item_type := StationT |})
                  (setSearchHint "" (zoomToStations [stationMatch] st))))
        | RNone =>
            (false,
             setSearchHint (noMatchHint p)
               (MapState.clearPreview (setSelectedSearchItem None st)))
        end
    end.

Definition handleSearchSubmit (p : Params) (st : UiState) : UiState :=
  snd (performSearch p (searchText st) st).

Definition handleSuggestionSelect (p : Params) (item : SearchSuggestion) (st : UiState)
  : UiState :=
  snd (performSearch p (value item)
         (setSelectedSearchItem (Some {| label := value item; item_type := type item |})
            (setSearchText (value item) st))).

Definition handleSearchTextChange (v : string) (st : UiState) : UiState :=
  let st1 := setSelectedSearchItem None (setSearchText v st) in
  if Js.truthy (searchHint st) then setSearchHint "" st1 else st1.

End Hook.

End Search.

(** * Range cache and aggregator ([useStationEvents]) *)

Module Events.

Inductive ChartPresetId := timeline_all | seasonal_frequency | peak_distribution.

Record DateRange := {
  range_start : string;
  range_end : string
}.

(** A request: the path and the [URLSearchParams] after the question mark,
    in order. *)
Record Url := {
  path : string;
  query : list (string * string)
}.

(** [URLSearchParams.prototype.set] *)
Fixpoint params_set (k v : string) (q : list (string * string)) : list (string * string) :=
  match q with
  | [] => [(k, v)]
  | (k', v') :: rest =>
      if String.eqb k' k
      then (k, v) :: List.filter (fun kv => negb (String.eqb (fst kv) k)) rest
      else (k', v') :: params_set k v rest
  end.

Definition params_get (k : string) (q : list (string * string)) : option string :=
  option_map snd (List.find (fun kv => String.eqb (fst kv) k) q).

(** What one render of the hook sees: its props, its two dictionaries and
    the data the two [useSWR] calls currently hold. *)
Record Render := {
  activeTab : ActiveTab;
  basinTab : option BasinTabData;
  stationTab : option Station;
  peakDateRangeByTab : gmap string DateRange;
  selectedPresetByTab : gmap string (option ChartPresetId);
  summaryData : option StationEventsApiResponse;
  rangeData : option StationEventsApiResponse
}.

Definition setPeakDateRangeByTab (v : gmap string DateRange) (r : Render) : Render :=
  {| activeTab := activeTab r; basinTab := basinTab r; stationTab := stationTab r;
     peakDateRangeByTab := v; selectedPresetByTab := selectedPresetByTab r;
     summaryData := summaryData r; rangeData := rangeData r |}.

Definition setSelectedPresetByTab (v : gmap string (option ChartPresetId)) (r : Render)
  : Render :=
  {| activeTab := activeTab r; basinTab := basinTab r; stationTab := stationTab r;
     peakDateRangeByTab := peakDateRangeByTab r; selectedPresetByTab := v;
     summaryData := summaryData r; rangeData := rangeData r |}.

Definition toDateOnly (v : option string) : option string :=
  match v with
  | Some s => if Js.truthy s then Some (Js.slice0 10 s) else None
  | None => None
  end.

Definition currentStation (r : Render) : option Station :=
  match activeTab r with
  | Some TabStation => stationTab r
  | _ => None
  end.

Definition currentBasin (r : Render) : option string :=
  match activeTab r with
  | Some TabBasin => option_map basinName (basinTab r)
  | _ => None
  end.

Definition currentBasinCount (r : Render) : nat :=
  match activeTab r with
  | Some TabBasin => default 0 (option_map stationCount (basinTab r))
  | _ => 0
  end.

Definition activeTabKey (r : Render) : option string :=
  match currentStation r with
  | Some s => Some ("s:" +:+ station_id s)
  | None =>
      match currentBasin r with
      | Some b => if Js.truthy b then Some ("b:" +:+ b) else None
      | None => None
      end
  end.

Definition currentTabDateRange (r : Render) : option DateRange :=
  match activeTabKey r with
  | Some key => peakDateRangeByTab r !! key
  | None => None
  end.

Definition peakStartDate (r : Render) : string :=
  default "" (option_map range_start (currentTabDateRange r)).

Definition peakEndDate (r : Render) : string :=
  default "" (option_map range_end (currentTabDateRange r)).

Definition selectedPreset (r : Render) : option ChartPresetId :=
  match activeTabKey r with
  | Some key => mjoin (selectedPresetByTab r !! key)
  | None => None
  end.

Definition minPeakDate (r : Render) : option string :=
  toDateOnly (summaryData r ≫= fun d => minPeakTime (summary d)).

Definition maxPeakDate (r : Render) : option string :=
  toDateOnly (summaryData r ≫= fun d => maxPeakTime (summary d)).

Definition rangeStartDate (r : Render) : option string :=
  Js.or_else (peakStartDate r) (minPeakDate r).

Definition rangeEndDate (r : Render) : option string :=
  Js.or_else (peakEndDate r) (maxPeakDate r).

(** [bound && value && value !== bound] *)
Definition boundChanged (bound value : option string) : bool :=
  Js.truthy_opt bound && Js.truthy_opt value && negb (bool_decide (value = bound)).

Definition hasDateFilterChanged (r : Render) : bool :=
  boundChanged (minPeakDate r) (rangeStartDate r) ||
  boundChanged (maxPeakDate r) (rangeEndDate r).

Definition shouldFetchRangeData (r : Render) : bool :=
  bool_decide (is_Some (selectedPreset r)) || hasDateFilterChanged r.

Definition eventSummary (r : Render) : option StationEventSummary :=
  match rangeData r with
  | Some d => Some (summary d)
  | None => option_map summary (summaryData r)
  end.

Definition matchedSeries (r : Render) : list StationMatchedPoint :=
  default [] (rangeData r ≫= matchedSeries).

Definition chartPoints (r : Render) : list StationMatchedPoint := matchedSeries r.

Section Hook.
Context `{Runtime}.

Definition eventsBasePath (r : Render) : option string :=
  match currentStation r with
  | Some s => Some ("/api/stations/" +:+ station_id s +:+ "/events")
  | None =>
      match currentBasin r with
      | Some b =>
          if Js.truthy b
          then Some ("/api/basins/" +:+ encodeURIComponent b +:+ "/events")
          else None
      | None => None
      end
  end.

Definition summaryRequestUrl (r : Render) : option Url :=
  match eventsBasePath r with
  | Some base =>
      if Js.truthy base then Some {| path := base; query := [("includeRecent", "0")] |}
      else None
  | None => None
  end.

Definition rangeRequestUrl (r : Render) : option Url :=
  match eventsBasePath r, rangeStartDate r, rangeEndDate r with
  | Some base, Some rs, Some re =>
      if negb (Js.truthy base) || negb (Js.truthy rs) || negb (Js.truthy re)
         || negb (shouldFetchRangeData r)
      then None
      else
        let query := [("includeRecent", "0"); ("peakStart", rs); ("peakEnd", re)] in
        let query :=
          match selectedPreset r with
          | Some _ => params_set "includeMatchedSeries" "1" query
          | None => query
          end in
        Some {| path := base; query := query |}
  | _, _, _ => None
  end.

(** [monthlyFrequency]. Reading [monthCounts[month]] outside the array
    gives [undefined], and the update of its [count] then throws:
    [None]. *)
Definition initialMonthCounts : list MonthlyFrequencyPoint :=
  map (fun monthIndex => {| month := monthIndex + 1; count := 0 |}) (seq 0 12).

Definition bumpMonth (monthCounts : list MonthlyFrequencyPoint) (m : nat)
  : option (list MonthlyFrequencyPoint) :=
  match monthCounts !! m with
  | Some p => Some (<[m := {| month := month p; count := count p + 1 |}]> monthCounts)
  | None => None
  end.

Fixpoint countMonths (series : list StationMatchedPoint)
    (monthCounts : list MonthlyFrequencyPoint) : option (list MonthlyFrequencyPoint) :=
  match series with
  | [] => Some monthCounts
  | item :: rest =>
      match Date_parse (peak_time item) with
      | None => countMonths rest monthCounts
      | Some timestamp =>
          match bumpMonth monthCounts (Date_getMonth timestamp) with
          | Some monthCounts' => countMonths rest monthCounts'
          | None => None
          end
      end
  end.

Definition monthlyFrequencyOf (series : list StationMatchedPoint)
  : option (list MonthlyFrequencyPoint) :=
  countMonths series initialMonthCounts.

Definition monthlyFrequency (r : Render) : option (list MonthlyFrequencyPoint) :=
  monthlyFrequencyOf (matchedSeries r).

End Hook.

(** [peakDistribution] *)
Definition finitePeak (item : StationMatchedPoint) : bool := Js.isFinite (peak_value item).

Definition byPeakDescending (a b : StationMatchedPoint) : comparison :=
  Js.sign (Js.sub (peak_value b) (peak_value a)).

Definition rankPoint (index : nat) (item : StationMatchedPoint) : PeakDistributionPoint :=
  {| rank := index + 1; dist_peak_value := peak_value item |}.

(** The array [map] is applied to: the filtered copy, sorted. *)
Definition sortedFinite (series : list StationMatchedPoint) : list StationMatchedPoint :=
  Js.sort byPeakDescending (List.filter finitePeak series).

Definition peakDistributionOf (series : list StationMatchedPoint)
  : list PeakDistributionPoint :=
  imap rankPoint (sortedFinite series).

Definition peakDistribution (r : Render) : list PeakDistributionPoint :=
  peakDistributionOf (matchedSeries r).

Definition isOpen (r : Render) : bool :=
  match activeTab r with
  | Some TabStation => bool_decide (is_Some (stationTab r))
  | Some TabBasin => bool_decide (is_Some (basinTab r))
  | None => false
  end.

Definition clearTabPreset (tabKey : option string) (r : Render) : Render :=
  match tabKey with
  | Some key =>
      if Js.truthy key then setSelectedPresetByTab (delete key (selectedPresetByTab r)) r
      else r
  | None => r
  end.

Definition clearTabDateRange (tabKey : option string) (r : Render) : Render :=
  match tabKey with
  | Some key =>
      if Js.truthy key then setPeakDateRangeByTab (delete key (peakDateRangeByTab r)) r
      else r
  | None => r
  end.

Definition emptyRange : DateRange := {| range_start := ""; range_end := "" |}.

Definition setStartDate (next : string) (r : Render) : Render :=
  match activeTabKey r with
  | None => r
  | Some key =>
      let prev := peakDateRangeByTab r in
      let current := default emptyRange (prev !! key) in
      let nextEnd :=
        match rangeEndDate r with
        | Some re => if Js.truthy re && Js.str_gt next re then next else range_end current
        | None => range_end current
        end in
      setPeakDateRangeByTab
        (<[key := {| range_start := next; range_end := nextEnd |}]> prev) r
  end.

Definition setEndDate (next : string) (r : Render) : Render :=
  match activeTabKey r with
  | None => r
  | Some key =>
      let prev := peakDateRangeByTab r in
      let current := default emptyRange (prev !! key) in
      let nextStart :=
        match rangeStartDate r with
        | Some rs => if Js.truthy rs && Js.str_lt next rs then next else range_start current
        | None => range_start current
        end in
      setPeakDateRangeByTab
        (<[key := {| range_start := nextStart; range_end := next |}]> prev) r
  end.

(** A date edit, and a run of edits on one render after the other. *)
Inductive Edit :=
| EditStart (next : string)
| EditEnd (next : string).

Definition applyEdit (r : Render) (e : Edit) : Render :=
  match e with
  | EditStart next => setStartDate next r
  | EditEnd next => setEndDate next r
  end.

Definition applyEdits (edits : list Edit) (r : Render) : Render :=
  fold_left applyEdit edits r.

Definition editDate (e : Edit) : string :=
  match e with
  | EditStart next => next
  | EditEnd next => next
  end.

End Events.

(** * Arrays as shared objects

    [matchedSeries] is one array object; [chartPoints] is another name for
    it, and [peakDistribution] runs [filter], [sort] and [map] on it. The
    store below keeps every array of matched points under its reference, so
    that an in-place update is seen through every alias. *)

Module Store.

Definition ref := nat.
Definition store := list (list StationMatchedPoint).

Definition alloc (a : list StationMatchedPoint) (s : store) : ref * store :=
  (length s, s ++ [a]).

(** [Array.prototype.filter]: the result is a new array. *)
Definition filter (p : StationMatchedPoint -> bool) (r : ref) (s : store)
  : option (ref * store) :=
  a ← s !! r; Some (alloc (List.filter p a) s).

(** [Array.prototype.sort]: sorts the receiver in place and returns it. *)
Definition sort (cmp : StationMatchedPoint -> StationMatchedPoint -> comparison)
    (r : ref) (s : store) : option (ref * store) :=
  a ← s !! r; Some (r, <[r := Js.sort cmp a]> s).

(** [Array.prototype.map] into points of another type: a new array, handed
    over by value. *)
Definition map_rank (r : ref) (s : store) : option (list PeakDistributionPoint) :=
  a ← s !! r; Some (imap Events.rankPoint a).

Definition peakDistribution (matchedSeries : ref) (s : store)
  : option (list PeakDistributionPoint * store) :=
  '(kept, s1) ← filter Events.finitePeak matchedSeries s;
  '(sorted, s2) ← sort Events.byPeakDescending kept s1;
  d ← map_rank sorted s2;
  Some (d, s2).

Definition chartPoints (matchedSeries : ref) : ref := matchedSeries.

(** The distribution derived [n] times in a row. *)
Fixpoint derive (n : nat) (matchedSeries : ref) (s : store) : option store :=
  match n with
  | 0 => Some s
  | S n' => '(_, s') ← peakDistribution matchedSeries s; derive n' matchedSeries s'
  end.

(** What sorting the series itself, without the copy, would do. *)
Definition sortInPlace (matchedSeries : ref) (s : store) : option store :=
  '(_, s') ← sort Events.byPeakDescending matchedSeries s; Some s'.

End Store.

(** * A reference host

    One concrete choice of the collaborators, used to run the definitions on
    examples: names are normalised by trimming and folding ASCII case,
    collation is the code-unit order, the clock is UTC, reading the
    calendar date at the front of an ISO timestamp, and URI escaping leaves
    a string as it is, as it does for unreserved characters. *)

Module Host.

Definition lower (c : ascii) : ascii :=
  let n := nat_of_ascii c in
  if (65 <=? n) && (n <=? 90) then ascii_of_nat (n + 32) else c.

Fixpoint lowercase (s : string) : string :=
  match s with
  | EmptyString => EmptyString
  | String c s' => String (lower c) (lowercase s')
  end.

(** Modelled from the spec: [normalizeText] and [stationDisplayName] of the
    absent [app/map/mapUtils]. The normaliser trims and folds case, and
    gives the empty string for blank or missing input; the width and
    diacritics folding of the spec has nothing to act on in ASCII names.
    The display name is the primary name, else the identifier. *)
#[export] Instance mapUtils : MapUtils := {|
  normalizeText o :=
    match o with
    | Some s => lowercase (Js.trim s)
    | None => ""
    end;
  stationDisplayName s :=
    match station_name s with
    | Some n => if Js.truthy n then n else station_id s
    | None => station_id s
    end
|}.

Definition digit (c : ascii) : option Z :=
  let n := nat_of_ascii c in
  if (48 <=? n) && (n <=? 57) then Some (Z.of_nat (n - 48)) else None.

Fixpoint digits (acc : Z) (l : list ascii) : option Z :=
  match l with
  | [] => Some acc
  | c :: l' =>
      match digit c with
      | Some d => digits (10 * acc + d)%Z l'
      | None => None
      end
  end.

(** Days since 1970-01-01 of a proleptic Gregorian date. *)
Definition days_from_civil (y m d : Z) : Z :=
  let y' := if (m <=? 2)%Z then (y - 1)%Z else y in
  let era := (y' / 400)%Z in
  let yoe := (y' - era * 400)%Z in
  let mp := if (m >? 2)%Z then (m - 3)%Z else (m + 9)%Z in
  let doy := ((153 * mp + 2) / 5 + d - 1)%Z in
  let doe := (yoe * 365 + yoe / 4 - yoe / 100 + doy)%Z in
  (era * 146097 + doe - 719468)%Z.

(** Month (0 for January) of a day count. *)
Definition month_of_days (z : Z) : nat :=
  let z' := (z + 719468)%Z in
  let era := (z' / 146097)%Z in
  let doe := (z' - era * 146097)%Z in
  let yoe := ((doe - doe / 1460 + doe / 36524 - doe / 146096) / 365)%Z in
  let doy := (doe - (365 * yoe + yoe / 4 - yoe / 100))%Z in
  let mp := ((5 * doy + 2) / 153)%Z in
  Z.to_nat ((mp + 2) mod 12).

Definition msPerDay : Z := 86400000.

Definition parseDate (s : string) : option Z :=
  match list_ascii_of_string s with
  | y1 :: y2 :: y3 :: y4 :: "-"%char :: m1 :: m2 :: "-"%char :: d1 :: d2 :: _ =>
      match digits 0 [y1; y2; y3; y4], digits 0 [m1; m2], digits 0 [d1; d2] with
      | Some y, Some m, Some d =>
          if ((1 <=? m) && (m <=? 12) && (1 <=? d) && (d <=? 31))%Z
          then Some (days_from_civil y m d * msPerDay)%Z
          else None
      | _, _, _ => None
      end
  | _ => None
  end.

#[export] Instance runtime : Runtime := {|
  localeCompare := String.compare;
  Date_parse := parseDate;
  Date_getMonth t := month_of_days (t / msPerDay);
  encodeURIComponent s := s
|}.

End Host.

(** * Sample data

    A handful of stations, series and renders on which the statements below
    are exercised with the reference host. *)

Module Sample.

Definition mkStation (i : string) (basin name name2 : option string) : Station :=
  {| station_id := i; basin_name := basin; station_name := name;
     station_name2 := name2; station_name3 := None |}.

Definition maebashi := mkStation "101" (Some "Tone") (Some "Maebashi") (Some "Tonegawa-kami").
Definition akayu := mkStation "102" (Some "Okitama") (Some "Akayu") None.
Definition kurihashi := mkStation "103" (Some " Tone ") (Some "Kurihashi") None.
Definition kitaura := mkStation "104" None (Some "Kitaura-east") None.
Definition kita := mkStation "105" None (Some " Kita") (Some "Kitaura-east").

(** Two basins, [Tone] (two stations) and [Okitama]. *)
Definition stations : list Station := [maebashi; akayu; kurihashi; kitaura; kita].

(** One basin, [Tone]; [kitaura] comes before [kita]. *)
Definition stationsOneBasin : list Station := [maebashi; kitaura; kita].

Definition initialUi (map : option (list MapCall)) : UiState :=
  {| basinTab := None; stationTab := None; activeTab := None; mapInstance := map;
     selectedStationId := None; previewStationId := None; searchText := "";
     searchHint := ""; selectedSearchItem := None |}.

(** A station tab and a basin tab are open, the station tab in front. *)
Definition bothTabs : UiState :=
  {| basinTab := Some {| basinName := "Tone"; stationCount := 2 |};
     stationTab := Some maebashi; activeTab := Some TabStation;
     mapInstance := Some [];
     selectedStationId := Some "101"; previewStationId := Some "102"; searchText := "  ";
     searchHint := ""; selectedSearchItem := Some {| label := "Maebashi"; item_type := StationT |} |}.

Definition mkPoint (i : Z) (time : string) (v : Js.number) : StationMatchedPoint :=
  {| id := i; peak_time := time; peak_value := v; peak_time_str := None |}.

(** Peak values 3, 7, 7, 1; the timestamp of the third point does not
    parse. *)
Definition series : list StationMatchedPoint :=
  [mkPoint 1 "2019-10-12 14:00:00" (Js.Fin 3);
   mkPoint 2 "2020-10-01 03:30:00" (Js.Fin 7);
   mkPoint 3 "unknown" (Js.Fin 7);
   mkPoint 4 "2021-01-05 00:10:00" (Js.Fin 1)].

(** The same with a point without a finite peak in the middle. *)
Definition seriesWithGap : list StationMatchedPoint :=
  [mkPoint 1 "2019-10-12 14:00:00" (Js.Fin 3);
   mkPoint 2 "2020-10-01 03:30:00" (Js.Fin 7);
   mkPoint 5 "2020-11-02 08:00:00" Js.NaN;
   mkPoint 3 "unknown" (Js.Fin 7);
   mkPoint 4 "2021-01-05 00:10:00" (Js.Fin 1)].

(** The station [maebashi] is in front; its events span 2000-01-01 to
    2020-12-31; no date has been edited and no chart is chosen. *)
Definition summaryKnown : StationEventsApiResponse :=
  {| summary := {| matchedEvents := 42;
                   minPeakTime := Some "2000-01-01 06:00:00";
                   maxPeakTime := Some "2020-12-31 18:30:00" |};
     matchedSeries := None |}.

Definition fullHistory : Events.Render :=
  {| Events.activeTab := Some TabStation;
     Events.basinTab := None;
     Events.stationTab := Some maebashi;
     Events.peakDateRangeByTab := ∅;
     Events.selectedPresetByTab := ∅;
     Events.summaryData := Some summaryKnown;
     Events.rangeData := None |}.

(** The same selection with the year 2010 as range. *)
Definition year2010 : Events.Render :=
  Events.setPeakDateRangeByTab
    {[ "s:101" := {| Events.range_start := "2010-01-01"; Events.range_end := "2010-12-31" |} ]}
    fullHistory.

(** A selection without events, hence without a default span, that holds a
    date range all the same. *)
Definition summaryNoEvents : StationEventsApiResponse :=
  {| summary := {| matchedEvents := 0; minPeakTime := None; maxPeakTime := None |};
     matchedSeries := None |}.

Definition rangeWithoutSpan : Events.Render :=
  {| Events.activeTab := Some TabStation;
     Events.basinTab := None;
     Events.stationTab := Some maebashi;
     Events.peakDateRangeByTab :=
       {[ "s:101" := {| Events.range_start := "2020-01-01";
                        Events.range_end := "2020-12-31" |} ]};
     Events.selectedPresetByTab := ∅;
     Events.summaryData := Some summaryNoEvents;
     Events.rangeData := None |}.

(** Ten basins whose names start with "Shin", listed out of order, with
    station names that repeat. *)
Definition shinStations : list Station :=
  [ mkStation "201" (Some "Shinano") (Some "Shinagawa") None;
    mkStation "202" (Some "Shingu") (Some " Shinagawa ") None;
    mkStation "203" (Some "Shinji") (Some "Shinjuku") (Some "Shintaro");
    mkStation "204" (Some "Shinkawa") (Some "Oshino") None;
    mkStation "205" (Some "Shinmachi") None None;
    mkStation "206" (Some "Shinjo") (Some "Shibata") None;
    mkStation "207" (Some "Shintoku") (Some "Shinagawa") None;
    mkStation "208" (Some "Shinden") (Some "shinden-minami") None;
    mkStation "209" (Some "Shinbashi") (Some "   ") None;
    mkStation "210" (Some "Shinei") (Some "Shimoda") None;
    mkStation "211" (Some "Oshin") (Some "Shinonome") None ].

End Sample.

(** * Vocabulary of the statements *)

(** [x] is the first element of [l] that passes [p]. *)
Definition first_with {A} (p : A -> bool) (l : list A) (x : A) : Prop :=
  exists l1 l2, l = l1 ++ x :: l2 /\ p x = true /\ Forall (fun y => p y = false) l1.

(** No element of [l] passes [p]. *)
Definition none_with {A} (p : A -> bool) (l : list A) : Prop :=
  Forall (fun y => p y = false) l.

(** The order a comparator induces: [a] may stand before [b]. *)
Definition before {A} (cmp : A -> A -> comparison) (a b : A) : Prop := cmp a b <> Gt.

(** A comparator is consistent on the elements that satisfy [dom] when its
    answers are antisymmetric and [before] is transitive there. *)
Record consistent_on {A} (dom : A -> Prop) (cmp : A -> A -> comparison) : Prop := {
  cmp_asym : forall a b, dom a -> dom b -> cmp a b = Gt -> cmp b a <> Gt;
  cmp_trans : forall a b c, dom a -> dom b -> dom c ->
                before cmp a b -> before cmp b c -> before cmp a c
}.

(** The value of a finite peak. *)
Definition peakQ (item : StationMatchedPoint) : Q :=
  match peak_value item with
  | Js.Fin q => q
  | _ => 0
  end.

(** A point with a finite peak. *)
Definition finite (item : StationMatchedPoint) : Prop := Events.finitePeak item = true.

(** The points of a series whose peak value is a number, neither NaN nor an
    infinity, in the order of the series. *)
Definition isNumber (item : StationMatchedPoint) : bool :=
  match peak_value item with
  | Js.Fin _ => true
  | Js.NaN | Js.PosInf | Js.NegInf => false
  end.

Definition withNumberPeak (series : list StationMatchedPoint) : list StationMatchedPoint :=
  List.filter isNumber series.

(** The points of peak value [v]. *)
Definition hasPeak (v : Q) (item : StationMatchedPoint) : bool := Qeq_bool (peakQ item) v.

(** Sum of the counts of a histogram. *)
Definition totalCount (mf : list MonthlyFrequencyPoint) : nat :=
  foldr (fun p acc => count p + acc) 0 mf.

(** A point whose peak timestamp parses, and one whose peak falls in the
    month of index [m] (0 for January). *)
Definition parseable `{Runtime} (item : StationMatchedPoint) : bool :=
  match Date_parse (peak_time item) with
  | Some _ => true
  | None => false
  end.

Definition inMonth `{Runtime} (m : nat) (item : StationMatchedPoint) : bool :=
  match Date_parse (peak_time item) with
  | Some timestamp => Nat.eqb (Date_getMonth timestamp) m
  | None => false
  end.

(** The count in the bucket of index [m]. *)
Definition countAt (m : nat) (mf : list MonthlyFrequencyPoint) : nat :=
  default 0 (count <$> mf !! m).

(** [n] is the trimmed, non-empty primary name of the station [st], and
    its normalised form starts with [keyword]. *)
Definition candidate `{MapUtils} (keyword : string) (st : Station) (n : string) : Prop :=
  exists raw, station_name st = Some raw /\ Js.trim raw = n /\ n <> "" /\
              Js.startsWith (normalizeText (Some n)) keyword = true.

(** The effective range of a render is ordered: both bounds are known and
    the start is not after the end. *)
Definition range_ordered (r : Events.Render) : Prop :=
  exists rs re, Events.rangeStartDate r = Some rs /\ Events.rangeEndDate r = Some re /\
                String.leb rs re = true.

(** * File names and the events export ([useCsvExport]) *)

Module CsvExport.

(** The characters the pattern of [sanitizeFileNamePart] matches: backslash,
    slash, colon, star, question mark, double quote, the angle brackets, bar
    and white space. *)
Definition forbidden (c : ascii) : bool :=
  Js.is_white c ||
  match nat_of_ascii c with
  | 34 | 42 | 47 | 58 | 60 | 62 | 63 | 92 | 124 => true
  | _ => false
  end.

(** [value.replace(pattern, '_')] with the global pattern of one or more
    forbidden characters: every maximal run of them becomes one underscore. [inRun] tells that the
    previous character was part of a run. *)
Fixpoint sanitizeFrom (inRun : bool) (s : string) : string :=
  match s with
  | EmptyString => EmptyString
  | String c s' =>
      if forbidden c
      then if inRun then sanitizeFrom true s' else String "_" (sanitizeFrom true s')
      else String c (sanitizeFrom false s')
  end.

Definition sanitizeFileNamePart (value : string) : string := sanitizeFrom false value.

(** What the hook receives from the side panel. *)
Record Params := {
  currentStation : option Station;
  currentBasin : option string;
  rangeStartDate : option string;
  rangeEndDate : option string;
  getDisplayName : Station -> string
}.

(** A detailed event row of the response, and the part of the response
    that [downloadEventsXlsx] reads. *)
Record StationRecentEvent := {
  ev_id : Z;
  ev_station_id : option string;
  ev_basin_name : option string;
  ev_start_time : option string;
  ev_peak_time : option string;
  ev_end_time : option string;
  ev_start_value : option Js.number;
  ev_peak_value : option Js.number;
  ev_end_value : option Js.number;
  ev_rise_time : option Js.number;
  ev_fall_time : option Js.number;
  ev_peak_time_str : option string
}.

Record ExportResponse := {
  matchedEventsDetail : option (list StationRecentEvent);
  exportSeries : option (list StationMatchedPoint)
}.

(** The rows of the sheet. A station export names the station; the other
    rows name the station and basin of the event. *)
Record BaseRow := {
  row_index : nat;
  row_start_time : option string;
  row_peak_time : option string;
  row_end_time : option string;
  row_start_value : option Js.number;
  row_peak_value : option Js.number;
  row_end_value : option Js.number;
  row_rise_time : option Js.number;
  row_fall_time : option Js.number
}.

Inductive ExportRow :=
| StationRow (base : BaseRow) (station_name : option string) (basin_name : option string)
| EventRow (base : BaseRow) (station_id : option string) (basin_name : option string).

Definition baseOf (row : ExportRow) : BaseRow :=
  match row with
  | StationRow base _ _ => base
  | EventRow base _ _ => base
  end.

(** [Object.keys] of a row. *)
Definition rowKeys (row : ExportRow) : list string :=
  ["index"; "start_time"; "peak_time"; "end_time"; "start_value"; "peak_value";
   "end_value"; "rise_time"; "fall_time"] ++
  match row with
  | StationRow _ _ _ => ["station_name"; "basin_name"]
  | EventRow _ _ _ => ["station_id"; "basin_name"]
  end.

Record Workbook := {
  fileName : string;
  columns : list string;
  sheetRows : list ExportRow
}.

(** The first test of [downloadEventsXlsx]: nothing selected, or a bound
    missing. *)
Definition nothingToExport (p : Params) : bool :=
  (negb (bool_decide (is_Some (currentStation p))) && negb (Js.truthy_opt (currentBasin p)))
  || negb (Js.truthy_opt (rangeStartDate p))
  || negb (Js.truthy_opt (rangeEndDate p)).

Section Hook.
Context `{Runtime}.

(** The request of the export; [None] when the first test returns. *)
Definition exportUrl (p : Params) : option Events.Url :=
  if nothingToExport p then None
  else
    match rangeStartDate p, rangeEndDate p with
    | Some rs, Some re =>
        let query := [("includeRecent", "0"); ("includeMatchedEvents", "1");
                      ("peakStart", rs); ("peakEnd", re)] in
        match currentStation p with
        | Some s =>
            Some {| Events.path := "/api/stations/" +:+ station_id s +:+ "/events";
                    Events.query := query |}
        | None =>
            Some {| Events.path :=
                      "/api/basins/" +:+ encodeURIComponent (default "" (currentBasin p))
                      +:+ "/events";
                    Events.query := query |}
        end
    | _, _ => None
    end.

Definition seriesRow (p : Params) (item : StationMatchedPoint) : StationRecentEvent :=
  {| ev_id := id item;
     ev_station_id := option_map station_id (currentStation p);
     ev_basin_name := currentBasin p;
     ev_start_time := None;
     ev_peak_time := Some (peak_time item);
     ev_end_time := None;
     ev_start_value := None;
     ev_peak_value := Some (peak_value item);
     ev_end_value := None;
     ev_rise_time := None;
     ev_fall_time := None;
     ev_peak_time_str := peak_time_str item |}.

Definition exportRow (p : Params) (index : nat) (item : StationRecentEvent) : ExportRow :=
  let baseRow :=
    {| row_index := index + 1;
       row_start_time := ev_start_time item;
       row_peak_time := ev_peak_time item;
       row_end_time := ev_end_time item;
       row_start_value := ev_start_value item;
       row_peak_value := ev_peak_value item;
       row_end_value := ev_end_value item;
       row_rise_time := ev_rise_time item;
       row_fall_time := ev_fall_time item |} in
  match currentStation p with
  | Some s =>
      StationRow baseRow (Some (getDisplayName p s))
        (match basin_name s with
         | Some b => Some b
         | None => currentBasin p
         end)
  | None => EventRow baseRow (ev_station_id item) (ev_basin_name item)
  end.

Definition exportRows (p : Params) (data : ExportResponse) : list ExportRow :=
  let detailedRows := default [] (matchedEventsDetail data) in
  let source :=
    if 0 <? length detailedRows then detailedRows
    else map (seriesRow p) (default [] (exportSeries data)) in
  imap (exportRow p) source.

Definition exportFileName (p : Params) : string :=
  let prefix :=
    match currentStation p with
    | Some s => "station_" +:+ getDisplayName p s
    | None => "basin_" +:+ default "null" (currentBasin p)
    end in
  sanitizeFileNamePart prefix +:+ "_" +:+ default "null" (rangeStartDate p)
  +:+ "_to_" +:+ default "null" (rangeEndDate p) +:+ ".xlsx".

Definition downloadErrorMessage : string := "Failed to download matched events file.".

(** [downloadEventsXlsx]. [fetch] answers [None] when the request fails,
    the response is not ok or its body is not read. [save] stands for the
    steps between the rows and the click on the link, each of which can
    throw: loading [exceljs], filling the sheet, writing the buffer and
    handing the file to the browser; it answers [false] when one of them
    does. Every throw ends in the [catch], which sets the error. The result
    is the next [downloadError] and the workbook handed to the browser, if
    any; [previousError] is the error shown so far. *)
Definition downloadEventsXlsx (p : Params) (fetch : Events.Url -> option ExportResponse)
    (save : Workbook -> bool) (previousError : option string)
  : option string * option Workbook :=
  match exportUrl p with
  | None => (previousError, None)
  | Some url =>
      match fetch url with
      | None => (Some downloadErrorMessage, None)
      | Some data =>
          let rows := exportRows p data in
          let columns :=
            match rows with
            | [] => []
            | first :: _ => rowKeys first
            end in
          let workbook :=
            {| fileName := exportFileName p; columns := columns; sheetRows := rows |} in
          if save workbook then (None, Some workbook)
          else (Some downloadErrorMessage, None)
      end
  end.

End Hook.

(** The parameters the side panel passes on from [useStationEvents]. *)
Definition paramsOf `{MapUtils} (r : Events.Render) : Params :=
  {| currentStation := Events.currentStation r;
     currentBasin := Events.currentBasin r;
     rangeStartDate := Events.rangeStartDate r;
     rangeEndDate := Events.rangeEndDate r;
     getDisplayName := stationDisplayName |}.

End CsvExport.

(** * The side panel and the wiring of [LeafletMap] *)

Module Panel.

(** [basinHighlightedStationIds] of [LeafletMap] *)
Definition basinHighlightedStationIds (groups : BasinGroups) (st : UiState) : list string :=
  match basinTab st, activeTab st with
  | Some tab, Some TabBasin =>
      map station_id (default [] (groups_get (basinName tab) groups))
  | _, _ => []
  end.

(** [===] on preset identifiers. *)
Definition samePreset (a b : Events.ChartPresetId) : bool :=
  match a, b with
  | Events.timeline_all, Events.timeline_all => true
  | Events.seasonal_frequency, Events.seasonal_frequency => true
  | Events.peak_distribution, Events.peak_distribution => true
  | _, _ => false
  end.

(** The click on a preset button of the side panel. *)
Definition togglePreset (preset : Events.ChartPresetId) (r : Events.Render) : Events.Render :=
  match Events.activeTabKey r with
  | None => r
  | Some key =>
      let prev := Events.selectedPresetByTab r in
      let currentPreset := mjoin (prev !! key) in
      let next :=
        match currentPreset with
        | Some current => if samePreset current preset then None else Some preset
        | None => Some preset
        end in
      Events.setSelectedPresetByTab (<[key := next]> prev) r
  end.

(** The state of the page: the state of [LeafletMap] and [useMapState],
    and the two dictionaries of [useStationEvents]. *)
Record App := {
  ui : UiState;
  dateRanges : gmap string Events.DateRange;
  presets : gmap string (option Events.ChartPresetId)
}.

(** The render of [useStationEvents] in a state of the page, given what the
    two requests currently hold. *)
Definition render (a : App) (summaryData rangeData : option StationEventsApiResponse)
  : Events.Render :=
  {| Events.activeTab := activeTab (ui a);
     Events.basinTab := basinTab (ui a);
     Events.stationTab := stationTab (ui a);
     Events.peakDateRangeByTab := dateRanges a;
     Events.selectedPresetByTab := presets a;
     Events.summaryData := summaryData;
     Events.rangeData := rangeData |}.

Definition withRender (a : App) (u : UiState) (r : Events.Render) : App :=
  {| ui := u;
     dateRanges := Events.peakDateRangeByTab r;
     presets := Events.selectedPresetByTab r |}.

(** The two close buttons of the tab strip. *)
Definition closeBasinClick (a : App) : App :=
  let key := option_map (fun tab => "b:" +:+ basinName tab) (basinTab (ui a)) in
  withRender a (MapState.handleCloseBasinTab (ui a))
    (Events.clearTabDateRange key (Events.clearTabPreset key (render a None None))).

Definition closeStationClick (a : App) : App :=
  let key := option_map (fun s => "s:" +:+ station_id s) (stationTab (ui a)) in
  withRender a (MapState.handleCloseStationTab (ui a))
    (Events.clearTabDateRange key (Events.clearTabPreset key (render a None None))).

(** What the user and the map can do to the state of [LeafletMap]. *)
Inductive Action :=
| MapReady
| Commit (station : Station)
| Preview (stationId : option string)
| ActivateStation
| ActivateBasin
| CloseStation
| CloseBasin
| OpenBasin (basinName : string)
| TypeText (text : string)
| Submit
| SelectSuggestion (item : SearchSuggestion).

Definition step `{MapUtils} (p : Search.Params) (st : UiState) (action : Action) : UiState :=
  match action with
  | MapReady => setMapInstance (Some []) st
  | Commit station => MapState.commitStationSelection station st
  | Preview stationId => MapState.handlePreviewChange stationId st
  | ActivateStation => MapState.handleActivateStationTab st
  | ActivateBasin => MapState.handleActivateBasinTab st
  | CloseStation => MapState.handleCloseStationTab st
  | CloseBasin => MapState.handleCloseBasinTab st
  | OpenBasin basinName => MapState.handleOpenBasinTab (Search.groups p) basinName st
  | TypeText text => Search.handleSearchTextChange text st
  | Submit => Search.handleSearchSubmit p st
  | SelectSuggestion item => Search.handleSuggestionSelect p item st
  end.

Definition run `{MapUtils} (p : Search.Params) (actions : list Action) (st : UiState)
  : UiState :=
  fold_left (step p) actions st.

(** The state [LeafletMap] starts in. *)
Definition initial : UiState :=
  {| basinTab := None; stationTab := None; activeTab := None; mapInstance := None;
     selectedStationId := None; previewStationId := None; searchText := "";
     searchHint := ""; selectedSearchItem := None |}.

End Panel.

(** * The peak distribution chart ([StationPeakDistributionChart]) *)

Module DistributionChart.

(** [[...points].sort((a, b) => a.rank - b.rank)] *)
Definition byRank (a b : PeakDistributionPoint) : comparison := Nat.compare (rank a) (rank b).

Definition sorted (points : list PeakDistributionPoint) : list PeakDistributionPoint :=
  Js.sort byRank points.

(** [Math.max(1, sorted[sorted.length - 1].rank)], for a chart with
    points. *)
Definition maxRank (points : list PeakDistributionPoint) : option nat :=
  match last (sorted points) with
  | Some p => Some (Nat.max 1 (rank p))
  | None => None
  end.

End DistributionChart.

(** * The station listing ([queryStations], [fetchAllStations]) *)

Module Listing.

Record Pagination := {
  page : nat;
  pageSize : nat;
  total : nat;
  totalPages : nat
}.

Record StationsApiResponse := {
  items : list Station;
  pagination : Pagination
}.

(** [queryStations]. [rows] is what the store answers to the query without
    its [LIMIT] and [OFFSET]: the stations that pass the filter, in the
    order of the query. [Math.ceil(total / pageSize)] is computed on
    naturals, for a page size that is not 0. *)
Definition queryStations (rows : list Station) (page pageSize : nat) : StationsApiResponse :=
  let offset := (page - 1) * pageSize in
  let total := length rows in
  {| items := firstn pageSize (skipn offset rows);
     pagination := {| page := page; pageSize := pageSize; total := total;
                      totalPages := (total + pageSize - 1) / pageSize |} |}.

(** [Promise.all] over the remaining pages: the first failure fails the
    whole. *)
Fixpoint fetchPages (fetchPage : nat -> option StationsApiResponse) (pages : list nat)
  : option (list StationsApiResponse) :=
  match pages with
  | [] => Some []
  | p :: rest =>
      match fetchPage p with
      | None => None
      | Some data =>
          match fetchPages fetchPage rest with
          | None => None
          | Some more => Some (data :: more)
          end
      end
  end.

(** [fetchAllStations]. [fetchPage] answers [None] for a response that is
    not ok, which makes the function throw: [None]. *)
Definition fetchAllStations (fetchPage : nat -> option StationsApiResponse)
  : option (list Station) :=
  match fetchPage 1 with
  | None => None
  | Some firstPageData =>
      let totalPages :=
        match totalPages (pagination firstPageData) with
        | 0 => 1
        | n => n
        end in
      if 1 <? totalPages then
        let remainingPages := map (fun index => index + 2) (seq 0 (totalPages - 1)) in
        match fetchPages fetchPage remainingPages with
        | None => None
        | Some remainingPagesData =>
            Some (items firstPageData ++ concat (map items remainingPagesData))
        end
      else Some (items firstPageData)
  end.

End Listing.

(** * The station markers ([StationMarkers]) *)

Module Markers.

(** The props of the component that decide how a marker is drawn. *)
Record Props := {
  activeTab : ActiveTab;
  selectedStationId : option string;
  previewStationId : option string;
  basinHighlightedStationIds : list string
}.

(** [a === stationId] for [a : string | null]. *)
Definition sameId (a : option string) (stationId : string) : bool :=
  match a with
  | Some x => String.eqb x stationId
  | None => false
  end.

Definition isSelected (props : Props) (stationId : string) : bool :=
  match activeTab props with
  | Some TabStation => sameId (selectedStationId props) stationId
  | _ => false
  end.

Definition isPreview (props : Props) (stationId : string) : bool :=
  negb (isSelected props stationId) && sameId (previewStationId props) stationId.

(** [basinHighlightedSet.has(stationId)] on the set built from the list. *)
Definition isBasinHighlighted (props : Props) (stationId : string) : bool :=
  match activeTab props with
  | Some TabBasin =>
      negb (isSelected props stationId) && negb (isPreview props stationId)
      && bool_decide (stationId ∈ basinHighlightedStationIds props)
  | _ => false
  end.

Definition pane (props : Props) (stationId : string) : string :=
  if isSelected props stationId then "station-selected"
  else if isPreview props stationId then "station-preview"
  else "station-base".

Definition fillColor (props : Props) (stationId : string) : string :=
  if isSelected props stationId then "#F85552"
  else if isPreview props stationId then "#F7A34B"
  else if isBasinHighlighted props stationId then "#4A9ECE"
  else "#3A94C5".

Definition strokeColor (props : Props) (stationId : string) : string :=
  if isSelected props stationId then "#C12624"
  else if isPreview props stationId then "#C6741A"
  else if isBasinHighlighted props stationId then "#2F7EA8"
  else "#6B7B85".

End Markers.

(** The props [LeafletMap] passes to the markers. *)
Definition markerProps (groups : BasinGroups) (st : UiState) : Markers.Props :=
  {| Markers.activeTab := activeTab st;
     Markers.selectedStationId := selectedStationId st;
     Markers.previewStationId := previewStationId st;
     Markers.basinHighlightedStationIds := Panel.basinHighlightedStationIds groups st |}.

(** * Further sample data *)

Module Cases.

(** The two tabs of [Sample.bothTabs], each with a range of its own, the
    station tab with a chart. *)
Definition twoTabs : Panel.App :=
  {| Panel.ui := Sample.bothTabs;
     Panel.dateRanges :=
       {[ "s:101" := {| Events.range_start := "2010-01-01";
                        Events.range_end := "2010-12-31" |};
          "b:Tone" := {| Events.range_start := "2001-01-01";
                         Events.range_end := "2002-02-02" |} ]};
     Panel.presets := {[ "s:101" := Some Events.peak_distribution ]} |}.

(** The export of the station of the sample for the year 2010, a response
    that carries the series only, and a server that answers with it. *)
Definition stationExport : CsvExport.Params :=
  {| CsvExport.currentStation := Some Sample.maebashi;
     CsvExport.currentBasin := None;
     CsvExport.rangeStartDate := Some "2010-01-01";
     CsvExport.rangeEndDate := Some "2010-12-31";
     CsvExport.getDisplayName := @stationDisplayName Host.mapUtils |}.

Definition seriesOnly : CsvExport.ExportResponse :=
  {| CsvExport.matchedEventsDetail := None;
     CsvExport.exportSeries := Some Sample.series |}.

Definition answerSeries (url : Events.Url) : option CsvExport.ExportResponse :=
  Some seriesOnly.

(** A browser in which every step of saving works. *)
Definition saves (workbook : CsvExport.Workbook) : bool := true.

(** A server that lists the stations of the sample two to a page. *)
Definition twoPerPage (page : nat) : option Listing.StationsApiResponse :=
  Some (Listing.queryStations Sample.stations page 2).

End Cases.

(** * Vocabulary of the further statements *)

(** The station [s] lies in the basin [k]: its basin name, trimmed, is
    [k]. *)
Definition inBasin (k : string) (s : Station) : bool :=
  match basin_name s with
  | Some raw => String.eqb (Js.trim raw) k
  | None => false
  end.

(** The stations of the basin [k] in the order of the list, if [k] is a
    name and there are any. *)
Definition groupOf (k : string) (stations : list Station) : option (list Station) :=
  if Js.truthy k then
    match List.filter (inBasin k) stations with
    | [] => None
    | group => Some group
    end
  else None.

(** The trimmed basin names of the stations that have one, in the order of
    the list. *)
Definition basinNames (stations : list Station) : list string :=
  flat_map
    (fun s =>
       match basin_name s with
       | Some raw => if Js.truthy (Js.trim raw) then [Js.trim raw] else []
       | None => []
       end)
    stations.

(** The normaliser does not see surrounding white space, and has nothing to
    say about the empty string. *)
Definition ignores_blanks `{MapUtils} : Prop :=
  (forall s, normalizeText (Some (Js.trim s)) = normalizeText (Some s)) /\
  normalizeText (Some "") = "".

(** The row of the sheet shows the event [ev]: its nine values are those of
    the event. *)
Definition row_shows (ev : CsvExport.StationRecentEvent) (row : CsvExport.ExportRow) : Prop :=
  let base := CsvExport.baseOf row in
  CsvExport.row_start_time base = CsvExport.ev_start_time ev /\
  CsvExport.row_peak_time base = CsvExport.ev_peak_time ev /\
  CsvExport.row_end_time base = CsvExport.ev_end_time ev /\
  CsvExport.row_start_value base = CsvExport.ev_start_value ev /\
  CsvExport.row_peak_value base = CsvExport.ev_peak_value ev /\
  CsvExport.row_end_value base = CsvExport.ev_end_value ev /\
  CsvExport.row_rise_time base = CsvExport.ev_rise_time ev /\
  CsvExport.row_fall_time base = CsvExport.ev_fall_time ev.

(** The row of the sheet shows the point [pt] of the series: its peak time
    and peak value, and nothing in the seven other values. *)
Definition row_shows_point (pt : StationMatchedPoint) (row : CsvExport.ExportRow) : Prop :=
  let base := CsvExport.baseOf row in
  CsvExport.row_peak_time base = Some (peak_time pt) /\
  CsvExport.row_peak_value base = Some (peak_value pt) /\
  CsvExport.row_start_time base = None /\
  CsvExport.row_end_time base = None /\
  CsvExport.row_start_value base = None /\
  CsvExport.row_end_value base = None /\
  CsvExport.row_rise_time base = None /\
  CsvExport.row_fall_time base = None.

(** The two naming columns of a row. In the export of a station they name
    the station as it is displayed and its basin, or the basin in view when
    the station has none; otherwise they are the [station] and [basin]
    given. *)
Definition row_names (p : CsvExport.Params) (station basin : option string)
    (row : CsvExport.ExportRow) : Prop :=
  match CsvExport.currentStation p with
  | Some s =>
      exists base,
        row = CsvExport.StationRow base (Some (CsvExport.getDisplayName p s))
                (match basin_name s with
                 | Some b => Some b
                 | None => CsvExport.currentBasin p
                 end)
  | None => exists base, row = CsvExport.EventRow base station basin
  end.

(** The tabs fit together: a station tab in front is there and is the
    selected station, a basin tab in front is there, and a basin tab names a
    basin and counts the stations of its group. *)
Definition tabs_consistent (groups : BasinGroups) (st : UiState) : Prop :=
  (activeTab st = Some TabStation ->
   exists s, stationTab st = Some s /\ selectedStationId st = Some (station_id s)) /\
  (activeTab st = Some TabBasin -> is_Some (basinTab st)) /\
  (forall tab, basinTab st = Some tab ->
               basinName tab <> "" /\
               stationCount tab = length (default [] (groups_get (basinName tab) groups))).

(** * Facts about the primitives *)

Section FindFacts.
Context {A : Type} (p : A -> bool).

Lemma find_first_with (l : list A) (x : A) :
  first_with p l x -> Js.find p l = Some x.
Proof.
  intros (l1 & l2 & -> & Hx & Hl1). unfold Js.find.
  induction Hl1 as [|y l1 Hy _ IH]; simpl.
  - now rewrite Hx.
  - now rewrite Hy.
Qed.

Lemma find_none_with (l : list A) : none_with p l -> Js.find p l = None.
Proof.
  unfold Js.find. induction 1 as [|y l Hy _ IH]; simpl; [reflexivity|].
  now rewrite Hy.
Qed.

Lemma find_Some_first_with (l : list A) (x : A) :
  Js.find p l = Some x -> first_with p l x.
Proof.
  unfold Js.find. induction l as [|y l IH]; simpl; [discriminate|].
  destruct (p y) eqn:Hy.
  - intros [= ->]. exists [], l. repeat split; auto.
  - intros Hf. destruct (IH Hf) as (l1 & l2 & -> & Hx & Hl1).
    exists (y :: l1), l2. repeat split; auto.
Qed.

Lemma find_None_none_with (l : list A) : Js.find p l = None -> none_with p l.
Proof.
  unfold Js.find, none_with. induction l as [|y l IH]; simpl; [constructor|].
  destruct (p y) eqn:Hy; [discriminate|]. intros Hf. constructor; auto.
Qed.

Lemma none_with_forallb (l : list A) :
  forallb (fun y => negb (p y)) l = true -> none_with p l.
Proof.
  unfold none_with. rewrite forallb_forall, List.Forall_forall.
  intros Hall y Hy. specialize (Hall y Hy). now destruct (p y).
Qed.
End FindFacts.

Lemma none_with_weaken {A} (p q : A -> bool) (l : list A) :
  (forall x, p x = true -> q x = true) -> none_with q l -> none_with p l.
Proof.
  intros Hpq. unfold none_with. apply List.Forall_impl. intros x Hq.
  destruct (p x) eqn:Hp; [|reflexivity]. apply Hpq in Hp. congruence.
Qed.

Section StringFacts.

Lemma prefix_refl (s : string) : String.prefix s s = true.
Proof.
  induction s as [|c s IH]; simpl; [reflexivity|].
  destruct (ascii_dec c c); [exact IH|congruence].
Qed.

Lemma eqb_startsWith (s k : string) : String.eqb s k = true -> Js.startsWith s k = true.
Proof. intros ->%String.eqb_eq. apply prefix_refl. Qed.

Lemma startsWith_includes (s k : string) : Js.startsWith s k = true -> Js.includes s k = true.
Proof. unfold Js.startsWith. intros Hp. destruct s; cbn [Js.includes]; now rewrite Hp. Qed.

Lemma truthy_true (s : string) : Js.truthy s = true <-> s <> "".
Proof. destruct s; simpl; split; congruence. Qed.

Lemma truthy_false (s : string) : Js.truthy s = false <-> s = "".
Proof. destruct s; simpl; split; congruence. Qed.

Lemma leb_refl (s : string) : String.leb s s = true.
Proof. destruct (String.leb_total s s); assumption. Qed.

Lemma ltb_false_leb (a b : string) : String.ltb a b = false -> String.leb b a = true.
Proof.
  unfold String.ltb, String.leb. rewrite (String.compare_antisym a b).
  destruct (String.compare b a); simpl; congruence.
Qed.

Lemma slice0_truthy (n : nat) (s : string) :
  Js.truthy s = true -> Js.truthy (Js.slice0 (S n) s) = true.
Proof. destruct s; simpl; [discriminate|reflexivity]. Qed.

End StringFacts.

Section SortFacts.
Context {A : Type} (cmp : A -> A -> comparison).

Lemma insert_perm (x : A) (l : list A) : Permutation (Js.insert cmp x l) (x :: l).
Proof.
  induction l as [|y l IH]; simpl; [reflexivity|].
  destruct (cmp x y); try reflexivity.
  rewrite IH. apply perm_swap.
Qed.

Lemma sort_perm (l : list A) : Permutation (Js.sort cmp l) l.
Proof.
  induction l as [|x l IH]; simpl; [reflexivity|].
  rewrite insert_perm. now constructor.
Qed.

Lemma sort_length (l : list A) : length (Js.sort cmp l) = length l.
Proof. apply Permutation_length, sort_perm. Qed.

Lemma sort_Forall (P : A -> Prop) (l : list A) : Forall P l -> Forall P (Js.sort cmp l).
Proof. intros Hl. eapply Permutation_Forall; [symmetry; apply sort_perm|exact Hl]. Qed.

Section Consistent.
Context (dom : A -> Prop) (Hcmp : consistent_on dom cmp).

Lemma insert_sorted (x : A) (l : list A) :
  dom x -> Forall dom l ->
  StronglySorted (before cmp) l -> StronglySorted (before cmp) (Js.insert cmp x l).
Proof.
  intros Hx Hl Hs. induction Hs as [|y l Hs IH Hy]; simpl.
  - repeat constructor.
  - apply Forall_cons_1 in Hl as [Hdy Hdl].
    destruct (cmp x y) eqn:Hxy.
    + constructor; [now constructor|]. constructor; [unfold before; congruence|].
      rewrite List.Forall_forall in Hy, Hdl |- *. intros z Hz.
      apply (cmp_trans _ _ Hcmp x y z); auto; unfold before; congruence.
    + constructor; [now constructor|]. constructor; [unfold before; congruence|].
      rewrite List.Forall_forall in Hy, Hdl |- *. intros z Hz.
      apply (cmp_trans _ _ Hcmp x y z); auto; unfold before; congruence.
    + constructor; [apply IH, Hdl|].
      eapply Permutation_Forall; [symmetry; apply insert_perm|].
      constructor; [|exact Hy].
      apply (cmp_asym _ _ Hcmp x y); auto.
Qed.

Lemma sort_sorted (l : list A) :
  Forall dom l -> StronglySorted (before cmp) (Js.sort cmp l).
Proof.
  induction l as [|x l IH]; simpl; intros Hl; [constructor|].
  apply Forall_cons_1 in Hl as [Hx Hl].
  apply insert_sorted; auto. now apply sort_Forall.
Qed.

(** Stability: the elements of a class whose members all compare as
    equal come out in the order they went in. *)
Context (cls : A -> bool)
        (Hcls : forall a b, dom a -> dom b -> cls a = true -> cls b = true ->
                            cmp a b <> Gt).

Lemma insert_class (x : A) (l : list A) :
  dom x -> Forall dom l ->
  List.filter cls (Js.insert cmp x l) = List.filter cls (x :: l).
Proof.
  intros Hx Hl. induction l as [|y l IH]; [reflexivity|].
  apply Forall_cons_1 in Hl as [Hy Hl]. cbn [Js.insert].
  destruct (cmp x y) eqn:Hxy; try reflexivity.
  cbn [List.filter] in *. rewrite (IH Hl).
  destruct (cls x) eqn:Hcx, (cls y) eqn:Hcy; try reflexivity.
  exfalso. now apply (Hcls x y).
Qed.

Lemma sort_class (l : list A) :
  Forall dom l -> List.filter cls (Js.sort cmp l) = List.filter cls l.
Proof.
  induction l as [|x l IH]; intros Hl; [reflexivity|].
  apply Forall_cons_1 in Hl as [Hx Hl]. cbn [Js.sort].
  rewrite insert_class; auto using sort_Forall.
  cbn [List.filter]. now rewrite (IH Hl).
Qed.
End Consistent.
End SortFacts.

(** * Selection state machine *)

(** Every setter touches one field; the two calls on the map touch the map
    only. *)
Lemma zoomToStations_fields (targets : list Station) (st : UiState) :
  let st' := zoomToStations targets st in
  basinTab st' = basinTab st /\ stationTab st' = stationTab st /\
  activeTab st' = activeTab st /\ selectedStationId st' = selectedStationId st /\
  previewStationId st' = previewStationId st /\ searchText st' = searchText st /\
  searchHint st' = searchHint st /\ selectedSearchItem st' = selectedSearchItem st /\
  (is_Some (mapInstance st') <-> is_Some (mapInstance st)).
Proof.
  unfold zoomToStations.
  destruct (mapInstance st) as [log|] eqn:Hm; [|rewrite Hm; tauto].
  destruct targets as [|t [|t' ts]]; simpl; rewrite ?Hm; repeat split; eauto.
Qed.

(** C9. Closing the station tab clears [stationTab] and foregrounds the
    basin tab when there is one, nothing otherwise; closing the basin tab
    clears [basinTab] and, only when the basin tab was the active one,
    foregrounds the station tab when there is one, nothing otherwise. This
    is so in every state. *)
Theorem close_tab_fallback (st : UiState) :
  (stationTab (MapState.handleCloseStationTab st) = None /\
   basinTab (MapState.handleCloseStationTab st) = basinTab st /\
   activeTab (MapState.handleCloseStationTab st) =
     match basinTab st with
     | Some _ => Some TabBasin
     | None => None
     end) /\
  (basinTab (MapState.handleCloseBasinTab st) = None /\
   stationTab (MapState.handleCloseBasinTab st) = stationTab st /\
   activeTab (MapState.handleCloseBasinTab st) =
     match activeTab st with
     | Some TabBasin =>
         match stationTab st with
         | Some _ => Some TabStation
         | None => None
         end
     | other => other
     end).
Proof.
  split.
  - unfold MapState.handleCloseStationTab.
    destruct (basinTab st) eqn:Hb; simpl; rewrite ?Hb; auto.
  - unfold MapState.handleCloseBasinTab.
    destruct (activeTab st) as [[|]|] eqn:Ha; simpl; rewrite ?Ha; auto.
    destruct (stationTab st) eqn:Hs; simpl; rewrite ?Hs; auto.
Qed.

(** * Name resolution *)

Section ResolverFacts.
Context `{MapUtils}.

Lemma findBasin_exact index k e :
  first_with (fun e => String.eqb (normalizedName e) k) index e ->
  Search.findBasin index k = Some (name e).
Proof. intros Hf. unfold Search.findBasin. now rewrite (find_first_with _ _ _ Hf). Qed.

Lemma findBasin_prefix index k e :
  none_with (fun e => String.eqb (normalizedName e) k) index ->
  first_with (fun e => Js.startsWith (normalizedName e) k) index e ->
  Search.findBasin index k = Some (name e).
Proof.
  intros Hn Hf. unfold Search.findBasin.
  now rewrite (find_none_with _ _ Hn), (find_first_with _ _ _ Hf).
Qed.

Lemma findBasin_substring index k e :
  none_with (fun e => Js.startsWith (normalizedName e) k) index ->
  first_with (fun e => Js.includes (normalizedName e) k) index e ->
  Search.findBasin index k = Some (name e).
Proof.
  intros Hn Hf. unfold Search.findBasin.
  assert (Hn' : none_with (fun e => String.eqb (normalizedName e) k) index).
  { revert Hn. apply none_with_weaken. intros x. apply eqb_startsWith. }
  now rewrite (find_none_with _ _ Hn'), (find_none_with _ _ Hn), (find_first_with _ _ _ Hf).
Qed.

Lemma findBasin_none index k :
  none_with (fun e => Js.includes (normalizedName e) k) index ->
  Search.findBasin index k = None.
Proof.
  intros Hn. unfold Search.findBasin.
  assert (Hp : none_with (fun e => Js.startsWith (normalizedName e) k) index).
  { revert Hn. apply none_with_weaken. intros x. apply startsWith_includes. }
  assert (He : none_with (fun e => String.eqb (normalizedName e) k) index).
  { revert Hp. apply none_with_weaken. intros x. apply eqb_startsWith. }
  now rewrite (find_none_with _ _ He), (find_none_with _ _ Hp), (find_none_with _ _ Hn).
Qed.

(** Whatever [findBasin] answers is the name of an entry of the index. *)
Lemma findBasin_In index k b :
  Search.findBasin index k = Some b -> exists e, In e index /\ name e = b.
Proof.
  unfold Search.findBasin, Js.find.
  destruct (List.find _ index) as [e|] eqn:H1.
  { intros [= <-]. exists e. split; [|reflexivity]. now apply find_some in H1. }
  destruct (List.find (fun e => Js.startsWith _ _) index) as [e|] eqn:H2.
  { intros [= <-]. exists e. split; [|reflexivity]. now apply find_some in H2. }
  destruct (List.find (fun e => Js.includes _ _) index) as [e|] eqn:H3; [|discriminate].
  intros [= <-]. exists e. split; [|reflexivity]. now apply find_some in H3.
Qed.

(** An entry that contains the keyword makes [findBasin] answer. *)
Lemma findBasin_some index k e :
  In e index -> Js.includes (normalizedName e) k = true ->
  exists b, Search.findBasin index k = Some b.
Proof.
  intros Hin Hinc. destruct (Search.findBasin index k) as [b|] eqn:Hf; [eauto|].
  exfalso. unfold Search.findBasin, Js.find in Hf.
  destruct (List.find _ index); [discriminate|].
  destruct (List.find (fun e => Js.startsWith _ _) index); [discriminate|].
  destruct (List.find (fun e => Js.includes _ _) index) eqn:H3; [discriminate|].
  apply (find_none _ _ H3) in Hin. simpl in Hin. congruence.
Qed.

Lemma resolve_basin p keyword b :
  Search.findBasin (Search.basinIndex p) (normalizeText (Some keyword)) = Some b ->
  forallb (fun e => Js.truthy (name e)) (Search.basinIndex p) = true ->
  Search.resolve p keyword = Search.RBasin b.
Proof.
  intros Hf Hwf. unfold Search.resolve. rewrite Hf.
  destruct (findBasin_In _ _ _ Hf) as (e & Hin & <-).
  rewrite forallb_forall in Hwf. now rewrite (Hwf e Hin).
Qed.

Lemma resolve_no_basin p keyword :
  Search.findBasin (Search.basinIndex p) (normalizeText (Some keyword)) = None ->
  Search.resolve p keyword =
    match Search.findStation (Search.stationIndex p) (normalizeText (Some keyword)) with
    | Some s => Search.RStation s
    | None => Search.RNone
    end.
Proof. intros Hf. unfold Search.resolve. now rewrite Hf. Qed.

(** What [performSearch] does once the two input checks have passed. *)
Lemma performSearch_basin p rawKeyword st b :
  Js.trim rawKeyword <> "" -> mapInstance st <> None ->
  Search.resolve p (Js.trim rawKeyword) = Search.RBasin b ->
  exists st', Search.performSearch p rawKeyword st = (true, st') /\
    basinTab st' =
      Some {| basinName := b;
              stationCount := length (default [] (groups_get b (Search.groups p))) |} /\
    activeTab st' = Some TabBasin /\
    selectedSearchItem st' = Some {| label := b; item_type := Basin |} /\
    stationTab st' = stationTab st /\
    previewStationId st' = None /\ searchHint st' = "".
Proof.
  intros Hk Hm Hr. unfold Search.performSearch.
  apply truthy_true in Hk. rewrite Hk. simpl negb. cbv iota.
  destruct (mapInstance st) eqn:Hmap; [|congruence]. rewrite Hr.
  eexists. split; [reflexivity|]. simpl.
  destruct (zoomToStations_fields (default [] (groups_get b (Search.groups p))) st)
    as (_ & Hs & _). simpl in Hs. repeat split; auto.
Qed.

Lemma performSearch_station p rawKeyword st s :
  Js.trim rawKeyword <> "" -> mapInstance st <> None ->
  Search.resolve p (Js.trim rawKeyword) = Search.RStation s ->
  exists st', Search.performSearch p rawKeyword st = (true, st') /\
    stationTab st' = Some s /\ activeTab st' = Some TabStation /\
    selectedStationId st' = Some (station_id s) /\
    basinTab st' = basinTab st /\
    previewStationId st' = None /\ searchHint st' = "".
Proof.
  intros Hk Hm Hr. unfold Search.performSearch.
  apply truthy_true in Hk. rewrite Hk. simpl negb. cbv iota.
  destruct (mapInstance st) eqn:Hmap; [|congruence]. rewrite Hr.
  eexists. split; [reflexivity|]. simpl.
  destruct (zoomToStations_fields [s] st) as (Hb & _). simpl in Hb. repeat split; auto.
Qed.

Lemma performSearch_none p rawKeyword st :
  Js.trim rawKeyword <> "" -> mapInstance st <> None ->
  Search.resolve p (Js.trim rawKeyword) = Search.RNone ->
  Search.performSearch p rawKeyword st =
    (false,
     setSearchHint (Search.noMatchHint p)
       (MapState.clearPreview (setSelectedSearchItem None st))).
Proof.
  intros Hk Hm Hr. unfold Search.performSearch.
  apply truthy_true in Hk. rewrite Hk. simpl negb. cbv iota.
  destruct (mapInstance st) eqn:Hmap; [|congruence]. now rewrite Hr.
Qed.

Lemma stationMatches_spec k e :
  Search.stationMatches k e = true <->
  exists n, In n (names e) /\ (n = k \/ Js.includes n k = true).
Proof.
  unfold Search.stationMatches. rewrite existsb_exists. split.
  - intros (n & Hin & Hor). exists n. split; [exact Hin|].
    apply orb_prop in Hor as [He|Hi]; [left; now apply String.eqb_eq|now right].
  - intros (n & Hin & Hor). exists n. split; [exact Hin|].
    destruct Hor as [->|Hi].
    + now rewrite String.eqb_refl.
    + rewrite Hi. apply orb_true_r.
Qed.

Lemma findStation_first index k e :
  first_with (Search.stationMatches k) index e ->
  Search.findStation index k = Some (station e).
Proof. intros Hf. unfold Search.findStation. now rewrite (find_first_with _ _ _ Hf). Qed.

Lemma findStation_none index k :
  none_with (Search.stationMatches k) index -> Search.findStation index k = None.
Proof. intros Hn. unfold Search.findStation. now rewrite (find_none_with _ _ Hn). Qed.

End ResolverFacts.

(** The names in the basin index that [LeafletMap] builds are not empty. *)
Section IndexFacts.
Context `{MapUtils}.

Lemma groups_set_keys key l groups :
  Js.truthy key = true ->
  Forall (fun k => Js.truthy k = true) (groups_keys groups) ->
  Forall (fun k => Js.truthy k = true) (groups_keys (groups_set key l groups)).
Proof.
  intros Hk. unfold groups_keys.
  induction groups as [|[k l0] rest IH]; simpl; intros Hg.
  - repeat constructor. exact Hk.
  - apply Forall_cons_1 in Hg as [Hk0 Hrest].
    destruct (String.eqb k key); simpl; constructor; auto.
Qed.

Lemma basinGroups_keys stations :
  Forall (fun k => Js.truthy k = true) (groups_keys (basinGroups stations)).
Proof.
  unfold basinGroups.
  assert (Hgen : forall groups,
             Forall (fun k => Js.truthy k = true) (groups_keys groups) ->
             Forall (fun k => Js.truthy k = true)
               (groups_keys (fold_left basinGroups_step stations groups))).
  { induction stations as [|s stations IH]; simpl; intros groups Hg; [exact Hg|].
    apply IH. unfold basinGroups_step.
    destruct (basin_name s) as [raw|]; [|exact Hg].
    destruct (Js.truthy (Js.trim raw)) eqn:Ht; simpl; [|exact Hg].
    now apply groups_set_keys. }
  apply Hgen. constructor.
Qed.

Lemma leaflet_basin_names stations :
  forallb (fun e => Js.truthy (name e))
    (Search.basinIndex (Search.leafletParams stations)) = true.
Proof.
  simpl. unfold basinSearchIndex. rewrite forallb_forall. intros e He.
  apply in_map_iff in He as (k & <- & Hk). simpl.
  pose proof (basinGroups_keys stations) as Hall.
  rewrite List.Forall_forall in Hall. now apply Hall.
Qed.
End IndexFacts.

(** C1. Once the keyword is not blank (and the map is there), the search
    goes through the whole basin index in three stages and opens the basin
    of the first entry whose normalised name equals the normalised keyword;
    if there is none, of the first entry whose normalised name starts with
    it; if there is none, of the first entry whose normalised name contains
    it. The station index decides the outcome only when no basin entry
    contains the keyword, so an entry that passes any stage wins over every
    station. The names of the index are those of basins, which are not
    empty. *)
Theorem basin_staged_search `{MapUtils} (p : Search.Params) (rawKeyword : string)
    (st : UiState) :
  Js.trim rawKeyword <> "" ->
  mapInstance st <> None ->
  forallb (fun e => Js.truthy (name e)) (Search.basinIndex p) = true ->
  let k := normalizeText (Some (Js.trim rawKeyword)) in
  let index := Search.basinIndex p in
  let exact := fun e => String.eqb (normalizedName e) k in
  let prefix := fun e => Js.startsWith (normalizedName e) k in
  let substring := fun e => Js.includes (normalizedName e) k in
  let opens := fun basin =>
    Search.resolve p (Js.trim rawKeyword) = Search.RBasin basin /\
    exists st', Search.performSearch p rawKeyword st = (true, st') /\
      basinTab st' =
        Some {| basinName := basin;
                stationCount := length (default [] (groups_get basin (Search.groups p))) |} /\
      activeTab st' = Some TabBasin /\
      selectedSearchItem st' = Some {| label := basin; item_type := Basin |} /\
      stationTab st' = stationTab st in
  (forall e, first_with exact index e -> opens (name e)) /\
  (none_with exact index -> forall e, first_with prefix index e -> opens (name e)) /\
  (none_with prefix index -> forall e, first_with substring index e -> opens (name e)) /\
  (none_with substring index ->
   Search.resolve p (Js.trim rawKeyword) =
     match Search.findStation (Search.stationIndex p) k with
     | Some s => Search.RStation s
     | None => Search.RNone
     end) /\
  (forall e, In e index -> substring e = true -> exists basin, opens basin).
Proof.
  intros Hk Hm Hwf k index exact prefix substring opens.
  assert (Hopen : forall b, Search.findBasin index k = Some b -> opens b).
  { intros b Hf. pose proof (resolve_basin p _ b Hf Hwf) as Hr. split; [exact Hr|].
    destruct (performSearch_basin p rawKeyword st b Hk Hm Hr)
      as (st' & Hp & Hb & Ha & Hi & Hs & _).
    exists st'. auto. }
  split; [|split; [|split; [|split]]].
  - intros e He. apply Hopen. now apply findBasin_exact.
  - intros Hn e He. apply Hopen. now apply findBasin_prefix.
  - intros Hn e He. apply Hopen. now apply findBasin_substring.
  - intros Hn. apply resolve_no_basin. now apply findBasin_none.
  - intros e Hin Hsub. destruct (findBasin_some index k e Hin Hsub) as [b Hb].
    exists b. now apply Hopen.
Qed.

(** The index [LeafletMap] builds from the sample stations holds the basins
    Tone and Okitama. No name equals or starts with "kita"; "okitama"
    contains it, and that basin is opened although two stations match
    too. *)
Lemma basin_staged_search_witness :
  let p := @Search.leafletParams Host.mapUtils Sample.stations in
  @Search.resolve Host.mapUtils p "kita" = Search.RBasin "Okitama" /\
  exists st',
    @Search.performSearch Host.mapUtils p " kita " (Sample.initialUi (Some [])) = (true, st') /\
    basinTab st' = Some {| basinName := "Okitama"; stationCount := 1 |} /\
    activeTab st' = Some TabBasin.
Proof.
  intros p.
  destruct (@basin_staged_search Host.mapUtils p " kita " (Sample.initialUi (Some [])))
    as (_ & _ & Hsub & _).
  - vm_compute. discriminate.
  - discriminate.
  - reflexivity.
  - destruct (Hsub) with (e := {| name := "Okitama"; normalizedName := "okitama" |})
      as (Hr & st' & Hp & Hb & Ha & _).
    + apply none_with_forallb. reflexivity.
    + exists [{| name := "Tone"; normalizedName := "tone" |}], [].
      repeat split. repeat constructor.
    + split; [exact Hr|]. exists st'. repeat split; assumption.
Defined.

(** The basin Tone is opened for "Tone" although the second name of a
    station, "Tonegawa-kami", contains the keyword. *)
Example resolver_priority :
  @Search.resolve Host.mapUtils (@Search.leafletParams Host.mapUtils Sample.stations) "Tone"
  = Search.RBasin "Tone".
Proof. reflexivity. Qed.

(** C2. When no basin entry contains the keyword, the search commits the
    station of the first entry of the station index one of whose normalised
    names equals or contains the normalised keyword. One pass decides: an
    entry that merely contains the keyword is taken even when a later entry
    has a name equal to it. When no entry passes, the search fails with the
    no-match hint. *)
Theorem station_single_pass `{MapUtils} (p : Search.Params) (rawKeyword : string)
    (st : UiState) :
  Js.trim rawKeyword <> "" ->
  mapInstance st <> None ->
  none_with
    (fun e => Js.includes (normalizedName e) (normalizeText (Some (Js.trim rawKeyword))))
    (Search.basinIndex p) ->
  let k := normalizeText (Some (Js.trim rawKeyword)) in
  let index := Search.stationIndex p in
  let commits := fun s =>
    Search.resolve p (Js.trim rawKeyword) = Search.RStation s /\
    exists st', Search.performSearch p rawKeyword st = (true, st') /\
      stationTab st' = Some s /\ activeTab st' = Some TabStation /\
      selectedStationId st' = Some (station_id s) /\
      basinTab st' = basinTab st in
  (forall e, Search.stationMatches k e = true <->
             exists n, In n (names e) /\ (n = k \/ Js.includes n k = true)) /\
  (forall e, first_with (Search.stationMatches k) index e -> commits (station e)) /\
  (forall l1 e1 l2 e2 l3 n,
     index = l1 ++ e1 :: l2 ++ e2 :: l3 ->
     none_with (Search.stationMatches k) l1 ->
     In n (names e1) -> n <> k -> Js.includes n k = true ->
     In k (names e2) ->
     commits (station e1)) /\
  (none_with (Search.stationMatches k) index ->
   Search.resolve p (Js.trim rawKeyword) = Search.RNone /\
   Search.performSearch p rawKeyword st =
     (false,
      setSearchHint (Search.noMatchHint p)
        (MapState.clearPreview (setSelectedSearchItem None st)))).
Proof.
  intros Hk Hm Hnb k index commits.
  pose proof (resolve_no_basin p _ (findBasin_none _ _ Hnb)) as Hres.
  fold k in Hres. fold index in Hres.
  assert (Hfirst : forall e, first_with (Search.stationMatches k) index e ->
                             commits (station e)).
  { intros e He. rewrite (findStation_first _ _ _ He) in Hres. split; [exact Hres|].
    destruct (performSearch_station p rawKeyword st _ Hk Hm Hres)
      as (st' & Hp & Hs & Ha & Hi & Hb & _).
    exists st'. auto. }
  split; [|split; [|split]].
  - intros e. apply stationMatches_spec.
  - exact Hfirst.
  - intros l1 e1 l2 e2 l3 n Hidx Hl1 Hin Hne Hinc _. apply Hfirst.
    exists l1, (l2 ++ e2 :: l3). repeat split; [exact Hidx| |exact Hl1].
    apply stationMatches_spec. exists n. auto.
  - intros Hn. rewrite (findStation_none _ _ Hn) in Hres. split; [exact Hres|].
    now apply performSearch_none.
Qed.

(** With Tone as the only basin, "kita" goes to the stations. The entry of
    [kitaura], whose name only contains the keyword, precedes that of
    [kita], whose first name is the keyword: [kitaura] is committed. *)
Lemma station_single_pass_witness :
  let p := @Search.leafletParams Host.mapUtils Sample.stationsOneBasin in
  @Search.resolve Host.mapUtils p "kita" = Search.RStation Sample.kitaura /\
  exists st',
    @Search.performSearch Host.mapUtils p "kita" (Sample.initialUi (Some [])) = (true, st') /\
    stationTab st' = Some Sample.kitaura /\ activeTab st' = Some TabStation.
Proof.
  intros p.
  destruct (@station_single_pass Host.mapUtils p "kita" (Sample.initialUi (Some [])))
    as (_ & _ & Hshadow & _).
  - vm_compute. discriminate.
  - discriminate.
  - apply none_with_forallb. reflexivity.
  - destruct (Hshadow
                [{| station := Sample.maebashi; names := ["maebashi"; "tonegawa-kami"] |}]
                {| station := Sample.kitaura; names := ["kitaura-east"] |}
                []
                {| station := Sample.kita; names := ["kita"; "kitaura-east"] |}
                []
                "kitaura-east")
      as (Hr & st' & Hp & Hs & Ha & _).
    + reflexivity.
    + apply none_with_forallb. reflexivity.
    + left. reflexivity.
    + discriminate.
    + reflexivity.
    + left. reflexivity.
    + split; [exact Hr|]. exists st'. repeat split; assumption.
Defined.

(** C8. A blank keyword, and likewise a map that is not ready, makes
    [performSearch] answer [false] and leave a hint that is neither empty
    nor the no-match hint, and that is the hint shown. The committed
    selection stays as it was: the station tab, the basin tab, the active
    tab, the selected station, and also the search text and the map. Only
    the preview and the selected search item are reset. *)
Theorem input_error_keeps_selection `{MapUtils} `{Runtime} (p : Search.Params)
    (rawKeyword : string) (st : UiState) :
  Js.trim rawKeyword = "" \/ mapInstance st = None ->
  Search.noMatchHint p = Search.leafletNoMatchHint ->
  exists st',
    Search.performSearch p rawKeyword st = (false, st') /\
    searchHint st' =
      (if Js.truthy (Js.trim rawKeyword) then Search.mapNotReadyHint
       else Search.emptyKeywordHint) /\
    searchHint st' <> "" /\
    searchHint st' <> Search.noMatchHint p /\
    Search.searchHintText p st' = searchHint st' /\
    stationTab st' = stationTab st /\
    basinTab st' = basinTab st /\
    activeTab st' = activeTab st /\
    selectedStationId st' = selectedStationId st /\
    searchText st' = searchText st /\
    mapInstance st' = mapInstance st /\
    previewStationId st' = None /\
    selectedSearchItem st' = None.
Proof.
  intros Hin Hhint. unfold Search.performSearch.
  destruct (Js.truthy (Js.trim rawKeyword)) eqn:Ht; simpl negb; cbv iota.
  - destruct Hin as [He|Hmap]; [rewrite He in Ht; discriminate|].
    rewrite Hmap. eexists. split; [reflexivity|].
    unfold Search.searchHintText. simpl. rewrite Hhint.
    repeat split; try reflexivity; try assumption; discriminate.
  - eexists. split; [reflexivity|].
    unfold Search.searchHintText. simpl. rewrite Hhint.
    repeat split; try reflexivity; discriminate.
Qed.

(** With a station tab and a basin tab open, a search for blanks changes
    neither of them. *)
Lemma input_error_keeps_selection_witness :
  exists st',
    @Search.performSearch Host.mapUtils
      (@Search.leafletParams Host.mapUtils Sample.stations) "   " Sample.bothTabs = (false, st') /\
    searchHint st' = Search.emptyKeywordHint /\
    stationTab st' = Some Sample.maebashi /\
    basinTab st' = Some {| basinName := "Tone"; stationCount := 2 |} /\
    activeTab st' = Some TabStation /\
    previewStationId st' = None /\
    selectedSearchItem st' = None.
Proof.
  destruct (@input_error_keeps_selection Host.mapUtils Host.runtime
              (@Search.leafletParams Host.mapUtils Sample.stations) "   " Sample.bothTabs)
    as (st' & Hp & Hh & _ & _ & _ & Hs & Hb & Ha & _ & _ & _ & Hpr & Hsel).
  - left. reflexivity.
  - reflexivity.
  - exists st'. repeat split; assumption.
Defined.

(** * Monthly frequency *)

Section HistogramFacts.
Context `{Runtime}.

Lemma initialMonthCounts_months : map month Events.initialMonthCounts = seq 1 12.
Proof. reflexivity. Qed.

Lemma totalCount_insert (mf : list MonthlyFrequencyPoint) (m : nat)
    (p p' : MonthlyFrequencyPoint) :
  mf !! m = Some p ->
  totalCount (<[m := p']> mf) + count p = totalCount mf + count p'.
Proof.
  revert m. induction mf as [|q mf IH]; intros [|m] Hm; simpl in *; try discriminate.
  - injection Hm as ->. lia.
  - specialize (IH m Hm). lia.
Qed.

Lemma bumpMonth_spec (mf mf' : list MonthlyFrequencyPoint) (m : nat) :
  Events.bumpMonth mf m = Some mf' ->
  length mf' = length mf /\ map month mf' = map month mf /\
  totalCount mf' = S (totalCount mf) /\
  forall i, countAt i mf' = countAt i mf + (if Nat.eqb m i then 1 else 0).
Proof.
  unfold Events.bumpMonth. destruct (mf !! m) as [p|] eqn:Hm; [|discriminate].
  intros [= <-]. split; [apply length_insert|]. split; [|split].
  - change (map month) with (fmap (M := list) month).
    rewrite list_fmap_insert. simpl. apply list_insert_id.
    now rewrite list_lookup_fmap, Hm.
  - pose proof (totalCount_insert mf m p
                  {| month := month p; count := count p + 1 |} Hm) as Ht.
    simpl in Ht. lia.
  - intros i. unfold countAt. destruct (Nat.eqb_spec m i) as [<-|Hne].
    + rewrite list_lookup_insert_eq by (now apply lookup_lt_Some in Hm).
      rewrite Hm. simpl. reflexivity.
    + rewrite list_lookup_insert_ne by exact Hne. lia.
Qed.

Lemma bumpMonth_total (mf : list MonthlyFrequencyPoint) (m : nat) :
  m < length mf -> exists mf', Events.bumpMonth mf m = Some mf'.
Proof.
  intros Hlt. unfold Events.bumpMonth.
  destruct (lookup_lt_is_Some_2 mf m Hlt) as [p ->]. eauto.
Qed.

Lemma countMonths_spec (series : list StationMatchedPoint) :
  (forall s t, Date_parse s = Some t -> Date_getMonth t < 12) ->
  forall mf, length mf = 12 ->
  exists mf', Events.countMonths series mf = Some mf' /\
    length mf' = 12 /\ map month mf' = map month mf /\
    totalCount mf' = totalCount mf + length (List.filter parseable series) /\
    forall i, countAt i mf' = countAt i mf + length (List.filter (inMonth i) series).
Proof.
  intros Hrange. induction series as [|item rest IH]; intros mf Hlen.
  - exists mf. simpl. repeat split; auto.
  - cbn [Events.countMonths List.filter]. unfold parseable, inMonth.
    destruct (Date_parse (peak_time item)) as [t|] eqn:Hp.
    + destruct (bumpMonth_total mf (Date_getMonth t)) as [mf1 Hb].
      { rewrite Hlen. eapply Hrange, Hp. }
      rewrite Hb. destruct (bumpMonth_spec _ _ _ Hb) as (Hl1 & Hm1 & Ht1 & Hc1).
      destruct (IH mf1) as (mf' & Hrun & Hl' & Hm' & Ht' & Hc'); [congruence|].
      exists mf'. split; [exact Hrun|]. split; [exact Hl'|]. split; [congruence|].
      split.
      * rewrite Ht', Ht1. fold (parseable). simpl. lia.
      * intros i. rewrite Hc', Hc1. fold (inMonth i).
        destruct (Nat.eqb (Date_getMonth t) i); simpl; lia.
    + destruct (IH mf Hlen) as (mf' & Hrun & Hl' & Hm' & Ht' & Hc').
      exists mf'. split; [exact Hrun|]. split; [exact Hl'|]. split; [exact Hm'|].
      split.
      * rewrite Ht'. fold (parseable). reflexivity.
      * intros i. rewrite Hc'. fold (inMonth i). reflexivity.
Qed.
End HistogramFacts.

(** C3. For every series, the empty one included, the monthly frequency is
    computed without an error and has exactly 12 entries, for the months 1
    to 12 in this order. Its counts are natural numbers; they add up to the
    number of points whose peak timestamp parses, each bucket counting the
    parsed points of its month whatever their year; points that do not
    parse are skipped. The empty series gives 12 zero counts. The host is
    one whose calendar month of a parsed timestamp lies between 0 and 11. *)
Theorem monthly_frequency_complete `{Runtime} (series : list StationMatchedPoint) :
  (forall s t, Date_parse s = Some t -> Date_getMonth t < 12) ->
  exists mf,
    Events.monthlyFrequencyOf series = Some mf /\
    length mf = 12 /\
    map month mf = seq 1 12 /\
    totalCount mf = length (List.filter parseable series) /\
    (forall m, countAt m mf = length (List.filter (inMonth m) series)) /\
    (series = [] -> map count mf = repeat 0 12).
Proof.
  intros Hrange. unfold Events.monthlyFrequencyOf.
  destruct (countMonths_spec series Hrange Events.initialMonthCounts eq_refl)
    as (mf & Hrun & Hlen & Hmonths & Htotal & Hcount).
  exists mf. split; [exact Hrun|]. split; [exact Hlen|]. split; [exact Hmonths|].
  split; [exact Htotal|]. split.
  - intros m. rewrite Hcount. unfold countAt, Events.initialMonthCounts.
    destruct (lt_dec m 12) as [Hlt|Hge].
    + do 12 (destruct m as [|m]; [reflexivity|]). lia.
    + rewrite lookup_ge_None_2 by (simpl; lia). reflexivity.
  - intros ->. simpl in Hrun. injection Hrun as <-. reflexivity.
Qed.

Lemma host_month_range (s : string) (t : Z) :
  @Date_parse Host.runtime s = Some t -> @Date_getMonth Host.runtime t < 12.
Proof.
  intros _. simpl. unfold Host.month_of_days.
  match goal with |- Z.to_nat (?x mod 12) < 12 =>
    pose proof (Z.mod_pos_bound x 12 eq_refl) end.
  lia.
Qed.

(** Of the four sample points three parse: two fall in October, of
    different years, and one in January. *)
Lemma monthly_frequency_complete_witness :
  exists mf,
    @Events.monthlyFrequencyOf Host.runtime Sample.series = Some mf /\
    length mf = 12 /\
    map month mf = seq 1 12 /\
    totalCount mf = 3 /\
    map count mf = [1; 0; 0; 0; 0; 0; 0; 0; 0; 2; 0; 0].
Proof.
  destruct (@monthly_frequency_complete Host.runtime Sample.series host_month_range)
    as (mf & Hrun & Hlen & Hmonths & Htotal & _).
  exists mf. repeat split; try assumption.
  vm_compute in Hrun. injection Hrun as <-. reflexivity.
Defined.

(** * Peak distribution *)

Section DistributionFacts.

Lemma byPeakDescending_finite (a b : StationMatchedPoint) :
  finite a -> finite b ->
  Events.byPeakDescending a b = (peakQ b ?= peakQ a)%Q.
Proof.
  unfold finite, Events.finitePeak, Events.byPeakDescending, peakQ.
  destruct (peak_value a) as [qa| | |], (peak_value b) as [qb| | |];
    simpl; try discriminate.
  intros _ _. unfold Qcompare, Qminus, Qplus, Qopp. simpl.
  rewrite Z.mul_1_r. rewrite (Z.compare_sub (Qnum qb * QDen qa)).
  f_equal. lia.
Qed.

Lemma before_finite (a b : StationMatchedPoint) :
  finite a -> finite b ->
  (before Events.byPeakDescending a b <-> (peakQ b <= peakQ a)%Q).
Proof.
  intros Ha Hb. unfold before. rewrite (byPeakDescending_finite a b Ha Hb).
  symmetry. apply Qle_alt.
Qed.

Lemma byPeakDescending_consistent : consistent_on finite Events.byPeakDescending.
Proof.
  split.
  - intros a b Ha Hb Hgt. apply (before_finite b a Hb Ha).
    rewrite (byPeakDescending_finite a b Ha Hb) in Hgt.
    apply Qgt_alt in Hgt. now apply Qlt_le_weak.
  - intros a b c Ha Hb Hc Hab Hbc.
    apply (before_finite a b Ha Hb) in Hab. apply (before_finite b c Hb Hc) in Hbc.
    apply (before_finite a c Ha Hc). now apply Qle_trans with (peakQ b).
Qed.

Lemma hasPeak_equal (v : Q) (a b : StationMatchedPoint) :
  finite a -> finite b -> hasPeak v a = true -> hasPeak v b = true ->
  Events.byPeakDescending a b <> Gt.
Proof.
  intros Ha Hb Hva Hvb. apply (before_finite a b Ha Hb).
  apply Qeq_bool_iff in Hva, Hvb. rewrite Hva, Hvb. apply Qle_refl.
Qed.

Lemma filter_finite (series : list StationMatchedPoint) :
  Forall finite (List.filter Events.finitePeak series).
Proof. apply List.Forall_forall. intros x Hx. now apply filter_In in Hx. Qed.

Lemma sorted_on_finite (l : list StationMatchedPoint) :
  Forall finite l -> StronglySorted (before Events.byPeakDescending) l ->
  StronglySorted (fun a b => (peakQ b <= peakQ a)%Q) l.
Proof.
  intros Hl Hs. induction Hs as [|x l Hs IH Hx]; [constructor|].
  apply Forall_cons_1 in Hl as [Hfx Hfl]. constructor; [now apply IH|].
  rewrite List.Forall_forall in Hx, Hfl |- *. intros y Hy.
  apply (before_finite x y Hfx); auto.
Qed.

Lemma imap_rank (l : list StationMatchedPoint) (k : nat) :
  map rank (imap (fun i => Events.rankPoint (k + i)) l) = seq (k + 1) (length l) /\
  map dist_peak_value (imap (fun i => Events.rankPoint (k + i)) l) = map peak_value l.
Proof.
  revert k. induction l as [|x l IH]; intros k; [split; reflexivity|].
  rewrite imap_cons. cbn [map length seq Events.rankPoint rank dist_peak_value].
  destruct (IH (S k)) as [IHr IHv].
  rewrite (imap_ext _ (fun i => Events.rankPoint (S k + i))); cycle 1.
  { intros i y _. simpl. f_equal. lia. }
  change (fmap ?f ?l) with (map f l) in *.
  rewrite Nat.add_0_r. rewrite IHr, IHv.
  split; reflexivity.
Qed.

Lemma imap_rankPoint (l : list StationMatchedPoint) :
  map rank (imap Events.rankPoint l) = seq 1 (length l) /\
  map dist_peak_value (imap Events.rankPoint l) = map peak_value l.
Proof. exact (imap_rank l 0). Qed.

Lemma isNumber_spec (item : StationMatchedPoint) :
  isNumber item = true <-> exists q, peak_value item = Js.Fin q.
Proof.
  unfold isNumber. destruct (peak_value item); split;
    try discriminate; eauto; intros [q Hq]; discriminate.
Qed.

Lemma finitePeak_isNumber (item : StationMatchedPoint) :
  Events.finitePeak item = isNumber item.
Proof.
  unfold Events.finitePeak, isNumber, Js.isFinite. destruct (peak_value item); reflexivity.
Qed.

End DistributionFacts.

(** C4. For every series, the distribution is obtained from the points
    whose peak value is a number: a point of the series is kept exactly when
    its peak is neither NaN nor an infinity, whatever the number is. The
    points kept are rearranged in descending order of peak value, the points
    of one peak value keeping the order they have in the series, and the
    point at position [i] (from 0) gets rank [i + 1], so that the ranks run
    from 1 to the number of points kept. Peaks 3, 7, 7, 1 give (1,7), (2,7),
    (3,3), (4,1) with the two sevens in input order, a point without a
    finite peak is left out, and the empty series gives the empty list. *)
Theorem peak_distribution_ranking :
  (forall series : list StationMatchedPoint,
     let kept := withNumberPeak series in
     let sorted := Events.sortedFinite series in
     (forall item, In item sorted <->
                   In item series /\ exists q, peak_value item = Js.Fin q) /\
     (forall item, In item series ->
                   peak_value item = Js.NaN \/ peak_value item = Js.PosInf \/
                   peak_value item = Js.NegInf ->
                   ~ In item sorted) /\
     Permutation sorted kept /\
     StronglySorted (fun a b => (peakQ b <= peakQ a)%Q) sorted /\
     (forall v, List.filter (hasPeak v) sorted = List.filter (hasPeak v) kept) /\
     length (Events.peakDistributionOf series) = length kept /\
     map rank (Events.peakDistributionOf series) = seq 1 (length kept) /\
     map dist_peak_value (Events.peakDistributionOf series) = map peak_value sorted) /\
  map id (Events.sortedFinite Sample.series) = [2; 3; 1; 4]%Z /\
  Events.peakDistributionOf Sample.series =
    [ {| rank := 1; dist_peak_value := Js.Fin 7 |};
      {| rank := 2; dist_peak_value := Js.Fin 7 |};
      {| rank := 3; dist_peak_value := Js.Fin 3 |};
      {| rank := 4; dist_peak_value := Js.Fin 1 |} ] /\
  Events.peakDistributionOf Sample.seriesWithGap = Events.peakDistributionOf Sample.series /\
  Events.peakDistributionOf [] = [].
Proof.
  split; [|repeat split; reflexivity].
  intros series kept sorted.
  assert (Hkept : kept = List.filter Events.finitePeak series)
    by (apply List.filter_ext; intros item; symmetry; apply finitePeak_isNumber).
  pose proof (filter_finite series) as Hfin. rewrite <- Hkept in Hfin.
  assert (Hperm : Permutation sorted kept)
    by (rewrite Hkept; apply sort_perm).
  assert (Hfs : Forall finite sorted)
    by (apply sort_Forall; rewrite <- Hkept; exact Hfin).
  assert (Hin : forall item, In item sorted <->
                  In item series /\ exists q, peak_value item = Js.Fin q).
  { intros item. split.
    - intros Hitem. apply (Permutation_in _ Hperm) in Hitem.
      apply filter_In in Hitem as [Hs Hn]. split; [exact Hs|].
      now apply isNumber_spec.
    - intros [Hs Hq]. apply (Permutation_in _ (Permutation_sym Hperm)).
      apply filter_In. split; [exact Hs|]. now apply isNumber_spec. }
  split; [exact Hin|]. split.
  { intros item _ Hbad Hitem. apply Hin in Hitem as [_ [q Hq]].
    rewrite Hq in Hbad. destruct Hbad as [|[|]]; discriminate. }
  clear Hin. clearbody kept. subst kept.
  split; [exact Hperm|]. split; [|split; [|split; [|split]]].
  - apply sorted_on_finite; [exact Hfs|].
    apply (sort_sorted _ finite byPeakDescending_consistent). exact Hfin.
  - intros v. apply (sort_class _ finite (hasPeak v)); [|exact Hfin].
    intros a b. apply hasPeak_equal.
  - unfold Events.peakDistributionOf. rewrite length_imap. fold sorted.
    now apply Permutation_length.
  - unfold Events.peakDistributionOf. fold sorted.
    destruct (imap_rankPoint sorted) as [Hr _]. rewrite Hr.
    f_equal. now apply Permutation_length.
  - unfold Events.peakDistributionOf. fold sorted.
    destruct (imap_rankPoint sorted) as [_ Hv]. exact Hv.
Qed.

(** * The series is not modified *)

Section StoreFacts.

Lemma store_peakDistribution_spec (s : Store.store) (ms : Store.ref)
    (series : list StationMatchedPoint) :
  s !! ms = Some series ->
  Store.peakDistribution ms s =
    Some (Events.peakDistributionOf series,
          s ++ [Events.sortedFinite series]).
Proof.
  intros Hms. unfold Store.peakDistribution, Store.filter, Store.alloc.
  rewrite Hms. simpl. unfold Store.sort, Store.map_rank, Store.ref, Store.store in *.
  rewrite lookup_app_r by lia. rewrite Nat.sub_diag. simpl.
  unfold Store.map_rank.
  rewrite list_lookup_insert_eq by (rewrite length_app; simpl; lia). simpl.
  unfold Events.peakDistributionOf, Events.sortedFinite.
  do 2 f_equal.
  rewrite insert_app_r_alt by lia. rewrite Nat.sub_diag. reflexivity.
Qed.

Lemma store_derive_spec (n : nat) (s : Store.store) (ms : Store.ref)
    (series : list StationMatchedPoint) :
  s !! ms = Some series ->
  exists fresh, Store.derive n ms s = Some (s ++ fresh).
Proof.
  revert s. induction n as [|n IH]; intros s Hms.
  - exists []. simpl. now rewrite app_nil_r.
  - cbn [Store.derive]. rewrite (store_peakDistribution_spec s ms series Hms). simpl.
    destruct (IH (s ++ [Events.sortedFinite series])) as [fresh Hrun].
    { now apply lookup_app_l_Some. }
    exists ([Events.sortedFinite series] ++ fresh). rewrite Hrun.
    now rewrite <- app_assoc.
Qed.

End StoreFacts.

(** C10. Deriving the distribution from the series held under a reference
    gives the distribution of that series and leaves every array of the
    store as it was, the series first of all: [filter] makes a copy and
    [sort] works on the copy. [chartPoints], which is the same reference,
    still reads the points in their fetched order, and this stays so however
    many times the distribution is derived. *)
Theorem peak_distribution_leaves_series (s : Store.store) (matchedSeries : Store.ref)
    (series : list StationMatchedPoint) :
  s !! matchedSeries = Some series ->
  (exists s',
     Store.peakDistribution matchedSeries s = Some (Events.peakDistributionOf series, s') /\
     s' !! matchedSeries = Some series /\
     s' !! Store.chartPoints matchedSeries = Some series /\
     (forall r a, s !! r = Some a -> s' !! r = Some a)) /\
  (forall n, exists sn,
     Store.derive n matchedSeries s = Some sn /\
     sn !! matchedSeries = Some series /\
     sn !! Store.chartPoints matchedSeries = Some series /\
     (forall r a, s !! r = Some a -> sn !! r = Some a)).
Proof.
  intros Hms. split.
  - exists (s ++ [Events.sortedFinite series]).
    split; [now apply store_peakDistribution_spec|].
    split; [now apply lookup_app_l_Some|]. split; [now apply lookup_app_l_Some|].
    intros r a Hr. now apply lookup_app_l_Some.
  - intros n. destruct (store_derive_spec n s matchedSeries series Hms) as [fresh Hrun].
    exists (s ++ fresh). split; [exact Hrun|].
    split; [now apply lookup_app_l_Some|]. split; [now apply lookup_app_l_Some|].
    intros r a Hr. now apply lookup_app_l_Some.
Qed.

(** The sample series sits at reference 0 of a store; after three
    derivations it is read back unchanged. *)
Lemma peak_distribution_leaves_series_witness :
  (exists s',
     Store.peakDistribution 0 [Sample.series] =
       Some (Events.peakDistributionOf Sample.series, s') /\
     s' !! 0 = Some Sample.series) /\
  (exists s3, Store.derive 3 0 [Sample.series] = Some s3 /\ s3 !! 0 = Some Sample.series).
Proof.
  destruct (peak_distribution_leaves_series [Sample.series] 0 Sample.series eq_refl)
    as [(s' & Hrun & Hms & _) Hn].
  split.
  - exists s'. split; assumption.
  - destruct (Hn 3) as (s3 & Hrun3 & Hms3 & _). exists s3. split; assumption.
Defined.

(** The store does tell an update in place: sorting the series itself
    reorders what [chartPoints] reads. *)
Example sort_in_place_reorders :
  exists s', Store.sortInPlace 0 [Sample.series] = Some s' /\
             map id <$> s' !! Store.chartPoints 0 = Some [2; 3; 1; 4]%Z.
Proof. eexists. split; reflexivity. Qed.

(** * Ranged request *)

Section RequestFacts.
Context `{Runtime}.

Lemma toDateOnly_truthy (v : option string) (d : string) :
  Events.toDateOnly v = Some d -> Js.truthy d = true.
Proof.
  unfold Events.toDateOnly. destruct v as [s|]; [|discriminate].
  destruct (Js.truthy s) eqn:Hs; [|discriminate].
  intros [= <-]. now apply slice0_truthy.
Qed.

Lemma or_else_truthy (a : string) (b : option string) (d : string) :
  (forall x, b = Some x -> Js.truthy x = true) ->
  Js.or_else a b = Some d -> Js.truthy d = true.
Proof.
  unfold Js.or_else. intros Hb. destruct (Js.truthy a) eqn:Ha.
  - now intros [= <-].
  - apply Hb.
Qed.

Lemma rangeStartDate_truthy (r : Events.Render) (rs : string) :
  Events.rangeStartDate r = Some rs -> Js.truthy rs = true.
Proof. apply or_else_truthy. intros x. apply toDateOnly_truthy. Qed.

Lemma rangeEndDate_truthy (r : Events.Render) (re : string) :
  Events.rangeEndDate r = Some re -> Js.truthy re = true.
Proof. apply or_else_truthy. intros x. apply toDateOnly_truthy. Qed.

Lemma eventsBasePath_truthy (r : Events.Render) (base : string) :
  Events.eventsBasePath r = Some base -> Js.truthy base = true.
Proof.
  unfold Events.eventsBasePath. destruct (Events.currentStation r).
  - now intros [= <-].
  - destruct (Events.currentBasin r) as [b|]; [|discriminate].
    destruct (Js.truthy b); [|discriminate]. now intros [= <-].
Qed.

Lemma boundChanged_spec (bound : option string) (v : string) :
  (forall m, bound = Some m -> Js.truthy m = true) ->
  Js.truthy v = true ->
  (Events.boundChanged bound (Some v) = true <-> exists m, bound = Some m /\ v <> m).
Proof.
  intros Hb Hv. unfold Events.boundChanged. split.
  - destruct bound as [m|]; simpl; [|discriminate].
    destruct (Js.truthy m); simpl; [|discriminate]. rewrite Hv. simpl.
    intros Hne. exists m. split; [reflexivity|].
    apply negb_true_iff, bool_decide_eq_false in Hne. congruence.
  - intros (m & -> & Hne). simpl. rewrite Hv, (Hb m eq_refl). simpl.
    apply negb_true_iff, bool_decide_eq_false. congruence.
Qed.

Lemma hasDateFilterChanged_spec (r : Events.Render) (rs re : string) :
  Events.rangeStartDate r = Some rs ->
  Events.rangeEndDate r = Some re ->
  (Events.hasDateFilterChanged r = true <->
   (exists m, Events.minPeakDate r = Some m /\ rs <> m) \/
   (exists m, Events.maxPeakDate r = Some m /\ re <> m)).
Proof.
  intros Hrs Hre. unfold Events.hasDateFilterChanged. rewrite Hrs, Hre.
  rewrite orb_true_iff.
  rewrite (boundChanged_spec (Events.minPeakDate r) rs);
    [|intros m; apply toDateOnly_truthy|now apply (rangeStartDate_truthy r)].
  rewrite (boundChanged_spec (Events.maxPeakDate r) re);
    [|intros m; apply toDateOnly_truthy|now apply (rangeEndDate_truthy r)].
  reflexivity.
Qed.

Lemma shouldFetchRangeData_spec (r : Events.Render) (rs re : string) :
  Events.rangeStartDate r = Some rs ->
  Events.rangeEndDate r = Some re ->
  (Events.shouldFetchRangeData r = true <->
   is_Some (Events.selectedPreset r) \/
   (exists m, Events.minPeakDate r = Some m /\ rs <> m) \/
   (exists m, Events.maxPeakDate r = Some m /\ re <> m)).
Proof.
  intros Hrs Hre. unfold Events.shouldFetchRangeData.
  rewrite orb_true_iff, bool_decide_eq_true.
  now rewrite (hasDateFilterChanged_spec r rs re Hrs Hre).
Qed.

(** The request that is issued, when one is. *)
Lemma rangeRequestUrl_eq (r : Events.Render) (base rs re : string) :
  Events.eventsBasePath r = Some base ->
  Events.rangeStartDate r = Some rs ->
  Events.rangeEndDate r = Some re ->
  Events.rangeRequestUrl r =
    if Events.shouldFetchRangeData r then
      Some {| Events.path := base;
              Events.query :=
                [("includeRecent", "0"); ("peakStart", rs); ("peakEnd", re)] ++
                match Events.selectedPreset r with
                | Some _ => [("includeMatchedSeries", "1")]
                | None => []
                end |}
    else None.
Proof.
  intros Hb Hrs Hre. unfold Events.rangeRequestUrl. rewrite Hb, Hrs, Hre.
  rewrite (eventsBasePath_truthy r base Hb), (rangeStartDate_truthy r rs Hrs),
    (rangeEndDate_truthy r re Hre). simpl.
  destruct (Events.shouldFetchRangeData r); simpl; [|reflexivity].
  destruct (Events.selectedPreset r); reflexivity.
Qed.

End RequestFacts.

(** C7, as the code has it. With the base path and both effective bounds
    known, a ranged request is issued if and only if a chart preset is
    active or an effective bound differs from the bound of the default span
    on its side, that bound being known; in particular, when the default
    span is known, if and only if a preset is active or the effective range
    is not the default span. The request carries the two effective bounds,
    and [includeMatchedSeries=1] exactly when a preset is active. *)
Theorem range_request_condition `{Runtime} (r : Events.Render) (base rs re : string) :
  Events.eventsBasePath r = Some base ->
  Events.rangeStartDate r = Some rs ->
  Events.rangeEndDate r = Some re ->
  (Events.rangeRequestUrl r <> None <->
   is_Some (Events.selectedPreset r) \/
   (exists m, Events.minPeakDate r = Some m /\ rs <> m) \/
   (exists m, Events.maxPeakDate r = Some m /\ re <> m)) /\
  (forall mn mx,
     Events.minPeakDate r = Some mn -> Events.maxPeakDate r = Some mx ->
     (Events.rangeRequestUrl r <> None <->
      is_Some (Events.selectedPreset r) \/ (rs, re) <> (mn, mx))) /\
  (forall u,
     Events.rangeRequestUrl r = Some u ->
     Events.path u = base /\
     Events.params_get "includeRecent" (Events.query u) = Some "0" /\
     Events.params_get "peakStart" (Events.query u) = Some rs /\
     Events.params_get "peakEnd" (Events.query u) = Some re /\
     (Events.params_get "includeMatchedSeries" (Events.query u) = Some "1" <->
      is_Some (Events.selectedPreset r)) /\
     (Events.selectedPreset r = None ->
      Events.params_get "includeMatchedSeries" (Events.query u) = None)).
Proof.
  intros Hb Hrs Hre.
  pose proof (rangeRequestUrl_eq r base rs re Hb Hrs Hre) as Hurl.
  pose proof (shouldFetchRangeData_spec r rs re Hrs Hre) as Hshould.
  assert (Hiff : Events.rangeRequestUrl r <> None <-> Events.shouldFetchRangeData r = true).
  { rewrite Hurl. destruct (Events.shouldFetchRangeData r); split; congruence. }
  split; [|split].
  - now rewrite Hiff.
  - intros mn mx Hmn Hmx. rewrite Hiff, Hshould, Hmn, Hmx. split.
    + intros [Hp|[(m & [= <-] & Hne)|(m & [= <-] & Hne)]]; [now left|right; congruence..].
    + intros [Hp|Hne]; [now left|right].
      destruct (decide (rs = mn)) as [->|Hs]; [|left; eauto].
      right. exists mx. split; [reflexivity|]. congruence.
  - intros u Hu. rewrite Hurl in Hu.
    destruct (Events.shouldFetchRangeData r); [|discriminate].
    injection Hu as <-. simpl.
    destruct (Events.selectedPreset r) as [preset|]; simpl; repeat split; auto;
      try discriminate.
    + intros [x [=]].
Qed.

(** The sample selection restricted to the year 2010, no chart chosen: the
    range is not the default span, so a request goes out, without the
    series. *)
Lemma range_request_condition_witness :
  exists u,
    @Events.rangeRequestUrl Host.runtime Sample.year2010 = Some u /\
    Events.path u = "/api/stations/101/events" /\
    Events.params_get "peakStart" (Events.query u) = Some "2010-01-01" /\
    Events.params_get "peakEnd" (Events.query u) = Some "2010-12-31" /\
    Events.params_get "includeMatchedSeries" (Events.query u) = None.
Proof.
  destruct (@range_request_condition Host.runtime Sample.year2010
              "/api/stations/101/events" "2010-01-01" "2010-12-31")
    as (Hiff & _ & Hreq); try reflexivity.
  destruct (@Events.rangeRequestUrl Host.runtime Sample.year2010) as [u|] eqn:Hu.
  - destruct (Hreq u eq_refl) as (Hp & _ & Hs & He & _ & Hnone).
    exists u. repeat split; try assumption. apply Hnone. reflexivity.
  - exfalso. apply Hiff; [|reflexivity].
    right. left. exists "2000-01-01". split; [reflexivity|discriminate].
Defined.

(** C7 as stated fails where the default span is not known. A selection
    without events has no span; with a stored range both effective bounds
    are known and differ from the span, no preset is active, and no request
    is issued. *)
Lemma range_request_counterexample :
  let r := Sample.rangeWithoutSpan in
  @Events.eventsBasePath Host.runtime r = Some "/api/stations/101/events" /\
  Events.rangeStartDate r = Some "2020-01-01" /\
  Events.rangeEndDate r = Some "2020-12-31" /\
  Events.minPeakDate r = None /\
  Events.maxPeakDate r = None /\
  Events.selectedPreset r = None /\
  @Events.rangeRequestUrl Host.runtime r = None /\
  ~ (@Events.rangeRequestUrl Host.runtime r <> None <->
     is_Some (Events.selectedPreset r) \/
     (Events.rangeStartDate r, Events.rangeEndDate r) <>
     (Events.minPeakDate r, Events.maxPeakDate r)).
Proof.
  intros r.
  assert (Hurl : @Events.rangeRequestUrl Host.runtime r = None) by reflexivity.
  repeat split; try reflexivity.
  intros [_ Hback]. apply Hback; [|exact Hurl].
  right. discriminate.
Qed.

(** * Date edits *)

Section EditFacts.

Lemma currentTabDateRange_set (r : Events.Render) (key : string) (d : Events.DateRange)
    (dict : gmap string Events.DateRange) :
  Events.activeTabKey r = Some key ->
  Events.currentTabDateRange (Events.setPeakDateRangeByTab (<[key := d]> dict) r) = Some d.
Proof.
  intros Hkey. unfold Events.currentTabDateRange.
  change (Events.activeTabKey (Events.setPeakDateRangeByTab (<[key := d]> dict) r))
    with (Events.activeTabKey r).
  rewrite Hkey. simpl. apply lookup_insert_eq.
Qed.

Lemma current_start (r : Events.Render) (key : string) :
  Events.activeTabKey r = Some key ->
  Events.range_start (default Events.emptyRange (Events.peakDateRangeByTab r !! key)) =
  Events.peakStartDate r.
Proof.
  intros Hkey. unfold Events.peakStartDate, Events.currentTabDateRange. rewrite Hkey.
  destruct (Events.peakDateRangeByTab r !! key); reflexivity.
Qed.

Lemma current_end (r : Events.Render) (key : string) :
  Events.activeTabKey r = Some key ->
  Events.range_end (default Events.emptyRange (Events.peakDateRangeByTab r !! key)) =
  Events.peakEndDate r.
Proof.
  intros Hkey. unfold Events.peakEndDate, Events.currentTabDateRange. rewrite Hkey.
  destruct (Events.peakDateRangeByTab r !! key); reflexivity.
Qed.

Lemma rangeStartDate_set (r : Events.Render) (key : string) (d : Events.DateRange)
    (dict : gmap string Events.DateRange) :
  Events.activeTabKey r = Some key ->
  Events.rangeStartDate (Events.setPeakDateRangeByTab (<[key := d]> dict) r) =
  Js.or_else (Events.range_start d) (Events.minPeakDate r).
Proof.
  intros Hkey. unfold Events.rangeStartDate, Events.peakStartDate.
  now rewrite (currentTabDateRange_set r key d dict Hkey).
Qed.

Lemma rangeEndDate_set (r : Events.Render) (key : string) (d : Events.DateRange)
    (dict : gmap string Events.DateRange) :
  Events.activeTabKey r = Some key ->
  Events.rangeEndDate (Events.setPeakDateRangeByTab (<[key := d]> dict) r) =
  Js.or_else (Events.range_end d) (Events.maxPeakDate r).
Proof.
  intros Hkey. unfold Events.rangeEndDate, Events.peakEndDate.
  now rewrite (currentTabDateRange_set r key d dict Hkey).
Qed.

Lemma or_else_some (a : string) (b : option string) :
  a <> "" -> Js.or_else a b = Some a.
Proof. intros Ha%truthy_true. unfold Js.or_else. now rewrite Ha. Qed.

Lemma setStartDate_clamps (r : Events.Render) (key next re : string) :
  Events.activeTabKey r = Some key ->
  Events.rangeEndDate r = Some re ->
  Js.str_gt next re = true ->
  Events.currentTabDateRange (Events.setStartDate next r) =
    Some {| Events.range_start := next; Events.range_end := next |}.
Proof.
  intros Hkey Hre Hgt. unfold Events.setStartDate. rewrite Hkey, Hre, Hgt.
  rewrite (rangeEndDate_truthy r re Hre). simpl.
  now apply currentTabDateRange_set.
Qed.

Lemma setEndDate_clamps (r : Events.Render) (key next rs : string) :
  Events.activeTabKey r = Some key ->
  Events.rangeStartDate r = Some rs ->
  Js.str_lt next rs = true ->
  Events.currentTabDateRange (Events.setEndDate next r) =
    Some {| Events.range_start := next; Events.range_end := next |}.
Proof.
  intros Hkey Hrs Hlt. unfold Events.setEndDate. rewrite Hkey, Hrs, Hlt.
  rewrite (rangeStartDate_truthy r rs Hrs). simpl.
  now apply currentTabDateRange_set.
Qed.

Lemma setStartDate_ordered (r : Events.Render) (next : string) :
  is_Some (Events.activeTabKey r) -> next <> "" ->
  range_ordered r -> range_ordered (Events.setStartDate next r).
Proof.
  intros [key Hkey] Hnext (rs & re & Hrs & Hre & Hle).
  unfold Events.setStartDate. rewrite Hkey, Hre.
  rewrite (rangeEndDate_truthy r re Hre). simpl.
  destruct (Js.str_gt next re) eqn:Hgt.
  - exists next, next. rewrite rangeStartDate_set, rangeEndDate_set by exact Hkey.
    simpl. rewrite !or_else_some by exact Hnext. auto using leb_refl.
  - exists next, re. rewrite rangeStartDate_set, rangeEndDate_set by exact Hkey.
    simpl. rewrite or_else_some by exact Hnext. rewrite (current_end r key Hkey).
    split; [reflexivity|]. split; [exact Hre|].
    now apply ltb_false_leb.
Qed.

Lemma setEndDate_ordered (r : Events.Render) (next : string) :
  is_Some (Events.activeTabKey r) -> next <> "" ->
  range_ordered r -> range_ordered (Events.setEndDate next r).
Proof.
  intros [key Hkey] Hnext (rs & re & Hrs & Hre & Hle).
  unfold Events.setEndDate. rewrite Hkey, Hrs.
  rewrite (rangeStartDate_truthy r rs Hrs). simpl.
  destruct (Js.str_lt next rs) eqn:Hlt.
  - exists next, next. rewrite rangeStartDate_set, rangeEndDate_set by exact Hkey.
    simpl. rewrite !or_else_some by exact Hnext. auto using leb_refl.
  - exists rs, next. rewrite rangeStartDate_set, rangeEndDate_set by exact Hkey.
    simpl. rewrite (or_else_some next) by exact Hnext. rewrite (current_start r key Hkey).
    split; [exact Hrs|]. split; [reflexivity|].
    now apply ltb_false_leb.
Qed.

Lemma applyEdit_key (r : Events.Render) (e : Events.Edit) :
  Events.activeTabKey (Events.applyEdit r e) = Events.activeTabKey r.
Proof.
  destruct e as [next|next]; simpl.
  - unfold Events.setStartDate. destruct (Events.activeTabKey r) eqn:Hk; exact Hk.
  - unfold Events.setEndDate. destruct (Events.activeTabKey r) eqn:Hk; exact Hk.
Qed.

Lemma applyEdits_ordered (edits : list Events.Edit) (r : Events.Render) :
  is_Some (Events.activeTabKey r) ->
  range_ordered r ->
  Forall (fun e => Events.editDate e <> "") edits ->
  range_ordered (Events.applyEdits edits r).
Proof.
  revert r. induction edits as [|e edits IH]; intros r Hkey Hord Hne; [exact Hord|].
  apply Forall_cons_1 in Hne as [He Hne]. cbn [Events.applyEdits fold_left].
  apply IH; [now rewrite applyEdit_key| |exact Hne].
  destruct e as [next|next]; simpl in *.
  - now apply setStartDate_ordered.
  - now apply setEndDate_ordered.
Qed.

End EditFacts.

(** C5, as the code has it. On an active selection, a start date after the
    current effective end date is stored with the end date set to it, and an
    end date before the current effective start date is stored with the
    start date set to it. The stored range keeps the empty string for a
    bound that was not set, so it is the effective range, the stored bound
    or else the bound of the default span, that stays ordered: it is
    ordered for the default span, and after every run of edits with
    non-empty dates that starts from an ordered effective range. *)
Theorem date_edits_keep_range_ordered (r : Events.Render) :
  is_Some (Events.activeTabKey r) ->
  (forall next re,
     Events.rangeEndDate r = Some re -> Js.str_gt next re = true ->
     Events.currentTabDateRange (Events.setStartDate next r) =
       Some {| Events.range_start := next; Events.range_end := next |}) /\
  (forall next rs,
     Events.rangeStartDate r = Some rs -> Js.str_lt next rs = true ->
     Events.currentTabDateRange (Events.setEndDate next r) =
       Some {| Events.range_start := next; Events.range_end := next |}) /\
  (forall mn mx,
     Events.currentTabDateRange r = None ->
     Events.minPeakDate r = Some mn -> Events.maxPeakDate r = Some mx ->
     String.leb mn mx = true ->
     range_ordered r) /\
  (forall edits,
     range_ordered r ->
     Forall (fun e => Events.editDate e <> "") edits ->
     range_ordered (Events.applyEdits edits r)).
Proof.
  intros Hkey. split; [|split; [|split]].
  - intros next re. destruct Hkey as [key Hkey]. now apply setStartDate_clamps with key.
  - intros next rs. destruct Hkey as [key Hkey]. now apply setEndDate_clamps with key.
  - intros mn mx Hcur Hmn Hmx Hle. exists mn, mx.
    unfold Events.rangeStartDate, Events.rangeEndDate, Events.peakStartDate,
      Events.peakEndDate. rewrite Hcur, Hmn, Hmx. auto.
  - intros edits Hord Hne. now apply applyEdits_ordered.
Qed.

(** From the full history 2000-01-01 to 2020-12-31: an end date before the
    start pulls the start back, a start date after the end pushes the end
    forward, and so on; the range stays ordered. *)
Lemma date_edits_keep_range_ordered_witness :
  let edits := [Events.EditEnd "1990-01-01"; Events.EditStart "2010-05-05";
                Events.EditEnd "2005-03-03"; Events.EditEnd "2007-07-07"] in
  range_ordered (Events.applyEdits edits Sample.fullHistory) /\
  Events.currentTabDateRange (Events.applyEdits edits Sample.fullHistory) =
    Some {| Events.range_start := "2005-03-03"; Events.range_end := "2007-07-07" |} /\
  Events.currentTabDateRange (Events.setStartDate "2021-06-01" Sample.fullHistory) =
    Some {| Events.range_start := "2021-06-01"; Events.range_end := "2021-06-01" |}.
Proof.
  intros edits.
  destruct (date_edits_keep_range_ordered Sample.fullHistory) as (Hstart & _ & Hbase & Hrun).
  - exists "s:101". reflexivity.
  - split; [|split].
    + apply Hrun.
      * apply (Hbase "2000-01-01" "2020-12-31"); reflexivity.
      * repeat constructor; discriminate.
    + reflexivity.
    + apply (Hstart "2021-06-01" "2020-12-31"); reflexivity.
Defined.

(** C5 as stated fails. After a single start date the stored range is that
    date with an empty end, which is not ordered as a pair of strings. And
    the effective range itself gets inverted when a bound is cleared: an end
    date before the default start pulls the start back, and clearing the
    start then hands the start over to the default span again. *)
Lemma date_edits_counterexample :
  let r1 := Events.setStartDate "2010-05-05" Sample.fullHistory in
  let r2 := Events.applyEdits [Events.EditEnd "1990-01-01"; Events.EditStart ""]
              Sample.fullHistory in
  (Events.currentTabDateRange r1 =
     Some {| Events.range_start := "2010-05-05"; Events.range_end := "" |} /\
   String.leb "2010-05-05" "" = false) /\
  (Events.currentTabDateRange r2 =
     Some {| Events.range_start := ""; Events.range_end := "1990-01-01" |} /\
   Events.rangeStartDate r2 = Some "2000-01-01" /\
   Events.rangeEndDate r2 = Some "1990-01-01" /\
   String.leb "2000-01-01" "1990-01-01" = false /\
   ~ range_ordered r2).
Proof.
  intros r1 r2. split; [split; reflexivity|].
  repeat split; try reflexivity.
  intros (rs & re & Hrs & Hre & Hle).
  change (Events.rangeStartDate r2) with (Some "2000-01-01") in Hrs.
  change (Events.rangeEndDate r2) with (Some "1990-01-01") in Hre.
  injection Hrs as <-. injection Hre as <-. discriminate.
Qed.

(** * Suggestions *)

Section SuggestionFacts.
Context `{MapUtils} `{Runtime}.

Lemma set_add_In (acc : list string) (x n : string) :
  In n (Js.set_add acc x) <-> In n acc \/ n = x.
Proof.
  unfold Js.set_add. destruct (bool_decide (x ∈ acc)) eqn:Hx.
  - apply bool_decide_eq_true, list_elem_of_In in Hx. split; [auto|].
    intros [Hin| ->]; assumption.
  - rewrite in_app_iff. simpl. intuition congruence.
Qed.

Lemma set_add_NoDup (acc : list string) (x : string) :
  List.NoDup acc -> List.NoDup (Js.set_add acc x).
Proof.
  intros Hnd. unfold Js.set_add. destruct (bool_decide (x ∈ acc)) eqn:Hx; [exact Hnd|].
  apply bool_decide_eq_false in Hx. rewrite list_elem_of_In in Hx.
  apply (Permutation_NoDup (Permutation_cons_append acc x)). now constructor.
Qed.

Lemma collectStationName_In (keyword : string) (acc : list string) (st : Station)
    (n : string) :
  In n (Search.collectStationName keyword acc st) <-> In n acc \/ candidate keyword st n.
Proof.
  unfold Search.collectStationName, candidate.
  destruct (station_name st) as [raw|].
  - destruct (Js.truthy (Js.trim raw)) eqn:Ht; simpl.
    + destruct (Js.startsWith (normalizeText (Some (Js.trim raw))) keyword) eqn:Hs.
      * rewrite set_add_In. split.
        -- intros [Hin| ->]; [now left|right].
           exists raw. repeat split; auto. now apply truthy_true.
        -- intros [Hin|(raw' & [= <-] & <- & _)]; auto.
      * split; [auto|]. intros [Hin|(raw' & [= <-] & <- & _ & Hs')]; [exact Hin|congruence].
    + split; [auto|]. intros [Hin|(raw' & [= <-] & <- & Hne & _)]; [exact Hin|].
      apply truthy_false in Ht. congruence.
  - split; [auto|]. intros [Hin|(raw' & [=] & _)]. exact Hin.
Qed.

Lemma collectStationName_NoDup (keyword : string) (acc : list string) (st : Station) :
  List.NoDup acc -> List.NoDup (Search.collectStationName keyword acc st).
Proof.
  intros Hnd. unfold Search.collectStationName.
  destruct (station_name st) as [raw|]; [|exact Hnd].
  destruct (Js.truthy (Js.trim raw)); simpl; [|exact Hnd].
  destruct (Js.startsWith _ keyword); [now apply set_add_NoDup|exact Hnd].
Qed.

Lemma collect_spec (keyword : string) (stations : list Station) (acc : list string) :
  List.NoDup acc ->
  List.NoDup (fold_left (Search.collectStationName keyword) stations acc) /\
  forall n, In n (fold_left (Search.collectStationName keyword) stations acc) <->
            In n acc \/ exists st, In st stations /\ candidate keyword st n.
Proof.
  revert acc. induction stations as [|st stations IH]; intros acc Hnd; simpl.
  - split; [exact Hnd|]. intros n. split; [auto|]. intros [Hin|(st & [] & _)]. exact Hin.
  - destruct (IH _ (collectStationName_NoDup keyword acc st Hnd)) as [Hnd' Hin'].
    split; [exact Hnd'|]. intros n. rewrite Hin', collectStationName_In. split.
    + intros [[Hin|Hc]|(st' & Hst & Hc)]; eauto 6.
    + intros [Hin|(st' & [<-|Hst] & Hc)]; eauto 6.
Qed.

Lemma take_length {A} (n : nat) (l : list A) : length (Js.take n l) <= n.
Proof. unfold Js.take. rewrite length_firstn. lia. Qed.

End SuggestionFacts.

(** C6. The suggestions are the basin suggestions followed by the station
    suggestions, at most 8 of each and so at most 16 in all, and there are
    none when the normalised keyword is empty. Otherwise the basin
    suggestions are the first 8 of the display names of exactly those index
    entries whose normalised name starts with the normalised keyword, put
    in ascending order; the station suggestions are the first 8, in
    ascending order, of the distinct trimmed primary names that are not
    empty and whose normalised form starts with the keyword. The order is
    that of [localeCompare], taken to be a consistent comparator. *)
Theorem suggestions_bounded_sorted `{MapUtils} `{Runtime} (p : Search.Params)
    (searchText : string) :
  consistent_on (fun _ => True) localeCompare ->
  let keyword := normalizeText (Some searchText) in
  let basins := Search.basinSuggestions p searchText in
  let stationNames := Search.stationNameSuggestions p searchText in
  Search.searchSuggestions p searchText =
    map (fun v => {| value := v; type := Basin |}) basins ++
    map (fun v => {| value := v; type := StationT |}) stationNames /\
  length basins <= 8 /\
  length stationNames <= 8 /\
  length (Search.searchSuggestions p searchText) <= 16 /\
  (keyword = "" -> Search.searchSuggestions p searchText = []) /\
  (keyword <> "" ->
   exists allBasins allStations,
     basins = firstn 8 allBasins /\
     Permutation allBasins
       (map name
          (List.filter (fun e => Js.startsWith (normalizedName e) keyword)
             (Search.basinIndex p))) /\
     StronglySorted (before localeCompare) allBasins /\
     stationNames = firstn 8 allStations /\
     StronglySorted (before localeCompare) allStations /\
     List.NoDup allStations /\
     (forall n, In n allStations <->
                exists st, In st (Search.stations p) /\ candidate keyword st n)).
Proof.
  intros Hcmp keyword basins stationNames.
  assert (Hb : length basins <= 8).
  { unfold basins, Search.basinSuggestions.
    destruct (negb _); [simpl; lia|apply take_length]. }
  assert (Hs : length stationNames <= 8).
  { unfold stationNames, Search.stationNameSuggestions.
    destruct (negb _); [simpl; lia|apply take_length]. }
  split; [reflexivity|]. split; [exact Hb|]. split; [exact Hs|]. split; [|split].
  - unfold Search.searchSuggestions. fold basins stationNames.
    rewrite length_app, !length_map. lia.
  - intros Hk. unfold Search.searchSuggestions, Search.basinSuggestions,
      Search.stationNameSuggestions. fold keyword. rewrite Hk. reflexivity.
  - intros Hk. apply truthy_true in Hk.
    exists (Js.sort localeCompare
              (map name
                 (List.filter (fun e => Js.startsWith (normalizedName e) keyword)
                    (Search.basinIndex p)))),
           (Js.sort localeCompare
              (fold_left (Search.collectStationName keyword) (Search.stations p) [])).
    destruct (collect_spec keyword (Search.stations p) [] (List.NoDup_nil _))
      as [Hnd Hin].
    split; [|split; [|split; [|split; [|split; [|split]]]]].
    + unfold basins, Search.basinSuggestions. fold keyword. now rewrite Hk.
    + apply sort_perm.
    + apply (sort_sorted _ (fun _ => True) Hcmp). apply List.Forall_forall. auto.
    + unfold stationNames, Search.stationNameSuggestions. fold keyword. now rewrite Hk.
    + apply (sort_sorted _ (fun _ => True) Hcmp). apply List.Forall_forall. auto.
    + eapply Permutation_NoDup; [symmetry; apply sort_perm|exact Hnd].
    + intros n. split.
      * intros Hn. apply (Permutation_in _ (sort_perm _ _)) in Hn.
        apply Hin in Hn as [[]|Hc]. exact Hc.
      * intros Hc. eapply Permutation_in; [symmetry; apply sort_perm|].
        apply Hin. now right.
Qed.

Lemma before_compare_leb (a b : string) :
  before String.compare a b <-> String.leb a b = true.
Proof.
  unfold before, String.leb. destruct (String.compare a b); split; congruence.
Qed.

Lemma host_localeCompare_consistent :
  consistent_on (fun _ => True) (@localeCompare Host.runtime).
Proof.
  change (@localeCompare Host.runtime) with String.compare. split.
  - intros a b _ _ Hgt. rewrite (String.compare_antisym b a), Hgt. discriminate.
  - intros a b c _ _ _ Hab%before_compare_leb Hbc%before_compare_leb.
    apply before_compare_leb. apply Is_true_true.
    apply Is_true_true in Hab, Hbc.
    exact (transitivity (R := String.le) Hab Hbc).
Qed.

(** Ten basins start with "Shin": eight are suggested, in ascending order,
    followed by the distinct station names that start with it. [Oshin] and
    the second name [Shintaro] are not suggested. *)
Lemma suggestions_bounded_sorted_witness :
  let p := @Search.leafletParams Host.mapUtils Sample.shinStations in
  @Search.searchSuggestions Host.mapUtils Host.runtime p "Shin" =
    map (fun v => {| value := v; type := Basin |})
      ["Shinano"; "Shinbashi"; "Shinden"; "Shinei"; "Shingu"; "Shinji"; "Shinjo";
       "Shinkawa"] ++
    map (fun v => {| value := v; type := StationT |})
      ["Shinagawa"; "Shinjuku"; "Shinonome"; "shinden-minami"] /\
  length (@Search.basinSuggestions Host.mapUtils Host.runtime p "Shin") <= 8 /\
  length (@Search.searchSuggestions Host.mapUtils Host.runtime p "Shin") <= 16.
Proof.
  intros p.
  destruct (@suggestions_bounded_sorted Host.mapUtils Host.runtime p "Shin"
              host_localeCompare_consistent)
    as (_ & Hb & _ & Hall & _).
  split; [reflexivity|]. split; assumption.
Defined.

(** * File names *)

Section SanitizeFacts.

Lemma underscore_allowed : CsvExport.forbidden "_" = false.
Proof. reflexivity. Qed.

Lemma sanitizeFrom_allowed (inRun : bool) (s : string) (c : ascii) :
  In c (list_ascii_of_string (CsvExport.sanitizeFrom inRun s)) ->
  CsvExport.forbidden c = false.
Proof.
  revert inRun. induction s as [|a s IH]; intros inRun; simpl; [tauto|].
  destruct (CsvExport.forbidden a) eqn:Ha.
  - destruct inRun; simpl; [apply IH|].
    intros [<-|Hin]; [exact underscore_allowed|now apply IH in Hin].
  - simpl. intros [<-|Hin]; [exact Ha|now apply IH in Hin].
Qed.

Lemma sanitizeFrom_id (inRun : bool) (s : string) :
  (forall c, In c (list_ascii_of_string s) -> CsvExport.forbidden c = false) ->
  CsvExport.sanitizeFrom inRun s = s.
Proof.
  revert inRun. induction s as [|a s IH]; intros inRun Hs; simpl; [reflexivity|].
  rewrite (Hs a) by (simpl; auto). f_equal. apply IH. intros c Hc. apply Hs. simpl. auto.
Qed.

Lemma sanitizeFrom_length (inRun : bool) (s : string) :
  String.length (CsvExport.sanitizeFrom inRun s) <= String.length s.
Proof.
  revert inRun. induction s as [|a s IH]; intros inRun; simpl; [lia|].
  destruct (CsvExport.forbidden a); [destruct inRun|]; simpl.
  - specialize (IH true). lia.
  - specialize (IH true). lia.
  - specialize (IH false). lia.
Qed.

Lemma sanitizeFrom_boundary (rest : string) :
  match rest with
  | EmptyString => True
  | String c _ => CsvExport.forbidden c = false
  end ->
  CsvExport.sanitizeFrom true rest = CsvExport.sanitizeFrom false rest.
Proof. destruct rest as [|c rest]; [reflexivity|]. simpl. now intros ->. Qed.

Lemma sanitizeFrom_run (run rest : string) :
  (forall c, In c (list_ascii_of_string run) -> CsvExport.forbidden c = true) ->
  match rest with
  | EmptyString => True
  | String c _ => CsvExport.forbidden c = false
  end ->
  CsvExport.sanitizeFrom true (run +:+ rest) = CsvExport.sanitizeFrom false rest.
Proof.
  intros Hrun Hrest. induction run as [|a run IH].
  - change ("" +:+ rest) with rest. now apply sanitizeFrom_boundary.
  - change (String a run +:+ rest) with (String a (run +:+ rest)).
    cbn [CsvExport.sanitizeFrom]. rewrite (Hrun a) by (simpl; auto).
    apply IH. intros c Hc. apply Hrun. simpl. auto.
Qed.

End SanitizeFacts.

(** X1. [sanitizeFileNamePart] turns every maximal run of characters the
    pattern matches into one underscore and copies every other character:
    the empty string stays empty, a leading character the pattern does not
    match is copied and the rest sanitised, and a leading non-empty run of
    matching characters, followed by the end of the string or by a character
    that does not match, becomes a single underscore followed by the
    sanitised rest. These three cases determine the result for every
    string. So a sanitised part holds none of the characters the pattern
    matches, is never longer than what it was made from, and is empty only
    for the empty string; a part without such characters is left as it is,
    and sanitising twice is sanitising once. *)
Theorem sanitize_file_name_part (value : string) :
  (forall c rest, value = String c rest -> CsvExport.forbidden c = false ->
     CsvExport.sanitizeFileNamePart value = String c (CsvExport.sanitizeFileNamePart rest)) /\
  (forall run rest, value = run +:+ rest -> run <> "" ->
     (forall c, In c (list_ascii_of_string run) -> CsvExport.forbidden c = true) ->
     match rest with
     | EmptyString => True
     | String c _ => CsvExport.forbidden c = false
     end ->
     CsvExport.sanitizeFileNamePart value =
       String "_" (CsvExport.sanitizeFileNamePart rest)) /\
  CsvExport.sanitizeFileNamePart "a: b??c" = "a_b_c" /\
  CsvExport.sanitizeFileNamePart "station_Ton\e  gawa/<1>" = "station_Ton_e_gawa_1_" /\
  (forall c, In c (list_ascii_of_string (CsvExport.sanitizeFileNamePart value)) ->
             CsvExport.forbidden c = false) /\
  String.length (CsvExport.sanitizeFileNamePart value) <= String.length value /\
  (CsvExport.sanitizeFileNamePart value = "" <-> value = "") /\
  ((forall c, In c (list_ascii_of_string value) -> CsvExport.forbidden c = false) ->
   CsvExport.sanitizeFileNamePart value = value) /\
  CsvExport.sanitizeFileNamePart (CsvExport.sanitizeFileNamePart value) =
    CsvExport.sanitizeFileNamePart value.
Proof.
  unfold CsvExport.sanitizeFileNamePart.
  split; [intros c rest -> Hc; simpl; now rewrite Hc|].
  split.
  { intros run rest -> Hne Hrun Hrest. destruct run as [|a run]; [congruence|].
    change (String a run +:+ rest) with (String a (run +:+ rest)).
    cbn [CsvExport.sanitizeFrom]. rewrite (Hrun a) by (simpl; auto). f_equal.
    apply sanitizeFrom_run; [|exact Hrest]. intros c Hc. apply Hrun. simpl. auto. }
  split; [reflexivity|]. split; [reflexivity|].
  split; [intros c; apply sanitizeFrom_allowed|].
  split; [apply sanitizeFrom_length|].
  split; [|split].
  - split; [|now intros ->].
    destruct value as [|a s]; [reflexivity|]. simpl.
    destruct (CsvExport.forbidden a); discriminate.
  - apply sanitizeFrom_id.
  - apply sanitizeFrom_id. intros c. apply sanitizeFrom_allowed.
Qed.

(** * Grouping by basin *)

Section GroupFacts.

Lemma groups_get_set (key k : string) (l : list Station) (groups : BasinGroups) :
  groups_get k (groups_set key l groups) =
    if String.eqb key k then Some l else groups_get k groups.
Proof.
  induction groups as [|[k0 l0] rest IH]; simpl.
  - rewrite String.eqb_sym. destruct (String.eqb k key) eqn:E; reflexivity.
  - destruct (String.eqb k0 key) eqn:E0; simpl.
    + apply String.eqb_eq in E0 as ->. destruct (String.eqb key k); reflexivity.
    + rewrite IH. destruct (String.eqb k0 k) eqn:E1; [|reflexivity].
      apply String.eqb_eq in E1 as ->. rewrite String.eqb_sym, E0. reflexivity.
Qed.

Lemma groups_keys_get (k : string) (groups : BasinGroups) :
  In k (groups_keys groups) <-> is_Some (groups_get k groups).
Proof.
  unfold groups_keys. induction groups as [|[k0 l0] rest IH]; simpl.
  - split; [tauto|]. intros [x Hx]. discriminate.
  - destruct (String.eqb k0 k) eqn:E.
    + apply String.eqb_eq in E as ->. split; eauto.
    + apply String.eqb_neq in E. rewrite <- IH. tauto.
Qed.

Lemma groups_set_keys_old (key : string) (l : list Station) (groups : BasinGroups) :
  In key (groups_keys groups) ->
  groups_keys (groups_set key l groups) = groups_keys groups.
Proof.
  unfold groups_keys. induction groups as [|[k0 l0] rest IH]; simpl; [tauto|].
  intros Hin. destruct (String.eqb k0 key) eqn:E; simpl.
  - now apply String.eqb_eq in E as ->.
  - apply String.eqb_neq in E. f_equal. apply IH. tauto.
Qed.

Lemma groups_set_keys_new (key : string) (l : list Station) (groups : BasinGroups) :
  ~ In key (groups_keys groups) ->
  groups_keys (groups_set key l groups) = groups_keys groups ++ [key].
Proof.
  unfold groups_keys. induction groups as [|[k0 l0] rest IH]; simpl; [reflexivity|].
  intros Hin. destruct (String.eqb k0 key) eqn:E; simpl.
  - apply String.eqb_eq in E. tauto.
  - f_equal. apply IH. tauto.
Qed.

Lemma basinGroups_snoc (stations : list Station) (s : Station) :
  basinGroups (stations ++ [s]) = basinGroups_step (basinGroups stations) s.
Proof. unfold basinGroups. now rewrite fold_left_app. Qed.

End GroupFacts.

Section GroupByFacts.

Lemma set_add_nodup (acc : list string) (x : string) :
  List.NoDup acc -> List.NoDup (Js.set_add acc x).
Proof.
  intros Hnd. unfold Js.set_add. destruct (bool_decide (x ∈ acc)) eqn:Hx; [exact Hnd|].
  apply bool_decide_eq_false in Hx. rewrite list_elem_of_In in Hx.
  apply (Permutation_NoDup (Permutation_cons_append acc x)). now constructor.
Qed.

Lemma firstOccurrences_nodup (l acc : list string) :
  List.NoDup acc -> List.NoDup (fold_left Js.set_add l acc).
Proof.
  revert acc. induction l as [|x l IH]; intros acc Hnd; simpl; [exact Hnd|].
  apply IH. now apply set_add_nodup.
Qed.

Lemma basinNames_snoc (stations : list Station) (s : Station) :
  basinNames (stations ++ [s]) = basinNames stations ++ basinNames [s].
Proof. unfold basinNames. now rewrite flat_map_app. Qed.

Lemma basinGroups_keys_order (stations : list Station) :
  groups_keys (basinGroups stations) = fold_left Js.set_add (basinNames stations) [].
Proof.
  induction stations as [|s stations IH] using rev_ind; [reflexivity|].
  rewrite basinGroups_snoc, basinNames_snoc, fold_left_app, <- IH.
  unfold basinGroups_step, basinNames. simpl.
  destruct (basin_name s) as [raw|]; [|reflexivity].
  destruct (Js.truthy (Js.trim raw)); simpl; [|reflexivity].
  unfold Js.set_add.
  destruct (bool_decide (Js.trim raw ∈ groups_keys (basinGroups stations))) eqn:Hd.
  - apply bool_decide_eq_true in Hd. rewrite list_elem_of_In in Hd.
    now apply groups_set_keys_old.
  - apply bool_decide_eq_false in Hd. rewrite list_elem_of_In in Hd.
    now apply groups_set_keys_new.
Qed.

Lemma groupOf_default (k : string) (stations : list Station) :
  Js.truthy k = true ->
  default [] (groupOf k stations) = List.filter (inBasin k) stations.
Proof.
  intros Hk. unfold groupOf. rewrite Hk.
  destruct (List.filter (inBasin k) stations); reflexivity.
Qed.

Lemma basinGroups_get (stations : list Station) (k : string) :
  groups_get k (basinGroups stations) = groupOf k stations.
Proof.
  induction stations as [|s stations IH] using rev_ind.
  - unfold groupOf. simpl. destruct (Js.truthy k); reflexivity.
  - rewrite basinGroups_snoc. unfold basinGroups_step, groupOf.
    rewrite List.filter_app. simpl. unfold inBasin at 2.
    destruct (basin_name s) as [raw|].
    + destruct (Js.truthy (Js.trim raw)) eqn:Ht; simpl.
      * rewrite groups_get_set.
        destruct (String.eqb (Js.trim raw) k) eqn:E.
        -- apply String.eqb_eq in E. subst k. rewrite Ht.
           rewrite IH, (groupOf_default _ _ Ht).
           destruct (List.filter (inBasin (Js.trim raw)) stations); reflexivity.
        -- rewrite IH, app_nil_r. reflexivity.
      * rewrite IH. unfold groupOf.
        destruct (Js.truthy k) eqn:Hk; [|reflexivity].
        destruct (String.eqb (Js.trim raw) k) eqn:E.
        -- apply String.eqb_eq in E. congruence.
        -- now rewrite app_nil_r.
    + rewrite IH, app_nil_r. reflexivity.
Qed.

Lemma basin_groups_keys_nodup (stations : list Station) :
  List.NoDup (groups_keys (basinGroups stations)).
Proof. rewrite basinGroups_keys_order. apply firstOccurrences_nodup. constructor. Qed.

End GroupByFacts.

(** X2. Grouping the stations by basin lists every basin once, in the
    order in which the basins first appear among the stations. The group
    of a basin holds exactly the stations whose trimmed basin name is that
    basin, in the order of the list; a station without a basin name, or
    with a blank one, is in no group, and a name that no station carries
    has no group. *)
Theorem basin_groups_partition (stations : list Station) :
  List.NoDup (groups_keys (basinGroups stations)) /\
  groups_keys (basinGroups stations) = fold_left Js.set_add (basinNames stations) [] /\
  (forall k, groups_get k (basinGroups stations) = groupOf k stations) /\
  (forall k, In k (groups_keys (basinGroups stations)) <->
             k <> "" /\ exists s, In s stations /\ inBasin k s = true) /\
  (forall k group, groups_get k (basinGroups stations) = Some group ->
                   group <> [] /\ forall s, In s group <-> In s stations /\ inBasin k s = true).
Proof.
  split; [|split; [|split; [|split]]].
  - rewrite basinGroups_keys_order. apply firstOccurrences_nodup. constructor.
  - apply basinGroups_keys_order.
  - apply basinGroups_get.
  - intros k. rewrite groups_keys_get, basinGroups_get. unfold groupOf.
    destruct (Js.truthy k) eqn:Hk.
    + apply truthy_true in Hk.
      destruct (List.filter (inBasin k) stations) as [|s group] eqn:Hf.
      * split; [intros [x Hx]; discriminate|].
        intros (_ & s & Hin & Hs). exfalso.
        assert (Hs' : In s (List.filter (inBasin k) stations)) by (apply filter_In; auto).
        rewrite Hf in Hs'. exact Hs'.
      * split; [|eauto]. intros _. split; [exact Hk|]. exists s.
        apply filter_In. rewrite Hf. simpl. auto.
    + apply truthy_false in Hk. split; [intros [x Hx]; discriminate|tauto].
  - intros k group. rewrite basinGroups_get. unfold groupOf.
    destruct (Js.truthy k); [|discriminate].
    destruct (List.filter (inBasin k) stations) as [|s g] eqn:Hf; [discriminate|].
    intros [= <-]. split; [discriminate|]. intros s'. rewrite <- Hf. apply filter_In.
Qed.

(** X3. The search indices of [LeafletMap]: the basin index has one entry
    per basin, in the order of the groups, with names that are distinct and
    not empty and the normalised form of each; the station index has one
    entry per station, in the order of the stations, whose names are the
    non-empty normalised forms of the three name fields, at most three. *)
Theorem search_indices `{MapUtils} (stations : list Station) :
  let p := Search.leafletParams stations in
  map name (Search.basinIndex p) = groups_keys (basinGroups stations) /\
  List.NoDup (map name (Search.basinIndex p)) /\
  (forall e, In e (Search.basinIndex p) ->
             name e <> "" /\ normalizedName e = normalizeText (Some (name e))) /\
  map station (Search.stationIndex p) = stations /\
  (forall e, In e (Search.stationIndex p) ->
     length (names e) <= 3 /\
     forall n, In n (names e) <->
               n <> "" /\
               (n = normalizeText (station_name (station e)) \/
                n = normalizeText (station_name2 (station e)) \/
                n = normalizeText (station_name3 (station e)))).
Proof.
  intros p. simpl.
  assert (Hnames : map name (basinSearchIndex (basinGroups stations)) =
                   groups_keys (basinGroups stations)).
  { unfold basinSearchIndex. rewrite map_map. simpl. apply map_id. }
  split; [exact Hnames|]. split; [|split; [|split]].
  - rewrite Hnames. apply (basin_groups_keys_nodup stations).
  - intros e He. unfold basinSearchIndex in He.
    apply in_map_iff in He as (k & <- & Hk). simpl. split; [|reflexivity].
    apply truthy_true. pose proof (basinGroups_keys stations) as Hall.
    rewrite List.Forall_forall in Hall. now apply Hall.
  - unfold stationSearchIndex. rewrite map_map. simpl. apply map_id.
  - intros e He. unfold stationSearchIndex in He.
    apply in_map_iff in He as (s & <- & Hs). cbn [names station]. split.
    + etransitivity; [apply List.filter_length_le|]. simpl. lia.
    + intros n. rewrite filter_In. cbn [map In]. rewrite truthy_true. intuition congruence.
Qed.

(** * Trimming *)

Section TrimFacts.

(** [+:+] is not unfolded by [simpl]; the two equations of its definition
    are applied by hand. *)
Local Ltac app_step :=
  repeat first
    [ progress change (String ?a ?x +:+ ?y) with (String a (x +:+ y))
    | progress change (EmptyString +:+ ?y) with y ].

Lemma append_assoc' (x y z : string) : (x +:+ y) +:+ z = x +:+ (y +:+ z).
Proof. induction x as [|a x IH]; app_step; [reflexivity|]. now rewrite IH. Qed.

Lemma append_nil_r (x : string) : x +:+ "" = x.
Proof. induction x as [|a x IH]; app_step; [reflexivity|]. now rewrite IH. Qed.

Lemma rev_app_append (s1 s2 : string) :
  String.rev_app s1 s2 = String.rev_app s1 "" +:+ s2.
Proof.
  revert s2. induction s1 as [|a s1 IH]; intros s2; simpl; [reflexivity|].
  rewrite (IH (String a s2)), (IH (String a "")), append_assoc'. reflexivity.
Qed.

Lemma rev_app_rev_app (s1 s2 s3 : string) :
  String.rev_app (String.rev_app s1 s2) s3 = String.rev_app s2 (s1 +:+ s3).
Proof.
  revert s2 s3. induction s1 as [|a s1 IH]; intros s2 s3; simpl; app_step; [reflexivity|].
  now rewrite IH.
Qed.

Lemma rev_involutive (s : string) : String.rev (String.rev s) = s.
Proof. unfold String.rev. rewrite rev_app_rev_app. simpl. apply append_nil_r. Qed.

Lemma rev_cons (a : ascii) (s : string) :
  String.rev (String a s) = String.rev s +:+ String a "".
Proof. unfold String.rev. simpl. apply rev_app_append. Qed.

Lemma rev_app_snoc (a : ascii) (s acc : string) :
  String.rev_app (s +:+ String a "") acc = String a (String.rev_app s acc).
Proof.
  revert acc. induction s as [|b s IH]; intros acc; app_step; simpl; [reflexivity|].
  apply IH.
Qed.

Lemma rev_snoc (a : ascii) (s : string) :
  String.rev (s +:+ String a "") = String a (String.rev s).
Proof. apply rev_app_snoc. Qed.

Lemma trimStart_idempotent (s : string) : Js.trimStart (Js.trimStart s) = Js.trimStart s.
Proof.
  induction s as [|a s IH]; simpl; [reflexivity|].
  destruct (Js.is_white a) eqn:Ha; [exact IH|]. simpl. now rewrite Ha.
Qed.

Lemma trimStart_snoc (a : ascii) (s : string) :
  Js.is_white a = false ->
  Js.trimStart (s +:+ String a "") = Js.trimStart s +:+ String a "".
Proof.
  intros Ha. induction s as [|b s IH]; app_step; simpl.
  - now rewrite Ha.
  - destruct (Js.is_white b); [exact IH|reflexivity].
Qed.

(** A string that has lost its leading white space is empty or starts
    with something else. *)
Lemma trimStart_head (s : string) :
  Js.trimStart s = "" \/
  exists a t, Js.trimStart s = String a t /\ Js.is_white a = false.
Proof.
  induction s as [|a s IH]; simpl; [now left|].
  destruct (Js.is_white a) eqn:Ha; [exact IH|]. right. eauto.
Qed.

Lemma trimEnd_keeps_head (a : ascii) (t : string) :
  Js.is_white a = false ->
  exists t', Js.trimEnd (String a t) = String a t'.
Proof.
  intros Ha. unfold Js.trimEnd. rewrite rev_cons, (trimStart_snoc a _ Ha), rev_snoc.
  eauto.
Qed.

Lemma trimEnd_idempotent (s : string) : Js.trimEnd (Js.trimEnd s) = Js.trimEnd s.
Proof. unfold Js.trimEnd. now rewrite rev_involutive, trimStart_idempotent. Qed.

Lemma trim_no_leading (s : string) : Js.trimStart (Js.trim s) = Js.trim s.
Proof.
  unfold Js.trim. destruct (trimStart_head s) as [->|(a & t & -> & Ha)]; [reflexivity|].
  destruct (trimEnd_keeps_head a t Ha) as [t' ->]. simpl. now rewrite Ha.
Qed.

Lemma trim_idempotent (s : string) : Js.trim (Js.trim s) = Js.trim s.
Proof.
  unfold Js.trim at 1. rewrite trim_no_leading. unfold Js.trim. apply trimEnd_idempotent.
Qed.

Lemma host_ignores_blanks : @ignores_blanks Host.mapUtils.
Proof.
  split; simpl; [|reflexivity]. intros s. now rewrite trim_idempotent.
Qed.

End TrimFacts.

(** * Suggestions and the search *)

Section SearchComposition.
Context `{MapUtils} `{Runtime}.

Lemma find_exists {A} (p : A -> bool) (l : list A) (x : A) :
  In x l -> p x = true -> exists y, Js.find p l = Some y.
Proof.
  intros Hin Hp. unfold Js.find. destruct (List.find p l) as [y|] eqn:Hf; [eauto|].
  apply (find_none _ _ Hf) in Hin. congruence.
Qed.

Lemma In_take {A} (n : nat) (l : list A) (x : A) : In x (Js.take n l) -> In x l.
Proof.
  unfold Js.take. intros Hin. rewrite <- (firstn_skipn n l). apply in_or_app. now left.
Qed.

Lemma startsWith_nonempty (s k : string) :
  Js.startsWith s k = true -> k <> "" -> s <> "".
Proof. unfold Js.startsWith. intros Hp Hk ->. destruct k; [congruence|discriminate]. Qed.

Lemma blank_normalises_empty (s : string) :
  ignores_blanks -> Js.trim s = "" -> normalizeText (Some s) = "".
Proof. intros [Htrim Hempty] Hs. now rewrite <- Htrim, Hs. Qed.

Lemma resolve_basin_hit (p : Search.Params) (keyword : string) (e : BasinSearchIndexItem) :
  forallb (fun e => Js.truthy (name e)) (Search.basinIndex p) = true ->
  In e (Search.basinIndex p) ->
  Js.includes (normalizedName e) (normalizeText (Some keyword)) = true ->
  exists b, Search.resolve p keyword = Search.RBasin b /\
            Search.findBasin (Search.basinIndex p) (normalizeText (Some keyword)) = Some b.
Proof.
  intros Hwf Hin Hinc. destruct (findBasin_some _ _ e Hin Hinc) as [b Hb].
  exists b. split; [now apply resolve_basin|exact Hb].
Qed.

Lemma resolve_station_hit (p : Search.Params) (keyword : string)
    (e : StationSearchIndexItem) :
  In e (Search.stationIndex p) ->
  Search.stationMatches (normalizeText (Some keyword)) e = true ->
  Search.resolve p keyword <> Search.RNone.
Proof.
  intros Hin Hm. unfold Search.resolve, Search.findStation.
  destruct (find_exists _ _ e Hin Hm) as [y ->]. simpl.
  destruct (Search.findBasin _ _) as [b|]; [destruct (Js.truthy b)|]; discriminate.
Qed.

(** A search that resolves succeeds, clears the hint and puts a tab in
    front; the search text is not touched. *)
Lemma performSearch_resolved (p : Search.Params) (rawKeyword : string) (st : UiState) :
  Js.trim rawKeyword <> "" -> mapInstance st <> None ->
  Search.resolve p (Js.trim rawKeyword) <> Search.RNone ->
  exists st', Search.performSearch p rawKeyword st = (true, st') /\
    searchHint st' = "" /\ is_Some (activeTab st') /\ searchText st' = searchText st.
Proof.
  intros Hk Hm Hr. unfold Search.performSearch.
  apply truthy_true in Hk. rewrite Hk. simpl negb. cbv iota.
  destruct (mapInstance st) eqn:Hmap; [|congruence].
  destruct (Search.resolve p (Js.trim rawKeyword)) as [b|s|]; [| |congruence].
  - eexists. split; [reflexivity|]. simpl.
    destruct (zoomToStations_fields (default [] (groups_get b (Search.groups p))) st)
      as (_ & _ & _ & _ & _ & Ht & _). simpl in Ht. repeat split; eauto.
  - eexists. split; [reflexivity|]. simpl.
    destruct (zoomToStations_fields [s] st) as (_ & _ & _ & _ & _ & Ht & _).
    simpl in Ht. repeat split; eauto.
Qed.

(** The entry of a station in the index of [LeafletMap]. *)
Lemma station_entry (stations : list Station) (s : Station) :
  In s stations ->
  exists e, In e (stationSearchIndex stations) /\ station e = s /\
            forall n, n <> "" -> n = normalizeText (station_name s) -> In n (names e).
Proof.
  intros Hin. eexists. split; [unfold stationSearchIndex; apply in_map, Hin|].
  split; [reflexivity|]. intros n Hn ->. cbn [names]. apply filter_In. split.
  - simpl. auto.
  - now apply truthy_true.
Qed.

(** A candidate name has an entry in the station index that holds its
    normalised form. *)
Lemma candidate_entry (stations : list Station) (keyword : string) (s : Station)
    (n : string) :
  ignores_blanks -> keyword <> "" ->
  In s stations -> candidate keyword s n ->
  exists e, In e (stationSearchIndex stations) /\ station e = s /\
            In (normalizeText (Some n)) (names e).
Proof.
  intros [Htrim Hempty] Hk Hin (raw & Hraw & <- & Hne & Hstart).
  destruct (station_entry stations s Hin) as (e & He & Hs & Hnames).
  exists e. split; [exact He|]. split; [exact Hs|].
  apply Hnames; [exact (startsWith_nonempty _ _ Hstart Hk)|].
  now rewrite Hraw, Htrim.
Qed.

Lemma basin_suggestion_entry (p : Search.Params) (searchText v : string) :
  In v (Search.basinSuggestions p searchText) ->
  normalizeText (Some searchText) <> "" /\
  exists e, In e (Search.basinIndex p) /\ name e = v /\
            Js.startsWith (normalizedName e) (normalizeText (Some searchText)) = true.
Proof.
  unfold Search.basinSuggestions.
  destruct (Js.truthy (normalizeText (Some searchText))) eqn:Hk; cbn [negb];
    [|intros []].
  intros Hin%In_take. apply (Permutation_in _ (sort_perm _ _)) in Hin.
  apply in_map_iff in Hin as (e & <- & He). apply filter_In in He as [He Hs].
  split; [now apply truthy_true|eauto].
Qed.

Lemma station_suggestion_candidate (p : Search.Params) (searchText v : string) :
  In v (Search.stationNameSuggestions p searchText) ->
  normalizeText (Some searchText) <> "" /\
  exists s, In s (Search.stations p) /\ candidate (normalizeText (Some searchText)) s v.
Proof.
  unfold Search.stationNameSuggestions.
  destruct (Js.truthy (normalizeText (Some searchText))) eqn:Hk; cbn [negb];
    [|intros []].
  intros Hin%In_take. apply (Permutation_in _ (sort_perm _ _)) in Hin.
  destruct (collect_spec (normalizeText (Some searchText)) (Search.stations p) []
              (List.NoDup_nil _)) as [_ Hspec].
  apply Hspec in Hin as [[]|Hc]. split; [now apply truthy_true|exact Hc].
Qed.

Lemma suggestion_kinds (p : Search.Params) (searchText : string) (item : SearchSuggestion) :
  In item (Search.searchSuggestions p searchText) ->
  (type item = Basin /\ In (value item) (Search.basinSuggestions p searchText)) \/
  (type item = StationT /\ In (value item) (Search.stationNameSuggestions p searchText)).
Proof.
  unfold Search.searchSuggestions. rewrite in_app_iff, !in_map_iff.
  intros [(v & <- & Hv)|(v & <- & Hv)]; simpl; auto.
Qed.

(** A text with a suggestion is not blank and resolves. *)
Lemma suggestions_resolve (stations : list Station) (searchText : string) :
  ignores_blanks ->
  Search.searchSuggestions (Search.leafletParams stations) searchText <> [] ->
  Js.trim searchText <> "" /\
  Search.resolve (Search.leafletParams stations) (Js.trim searchText) <> Search.RNone.
Proof.
  intros Hib Hne. pose proof Hib as [Htrim Hempty].
  set (p := Search.leafletParams stations) in *.
  destruct (Search.searchSuggestions p searchText) as [|item rest] eqn:Hs; [congruence|].
  assert (Hitem : In item (Search.searchSuggestions p searchText))
    by (rewrite Hs; simpl; auto).
  apply suggestion_kinds in Hitem as [[_ Hb]|[_ Hst]].
  - apply basin_suggestion_entry in Hb as (Hk & e & He & _ & Hstart).
    split.
    { intros Hblank. apply Hk. now apply blank_normalises_empty. }
    destruct (resolve_basin_hit p (Js.trim searchText) e) as (b & -> & _);
      [apply leaflet_basin_names|exact He| |discriminate].
    rewrite Htrim. now apply startsWith_includes.
  - apply station_suggestion_candidate in Hst as (Hk & s & Hs' & Hc).
    split.
    { intros Hblank. apply Hk. now apply blank_normalises_empty. }
    destruct (candidate_entry stations _ s (value item) Hib Hk Hs' Hc)
      as (e & He & _ & Hn).
    apply (resolve_station_hit p (Js.trim searchText) e He).
    apply stationMatches_spec. exists (normalizeText (Some (value item))).
    split; [exact Hn|]. right. rewrite Htrim.
    destruct Hc as (_ & _ & _ & _ & Hstart). now apply startsWith_includes.
Qed.

End SearchComposition.

(** X4. With a normaliser that does not see surrounding white space, a
    text for which there is at least one suggestion is never answered with
    a failure: once the map is ready, searching for it succeeds, clears the
    hint and puts a tab in front. *)
Theorem suggestion_implies_match `{MapUtils} `{Runtime} (stations : list Station)
    (searchText : string) (st : UiState) :
  ignores_blanks ->
  mapInstance st <> None ->
  Search.searchSuggestions (Search.leafletParams stations) searchText <> [] ->
  exists st',
    Search.performSearch (Search.leafletParams stations) searchText st = (true, st') /\
    searchHint st' = "" /\ is_Some (activeTab st').
Proof.
  intros Hib Hm Hs. destruct (suggestions_resolve stations searchText Hib Hs) as [Hk Hr].
  destruct (performSearch_resolved _ searchText st Hk Hm Hr) as (st' & Hp & Hh & Ha & _).
  eauto.
Qed.

(** For "Shin" there are suggestions among the sample stations, and the
    search opens the first basin that starts with it. *)
Lemma suggestion_implies_match_witness :
  exists st',
    @Search.performSearch Host.mapUtils
      (@Search.leafletParams Host.mapUtils Sample.shinStations) "Shin"
      (Sample.initialUi (Some [])) = (true, st') /\
    searchHint st' = "" /\ activeTab st' = Some TabBasin.
Proof.
  destruct (@suggestion_implies_match Host.mapUtils Host.runtime Sample.shinStations "Shin"
              (Sample.initialUi (Some [])) host_ignores_blanks)
    as (st' & Hp & Hh & _).
  - discriminate.
  - discriminate.
  - exists st'. split; [exact Hp|]. split; [exact Hh|].
    vm_compute in Hp. injection Hp as <-. reflexivity.
Defined.

Section SelectFacts.
Context `{MapUtils} `{Runtime}.

Lemma basin_entry_normalized (groups : BasinGroups) (e : BasinSearchIndexItem) :
  In e (basinSearchIndex groups) -> normalizedName e = normalizeText (Some (name e)).
Proof. unfold basinSearchIndex. intros (k & <- & _)%in_map_iff. reflexivity. Qed.

(** Searching for the name of a suggested basin finds, at the first stage,
    a basin with the same normalised name. *)
Lemma basin_suggestion_resolves (stations : list Station) (searchText v : string) :
  ignores_blanks ->
  In v (Search.basinSuggestions (Search.leafletParams stations) searchText) ->
  Js.trim v <> "" /\
  exists b, Search.resolve (Search.leafletParams stations) (Js.trim v) = Search.RBasin b /\
            normalizeText (Some b) = normalizeText (Some v).
Proof.
  intros Hib Hin. pose proof Hib as [Htrim Hempty].
  set (p := Search.leafletParams stations) in *.
  apply basin_suggestion_entry in Hin as (Hk & e & He & <- & Hstart).
  pose proof (basin_entry_normalized _ e He) as Hnorm.
  assert (Hne : normalizeText (Some (name e)) <> "").
  { rewrite <- Hnorm. exact (startsWith_nonempty _ _ Hstart Hk). }
  split.
  { intros Hblank. apply Hne. now apply blank_normalises_empty. }
  assert (Hexact : String.eqb (normalizedName e) (normalizeText (Some (Js.trim (name e))))
                   = true).
  { rewrite Htrim, Hnorm. apply String.eqb_refl. }
  destruct (find_exists
              (fun e0 => String.eqb (normalizedName e0)
                           (normalizeText (Some (Js.trim (name e)))))
              _ e He Hexact) as [e0 Hfind].
  pose proof Hfind as Hfind'. unfold Js.find in Hfind'.
  apply find_some in Hfind' as [He0 Heq]. apply String.eqb_eq in Heq.
  exists (name e0). split.
  - apply resolve_basin; [|apply leaflet_basin_names].
    unfold Search.findBasin. fold p. now rewrite Hfind.
  - rewrite <- (basin_entry_normalized _ e0 He0), Heq. apply Htrim.
Qed.

(** Searching for a suggested station name resolves. *)
Lemma station_suggestion_resolves (stations : list Station) (searchText v : string) :
  ignores_blanks ->
  In v (Search.stationNameSuggestions (Search.leafletParams stations) searchText) ->
  Js.trim v <> "" /\
  Search.resolve (Search.leafletParams stations) (Js.trim v) <> Search.RNone.
Proof.
  intros Hib Hin. pose proof Hib as [Htrim Hempty].
  apply station_suggestion_candidate in Hin as (Hk & s & Hs & Hc).
  destruct (candidate_entry stations _ s v Hib Hk Hs Hc) as (e & He & _ & Hn).
  destruct Hc as (_ & _ & _ & _ & Hstart).
  split.
  { intros Hblank. apply (startsWith_nonempty _ _ Hstart Hk).
    now apply blank_normalises_empty. }
  apply (resolve_station_hit (Search.leafletParams stations) (Js.trim v) e He).
  apply stationMatches_spec. exists (normalizeText (Some v)).
  split; [exact Hn|]. left. symmetry. apply Htrim.
Qed.

(** The hint line after a search that went past the two input checks. *)
Lemma searchHintText_after (p : Search.Params) (st st' : UiState) :
  Js.trim (searchText st) <> "" ->
  searchText st' = searchText st ->
  searchHint st' = "" \/ searchHint st' = Search.noMatchHint p ->
  Search.searchHintText p st' =
    if 0 <? length (Search.searchSuggestions p (searchText st)) then ""
    else Search.noMatchHint p.
Proof.
  intros Hk%truthy_true Ht Hh. unfold Search.searchHintText. rewrite Ht, Hk.
  destruct Hh as [-> | ->]; [reflexivity|].
  rewrite String.eqb_refl, andb_false_r. reflexivity.
Qed.

End SelectFacts.

(** X5. With a normaliser that does not see surrounding white space and a
    ready map, choosing any suggestion of the list succeeds: the chosen
    value becomes the search text, the hint is cleared and a tab is put in
    front. For a basin suggestion it is the tab of a basin with the same
    normalised name as the suggestion. *)
Theorem suggestion_select_succeeds `{MapUtils} `{Runtime} (stations : list Station)
    (text : string) (item : SearchSuggestion) (st : UiState) :
  ignores_blanks ->
  mapInstance st <> None ->
  In item (Search.searchSuggestions (Search.leafletParams stations) text) ->
  let st' := Search.handleSuggestionSelect (Search.leafletParams stations) item st in
  searchText st' = value item /\
  searchHint st' = "" /\
  is_Some (activeTab st') /\
  (type item = Basin ->
   exists tab, basinTab st' = Some tab /\ activeTab st' = Some TabBasin /\
               normalizeText (Some (basinName tab)) = normalizeText (Some (value item))).
Proof.
  intros Hib Hm Hitem st'. unfold Search.handleSuggestionSelect in st'.
  set (st1 := setSelectedSearchItem _ (setSearchText (value item) st)) in st'.
  assert (Hm1 : mapInstance st1 <> None) by exact Hm.
  assert (Hres : Js.trim (value item) <> "" /\
                 Search.resolve (Search.leafletParams stations) (Js.trim (value item))
                 <> Search.RNone).
  { destruct (suggestion_kinds _ _ _ Hitem) as [[_ Hb]|[_ Hs]].
    - destruct (basin_suggestion_resolves stations text _ Hib Hb) as (Hk & b & -> & _).
      split; [exact Hk|discriminate].
    - now apply (station_suggestion_resolves stations text). }
  destruct Hres as [Hk Hr].
  destruct (performSearch_resolved _ (value item) st1 Hk Hm1 Hr)
    as (st2 & Hp & Hh & Ha & Ht).
  subst st'. rewrite Hp. simpl snd.
  split; [exact Ht|]. split; [exact Hh|]. split; [exact Ha|].
  intros Hbasin. destruct (suggestion_kinds _ _ _ Hitem) as [[_ Hb]|[Hs _]]; [|congruence].
  destruct (basin_suggestion_resolves stations text _ Hib Hb) as (_ & b & Hrb & Hnorm).
  destruct (performSearch_basin _ (value item) st1 b Hk Hm1 Hrb)
    as (st3 & Hp3 & Htab & Hact & _).
  rewrite Hp in Hp3. injection Hp3 as <-.
  eexists. split; [exact Htab|]. split; [exact Hact|exact Hnorm].
Qed.

(** Among the sample stations "Shinagawa" is suggested for "shin"; choosing
    it commits the first station of that name. *)
Lemma suggestion_select_succeeds_witness :
  let p := @Search.leafletParams Host.mapUtils Sample.shinStations in
  let st' := @Search.handleSuggestionSelect Host.mapUtils p
               {| value := "Shinagawa"; type := StationT |} (Sample.initialUi (Some [])) in
  searchText st' = "Shinagawa" /\ searchHint st' = "" /\
  activeTab st' = Some TabStation /\ selectedStationId st' = Some "201".
Proof.
  intros p st'.
  destruct (@suggestion_select_succeeds Host.mapUtils Host.runtime Sample.shinStations
              "shin" {| value := "Shinagawa"; type := StationT |}
              (Sample.initialUi (Some [])) host_ignores_blanks)
    as (Ht & Hh & _).
  - discriminate.
  - vm_compute. auto 20.
  - split; [exact Ht|]. split; [exact Hh|]. split; reflexivity.
Defined.

(** X6. After a submitted search that went past the input checks, the hint
    line does not depend on the outcome: it is empty when the text has a
    suggestion and the no-match hint when it has none, also after a search
    that succeeded. With a normaliser that does not see surrounding white
    space a failed search has no suggestion, so it always shows the
    no-match hint. *)
Theorem hint_after_submit `{MapUtils} `{Runtime} (p : Search.Params) (st : UiState) :
  mapInstance st <> None ->
  Js.trim (searchText st) <> "" ->
  Search.searchHintText p (Search.handleSearchSubmit p st) =
    (if 0 <? length (Search.searchSuggestions p (searchText st)) then ""
     else Search.noMatchHint p) /\
  (forall stations,
     p = Search.leafletParams stations -> ignores_blanks ->
     fst (Search.performSearch p (searchText st) st) = false ->
     Search.searchSuggestions p (searchText st) = [] /\
     Search.searchHintText p (Search.handleSearchSubmit p st) = Search.noMatchHint p).
Proof.
  intros Hm Hk.
  assert (Hfirst : Search.searchHintText p (Search.handleSearchSubmit p st) =
                   if 0 <? length (Search.searchSuggestions p (searchText st)) then ""
                   else Search.noMatchHint p).
  { unfold Search.handleSearchSubmit.
    destruct (Search.resolve p (Js.trim (searchText st))) eqn:Hr.
    - destruct (performSearch_resolved p (searchText st) st Hk Hm)
        as (st' & -> & Hh & _ & Ht); [congruence|].
      apply searchHintText_after; auto.
    - destruct (performSearch_resolved p (searchText st) st Hk Hm)
        as (st' & -> & Hh & _ & Ht); [congruence|].
      apply searchHintText_after; auto.
    - rewrite (performSearch_none p (searchText st) st Hk Hm Hr).
      apply searchHintText_after; auto. }
  split; [exact Hfirst|].
  intros stations Hp Hib Hfail. subst p.
  assert (Hnone : Search.searchSuggestions (Search.leafletParams stations) (searchText st)
                  = []).
  { destruct (Search.searchSuggestions _ (searchText st)) as [|item rest] eqn:Hs;
      [reflexivity|].
    destruct (suggestions_resolve stations (searchText st) Hib) as [_ Hr];
      [rewrite Hs; discriminate|].
    destruct (performSearch_resolved _ (searchText st) st Hk Hm Hr) as (st' & Hp & _).
    rewrite Hp in Hfail. discriminate. }
  split; [exact Hnone|]. rewrite Hnone in Hfirst. exact Hfirst.
Qed.

(** "kitam" has no suggestion among the sample stations, yet the search
    opens the basin Okitama, which contains it: the hint line shows the
    no-match hint beside the opened basin. *)
Lemma hint_after_submit_witness :
  let p := @Search.leafletParams Host.mapUtils Sample.stations in
  let st := setSearchText "kitam" (Sample.initialUi (Some [])) in
  let st' := @Search.handleSearchSubmit Host.mapUtils p st in
  activeTab st' = Some TabBasin /\
  option_map basinName (basinTab st') = Some "Okitama" /\
  @Search.searchHintText Host.mapUtils Host.runtime p st' = Search.leafletNoMatchHint.
Proof.
  intros p st st'.
  destruct (@hint_after_submit Host.mapUtils Host.runtime p st) as [Hhint _].
  - discriminate.
  - vm_compute. discriminate.
  - split; [reflexivity|]. split; [reflexivity|]. subst st'. rewrite Hhint. reflexivity.
Defined.

(** * Reachable states of the page *)

Section MachineFacts.
Context `{MapUtils}.

Lemma consistent_ext (groups : BasinGroups) (st st' : UiState) :
  basinTab st' = basinTab st -> stationTab st' = stationTab st ->
  activeTab st' = activeTab st -> selectedStationId st' = selectedStationId st ->
  tabs_consistent groups st -> tabs_consistent groups st'.
Proof. unfold tabs_consistent. intros -> -> -> ->. tauto. Qed.

Lemma resolve_RBasin_truthy (p : Search.Params) (keyword b : string) :
  Search.resolve p keyword = Search.RBasin b -> b <> "".
Proof.
  unfold Search.resolve.
  destruct (Search.findBasin _ _) as [b0|].
  - destruct (Js.truthy b0) eqn:Hb.
    + intros [= <-]. now apply truthy_true.
    + destruct (Search.findStation _ _); discriminate.
  - destruct (Search.findStation _ _); discriminate.
Qed.

Lemma performSearch_consistent (p : Search.Params) (rawKeyword : string) (st : UiState) :
  tabs_consistent (Search.groups p) st ->
  tabs_consistent (Search.groups p) (snd (Search.performSearch p rawKeyword st)).
Proof.
  intros Hinv.
  destruct (Js.truthy (Js.trim rawKeyword)) eqn:Hk.
  2:{ unfold Search.performSearch. rewrite Hk. simpl.
      revert Hinv. now apply consistent_ext. }
  destruct (mapInstance st) as [log|] eqn:Hm.
  2:{ unfold Search.performSearch. rewrite Hk, Hm. simpl.
      revert Hinv. now apply consistent_ext. }
  apply truthy_true in Hk.
  assert (Hm' : mapInstance st <> None) by congruence.
  destruct (Search.resolve p (Js.trim rawKeyword)) as [b|s|] eqn:Hr.
  - destruct (performSearch_basin p rawKeyword st b Hk Hm' Hr)
      as (st' & -> & Hb & Ha & _). cbn [snd]. unfold tabs_consistent.
    split; [congruence|]. split; [rewrite Hb; eauto|].
    intros tab. rewrite Hb. intros [= <-]. simpl.
    split; [exact (resolve_RBasin_truthy _ _ _ Hr)|reflexivity].
  - destruct (performSearch_station p rawKeyword st s Hk Hm' Hr)
      as (st' & -> & Hs & Ha & Hi & Hb & _). cbn [snd]. unfold tabs_consistent.
    split; [eauto|]. split; [congruence|]. rewrite Hb. apply Hinv.
  - rewrite (performSearch_none p rawKeyword st Hk Hm' Hr). simpl.
    revert Hinv. now apply consistent_ext.
Qed.

Lemma step_consistent (p : Search.Params) (st : UiState) (action : Panel.Action) :
  tabs_consistent (Search.groups p) st ->
  tabs_consistent (Search.groups p) (Panel.step p st action).
Proof.
  intros Hinv.
  destruct action as [|station|stationId| | | | |bname|text| |item]; cbn [Panel.step].
  - revert Hinv. now apply consistent_ext.
  - destruct Hinv as (_ & _ & Htab). unfold tabs_consistent. simpl.
    split; [eauto|]. split; [discriminate|exact Htab].
  - revert Hinv. now apply consistent_ext.
  - unfold MapState.handleActivateStationTab.
    destruct (stationTab st) as [s|] eqn:Hs; [|exact Hinv].
    destruct Hinv as (_ & _ & Htab). unfold tabs_consistent. simpl.
    split; [eauto|]. split; [discriminate|exact Htab].
  - unfold MapState.handleActivateBasinTab.
    destruct (basinTab st) as [tab|] eqn:Hb; [|exact Hinv].
    destruct Hinv as (_ & _ & Htab). unfold tabs_consistent. simpl.
    split; [discriminate|]. split; [rewrite Hb; eauto|intros tab' Ht'; apply Htab; congruence].
  - destruct Hinv as (_ & _ & Htab). unfold MapState.handleCloseStationTab.
    destruct (basinTab st) as [tab|] eqn:Hb; unfold tabs_consistent; simpl.
    + split; [discriminate|]. split; [rewrite Hb; eauto|intros tab' Ht'; apply Htab; congruence].
    + split; [discriminate|]. split; [discriminate|intros tab' Ht'; apply Htab; congruence].
  - destruct Hinv as (Hst & _ & _). unfold MapState.handleCloseBasinTab.
    destruct (activeTab st) as [[|]|] eqn:Ha.
    + destruct (stationTab st) as [s|] eqn:Hs; unfold tabs_consistent; simpl.
      * split; [rewrite Hs; eauto|]. split; discriminate.
      * split; [discriminate|]. split; discriminate.
    + unfold tabs_consistent. simpl. rewrite Ha.
      split; [intros _; now apply Hst|]. split; discriminate.
    + unfold tabs_consistent. simpl. rewrite Ha.
      split; [discriminate|]. split; discriminate.
  - unfold MapState.handleOpenBasinTab.
    destruct (Js.truthy (Js.trim bname)) eqn:Hk; cbn [negb]; [|exact Hinv].
    unfold tabs_consistent. simpl.
    split; [discriminate|]. split; [eauto|].
    intros tab [= <-]. simpl. split; [now apply truthy_true|reflexivity].
  - unfold Search.handleSearchTextChange.
    destruct (Js.truthy (searchHint st)); revert Hinv; now apply consistent_ext.
  - now apply performSearch_consistent.
  - unfold Search.handleSuggestionSelect. apply performSearch_consistent.
    revert Hinv. now apply consistent_ext.
Qed.

Lemma run_consistent (p : Search.Params) (actions : list Panel.Action) (st : UiState) :
  tabs_consistent (Search.groups p) st ->
  tabs_consistent (Search.groups p) (Panel.run p actions st).
Proof.
  revert st. induction actions as [|action actions IH]; intros st Hinv; [exact Hinv|].
  simpl. apply IH. now apply step_consistent.
Qed.

Lemma initial_consistent (groups : BasinGroups) : tabs_consistent groups Panel.initial.
Proof. split; [discriminate|]. split; discriminate. Qed.

End MachineFacts.

(** X7. In every state the page can reach from its initial state, by any
    sequence of map, tab and search actions, the tabs fit together: a
    station tab in front exists and is the selected station, a basin tab in
    front exists, and a basin tab names a basin and carries the size of its
    group. Hence the side panel is open exactly when a tab is in front, and
    exactly then the event hook has a tab key; and the highlighted stations
    of a basin in front are as many as its tab says. *)
Theorem reachable_tabs_consistent `{MapUtils} (p : Search.Params)
    (actions : list Panel.Action) :
  let st := Panel.run p actions Panel.initial in
  tabs_consistent (Search.groups p) st /\
  (forall ranges presets summaryData rangeData,
     let r := Panel.render {| Panel.ui := st; Panel.dateRanges := ranges;
                              Panel.presets := presets |} summaryData rangeData in
     (Events.isOpen r = true <-> is_Some (activeTab st)) /\
     (is_Some (Events.activeTabKey r) <-> is_Some (activeTab st))) /\
  (forall tab, activeTab st = Some TabBasin -> basinTab st = Some tab ->
               length (Panel.basinHighlightedStationIds (Search.groups p) st)
               = stationCount tab).
Proof.
  intros st.
  assert (Hinv : tabs_consistent (Search.groups p) st)
    by apply run_consistent, initial_consistent.
  split; [exact Hinv|]. destruct Hinv as (Hst & Hb & Htab). split.
  - intros ranges presets summaryData rangeData r.
    unfold Events.isOpen, Events.activeTabKey, Events.currentStation, Events.currentBasin.
    simpl. destruct (activeTab st) as [[|]|] eqn:Ha.
    + destruct (Hb eq_refl) as [tab Htb]. rewrite Htb. cbn [option_map].
      destruct (Htab tab Htb) as [Hname%truthy_true _]. rewrite Hname.
      split; split; intros _; eauto; apply bool_decide_eq_true; eauto.
    + destruct (Hst eq_refl) as (s & Hs & _). rewrite Hs.
      split; split; intros _; eauto; apply bool_decide_eq_true; eauto.
    + split; split; try discriminate; intros [x Hx]; discriminate.
  - intros tab Ha Htb. unfold Panel.basinHighlightedStationIds. rewrite Htb, Ha.
    rewrite length_map. symmetry. now apply Htab.
Qed.

(** X8. Closing both tabs, in either order and from any state, leaves no
    tab and nothing in front. *)
Theorem closing_both_tabs_empties (st : UiState) :
  let a := MapState.handleCloseBasinTab (MapState.handleCloseStationTab st) in
  let b := MapState.handleCloseStationTab (MapState.handleCloseBasinTab st) in
  (stationTab a = None /\ basinTab a = None /\ activeTab a = None /\
   selectedStationId a = None /\ previewStationId a = None) /\
  (stationTab b = None /\ basinTab b = None /\ activeTab b = None /\
   selectedStationId b = None /\ previewStationId b = None).
Proof.
  split.
  - unfold MapState.handleCloseStationTab, MapState.handleCloseBasinTab.
    destruct (basinTab st); simpl; repeat split; reflexivity.
  - unfold MapState.handleCloseStationTab, MapState.handleCloseBasinTab.
    destruct (activeTab st) as [[|]|]; [destruct (stationTab st)| |];
      simpl; repeat split; reflexivity.
Qed.

(** * Tab keys, requests and per-tab state *)

Section KeyFacts.
Context `{Runtime}.

Lemma station_key_inj (a b : string) : "s:" +:+ a = "s:" +:+ b -> a = b.
Proof. cbv [String.append]. fold String.append. now intros [= ->]. Qed.

Lemma basin_key_inj (a b : string) : "b:" +:+ a = "b:" +:+ b -> a = b.
Proof. cbv [String.append]. fold String.append. now intros [= ->]. Qed.

Lemma station_key_not_basin (a b : string) : "s:" +:+ a <> "b:" +:+ b.
Proof. cbv [String.append]. fold String.append. discriminate. Qed.

(** The three shapes of a render: a station in front, a basin in front,
    nothing. *)
Lemma render_shape (r : Events.Render) :
  (exists s, Events.currentStation r = Some s /\
             Events.activeTabKey r = Some ("s:" +:+ station_id s) /\
             Events.eventsBasePath r = Some ("/api/stations/" +:+ station_id s +:+ "/events")) \/
  (exists b, Events.currentStation r = None /\ Events.currentBasin r = Some b /\ b <> "" /\
             Events.activeTabKey r = Some ("b:" +:+ b) /\
             Events.eventsBasePath r =
               Some ("/api/basins/" +:+ encodeURIComponent b +:+ "/events")) \/
  (Events.currentStation r = None /\ Events.activeTabKey r = None /\
   Events.eventsBasePath r = None).
Proof.
  unfold Events.activeTabKey, Events.eventsBasePath.
  destruct (Events.currentStation r) as [s|]; [left; eauto|].
  destruct (Events.currentBasin r) as [b|]; [|right; right; auto].
  destruct (Js.truthy b) eqn:Hb; [|right; right; auto].
  right. left. exists b. apply truthy_true in Hb. auto.
Qed.

Lemma summaryRequestUrl_eq (r : Events.Render) :
  Events.summaryRequestUrl r =
    option_map (fun base => {| Events.path := base;
                               Events.query := [("includeRecent", "0")] |})
      (Events.eventsBasePath r).
Proof.
  unfold Events.summaryRequestUrl.
  destruct (Events.eventsBasePath r) as [base|] eqn:Hb; [|reflexivity].
  now rewrite (eventsBasePath_truthy r base Hb).
Qed.

Lemma rangeRequestUrl_path (r : Events.Render) (u : Events.Url) :
  Events.rangeRequestUrl r = Some u -> Events.eventsBasePath r = Some (Events.path u).
Proof.
  unfold Events.rangeRequestUrl.
  destruct (Events.eventsBasePath r) as [base|]; [|discriminate].
  destruct (Events.rangeStartDate r) as [rs|]; [|discriminate].
  destruct (Events.rangeEndDate r) as [re|]; [|discriminate].
  destruct (_ || _); [discriminate|]. now intros [= <-].
Qed.

Lemma boundChanged_same (b : option string) : Events.boundChanged b b = false.
Proof.
  unfold Events.boundChanged. case_bool_decide; [|congruence].
  simpl. now rewrite andb_false_r.
Qed.

(** No override and no preset: no ranged request. *)
Lemma default_range_no_request (r : Events.Render) :
  Events.peakStartDate r = "" -> Events.peakEndDate r = "" ->
  Events.selectedPreset r = None ->
  Events.rangeStartDate r = Events.minPeakDate r /\
  Events.rangeEndDate r = Events.maxPeakDate r /\
  Events.rangeRequestUrl r = None.
Proof.
  intros Hs He Hp.
  assert (Hrs : Events.rangeStartDate r = Events.minPeakDate r)
    by (unfold Events.rangeStartDate; now rewrite Hs).
  assert (Hre : Events.rangeEndDate r = Events.maxPeakDate r)
    by (unfold Events.rangeEndDate; now rewrite He).
  split; [exact Hrs|]. split; [exact Hre|].
  assert (Hshould : Events.shouldFetchRangeData r = false).
  { unfold Events.shouldFetchRangeData, Events.hasDateFilterChanged.
    rewrite Hp, Hrs, Hre, !boundChanged_same.
    case_bool_decide as Hsome; [|reflexivity]. destruct Hsome as [x Hx]. discriminate. }
  unfold Events.rangeRequestUrl. rewrite Hshould.
  destruct (Events.eventsBasePath r); [|reflexivity].
  destruct (Events.rangeStartDate r); [|reflexivity].
  destruct (Events.rangeEndDate r); [|reflexivity].
  now rewrite !orb_true_r.
Qed.

Lemma samePreset_spec (a b : Events.ChartPresetId) :
  Panel.samePreset a b = true <-> a = b.
Proof. destruct a, b; simpl; split; congruence. Qed.

Lemma selectedPreset_set (r : Events.Render) (key : string)
    (v : option Events.ChartPresetId) (dict : gmap string (option Events.ChartPresetId)) :
  Events.activeTabKey r = Some key ->
  Events.selectedPreset (Events.setSelectedPresetByTab (<[key := v]> dict) r) = v.
Proof.
  intros Hkey. unfold Events.selectedPreset.
  change (Events.activeTabKey (Events.setSelectedPresetByTab (<[key := v]> dict) r))
    with (Events.activeTabKey r).
  rewrite Hkey. simpl. now rewrite lookup_insert_eq.
Qed.

Lemma togglePreset_selected (r : Events.Render) (preset : Events.ChartPresetId) :
  is_Some (Events.activeTabKey r) ->
  Events.selectedPreset (Panel.togglePreset preset r) =
    match Events.selectedPreset r with
    | Some current => if Panel.samePreset current preset then None else Some preset
    | None => Some preset
    end.
Proof.
  intros [key Hkey]. unfold Panel.togglePreset. rewrite Hkey.
  rewrite (selectedPreset_set r key _ _ Hkey).
  unfold Events.selectedPreset. now rewrite Hkey.
Qed.

End KeyFacts.

(** X9. The tab key identifies the selection: two renders with the same
    key have a station of the same identifier in front, or the same basin,
    and ask for the same summary. A station and a basin never share a key,
    whatever their names. *)
Theorem tab_key_identifies_selection `{Runtime} (r1 r2 : Events.Render) (key : string) :
  Events.activeTabKey r1 = Some key ->
  Events.activeTabKey r2 = Some key ->
  option_map station_id (Events.currentStation r1) =
    option_map station_id (Events.currentStation r2) /\
  (Events.currentStation r1 = None -> Events.currentBasin r1 = Events.currentBasin r2) /\
  Events.eventsBasePath r1 = Events.eventsBasePath r2 /\
  Events.summaryRequestUrl r1 = Events.summaryRequestUrl r2.
Proof.
  intros H1 H2.
  assert (Hcore :
    option_map station_id (Events.currentStation r1) =
      option_map station_id (Events.currentStation r2) /\
    (Events.currentStation r1 = None -> Events.currentBasin r1 = Events.currentBasin r2) /\
    Events.eventsBasePath r1 = Events.eventsBasePath r2).
  { destruct (render_shape r1) as [(s1 & Hs1 & Hk1 & Hp1)|[(b1 & Hs1 & Hb1 & _ & Hk1 & Hp1)|(_ & Hk1 & _)]];
      [| |congruence];
    destruct (render_shape r2) as [(s2 & Hs2 & Hk2 & Hp2)|[(b2 & Hs2 & Hb2 & _ & Hk2 & Hp2)|(_ & Hk2 & _)]];
      try congruence.
    - assert (Hid : station_id s1 = station_id s2)
        by (apply station_key_inj; congruence).
      rewrite Hs1, Hs2, Hp1, Hp2, Hid. simpl. rewrite Hid. split; [reflexivity|].
      split; [discriminate|reflexivity].
    - exfalso. apply (station_key_not_basin (station_id s1) b2). congruence.
    - exfalso. apply (station_key_not_basin (station_id s2) b1). congruence.
    - assert (Hb : b1 = b2) by (apply basin_key_inj; congruence).
      rewrite Hs1, Hs2, Hp1, Hp2, Hb1, Hb2, Hb. auto. }
  destruct Hcore as (Hid & Hb & Hp). split; [exact Hid|]. split; [exact Hb|].
  split; [exact Hp|]. now rewrite !summaryRequestUrl_eq, Hp.
Qed.

(** The station in front of the sample render gives the key "s:101"; a
    render with the same key and other dictionaries asks for the same
    summary. *)
Lemma tab_key_identifies_selection_witness :
  @Events.summaryRequestUrl Host.runtime Sample.fullHistory =
  @Events.summaryRequestUrl Host.runtime Sample.year2010 /\
  @Events.summaryRequestUrl Host.runtime Sample.fullHistory =
    Some {| Events.path := "/api/stations/101/events";
            Events.query := [("includeRecent", "0")] |}.
Proof.
  destruct (@tab_key_identifies_selection Host.runtime Sample.fullHistory Sample.year2010
              "s:101" eq_refl eq_refl) as (_ & _ & _ & Hsum).
  split; [exact Hsum|reflexivity].
Defined.

(** X10. A summary is requested exactly when there is a tab key, and a
    ranged request goes to the path of the summary request. Without a tab
    key there is no ranged request, and date edits and preset clicks are
    dropped. *)
Theorem no_selection_no_effect `{Runtime} (r : Events.Render) :
  (is_Some (Events.summaryRequestUrl r) <-> is_Some (Events.activeTabKey r)) /\
  (forall u, Events.rangeRequestUrl r = Some u ->
             exists v, Events.summaryRequestUrl r = Some v /\
                       Events.path v = Events.path u /\
                       Events.query v = [("includeRecent", "0")]) /\
  (Events.activeTabKey r = None ->
   Events.rangeRequestUrl r = None /\
   forall next preset,
     Events.setStartDate next r = r /\ Events.setEndDate next r = r /\
     Panel.togglePreset preset r = r).
Proof.
  split; [|split].
  - rewrite summaryRequestUrl_eq.
    destruct (render_shape r) as [(s & _ & -> & ->)|[(b & _ & _ & _ & -> & ->)|(_ & -> & ->)]];
      simpl; split; eauto; intros [x Hx]; discriminate.
  - intros u Hu. rewrite summaryRequestUrl_eq, (rangeRequestUrl_path r u Hu). simpl. eauto.
  - intros Hkey. split.
    + destruct (Events.rangeRequestUrl r) as [u|] eqn:Hu; [|reflexivity].
      apply rangeRequestUrl_path in Hu.
      destruct (render_shape r) as [(s & _ & Hk & _)|[(b & _ & _ & _ & Hk & _)|(_ & _ & Hp)]];
        congruence.
    + intros next preset.
      unfold Events.setStartDate, Events.setEndDate, Panel.togglePreset. now rewrite Hkey.
Qed.

(** X11. A date edit or a preset click changes the entry of the tab in
    front and nothing else: the range and the preset of every other tab
    stay as they are, a date edit leaves all presets alone, and a preset
    click leaves all ranges alone. *)
Theorem edits_touch_active_tab_only (r : Events.Render) (other : string) :
  Events.activeTabKey r <> Some other ->
  forall next preset,
    Events.peakDateRangeByTab (Events.setStartDate next r) !! other =
      Events.peakDateRangeByTab r !! other /\
    Events.peakDateRangeByTab (Events.setEndDate next r) !! other =
      Events.peakDateRangeByTab r !! other /\
    Events.selectedPresetByTab (Panel.togglePreset preset r) !! other =
      Events.selectedPresetByTab r !! other /\
    Events.selectedPresetByTab (Events.setStartDate next r) = Events.selectedPresetByTab r /\
    Events.selectedPresetByTab (Events.setEndDate next r) = Events.selectedPresetByTab r /\
    Events.peakDateRangeByTab (Panel.togglePreset preset r) = Events.peakDateRangeByTab r.
Proof.
  intros Hother next preset.
  unfold Events.setStartDate, Events.setEndDate, Panel.togglePreset.
  destruct (Events.activeTabKey r) as [key|]; [|repeat split; reflexivity].
  assert (Hne : key <> other) by congruence. simpl.
  rewrite !lookup_insert_ne by exact Hne. repeat split; reflexivity.
Qed.

(** The station tab is in front: a start date and a preset click leave the
    range of the basin tab as it was. *)
Lemma edits_touch_active_tab_only_witness :
  let r := Panel.render Cases.twoTabs (Some Sample.summaryKnown) None in
  Events.peakDateRangeByTab (Events.setStartDate "2015-05-05" r) !! "b:Tone" =
    Some {| Events.range_start := "2001-01-01"; Events.range_end := "2002-02-02" |} /\
  Events.peakDateRangeByTab (Panel.togglePreset Events.timeline_all r) !! "b:Tone" =
    Some {| Events.range_start := "2001-01-01"; Events.range_end := "2002-02-02" |}.
Proof.
  intros r.
  destruct (edits_touch_active_tab_only r "b:Tone") with
    (next := "2015-05-05") (preset := Events.timeline_all)
    as (Hs & _ & _ & _ & _ & Hp).
  - discriminate.
  - split; [rewrite Hs; reflexivity|rewrite Hp; reflexivity].
Defined.

Section CloseFacts.
Context `{Runtime}.

(** A render whose key has no entry in either dictionary shows the default
    span and asks for no range. *)
Lemma fresh_tab_defaults (r : Events.Render) (key : string) :
  Events.activeTabKey r = Some key ->
  Events.peakDateRangeByTab r !! key = None ->
  Events.selectedPresetByTab r !! key = None ->
  Events.rangeStartDate r = Events.minPeakDate r /\
  Events.rangeEndDate r = Events.maxPeakDate r /\
  Events.selectedPreset r = None /\
  Events.rangeRequestUrl r = None.
Proof.
  intros Hkey Hd Hp.
  assert (Hsel : Events.selectedPreset r = None)
    by (unfold Events.selectedPreset; now rewrite Hkey, Hp).
  destruct (default_range_no_request r) as (Hs & He & Hu); [| |exact Hsel|auto].
  - unfold Events.peakStartDate, Events.currentTabDateRange. now rewrite Hkey, Hd.
  - unfold Events.peakEndDate, Events.currentTabDateRange. now rewrite Hkey, Hd.
Qed.

Lemma clear_both (r : Events.Render) (key : string) :
  key <> "" ->
  let r' := Events.clearTabDateRange (Some key) (Events.clearTabPreset (Some key) r) in
  Events.peakDateRangeByTab r' = delete key (Events.peakDateRangeByTab r) /\
  Events.selectedPresetByTab r' = delete key (Events.selectedPresetByTab r).
Proof.
  intros Hk%truthy_true. unfold Events.clearTabDateRange, Events.clearTabPreset.
  rewrite Hk. split; reflexivity.
Qed.

End CloseFacts.

(** X12. The close button of a tab forgets the range and the preset of
    that tab and of no other. When the same station, or the same basin, is
    in front again later, it shows the default span, no chart, and asks for
    no range. *)
Theorem close_forgets_tab_state `{Runtime} (a : Panel.App) :
  (forall s, stationTab (Panel.ui a) = Some s ->
     let key := "s:" +:+ station_id s in
     let a' := Panel.closeStationClick a in
     Panel.ui a' = MapState.handleCloseStationTab (Panel.ui a) /\
     Panel.dateRanges a' = delete key (Panel.dateRanges a) /\
     Panel.presets a' = delete key (Panel.presets a) /\
     forall u s' summaryData rangeData,
       activeTab u = Some TabStation -> stationTab u = Some s' ->
       station_id s' = station_id s ->
       let r := Panel.render {| Panel.ui := u; Panel.dateRanges := Panel.dateRanges a';
                                Panel.presets := Panel.presets a' |}
                  summaryData rangeData in
       Events.rangeStartDate r = Events.minPeakDate r /\
       Events.rangeEndDate r = Events.maxPeakDate r /\
       Events.selectedPreset r = None /\
       Events.rangeRequestUrl r = None) /\
  (forall tab, basinTab (Panel.ui a) = Some tab -> basinName tab <> "" ->
     let key := "b:" +:+ basinName tab in
     let a' := Panel.closeBasinClick a in
     Panel.ui a' = MapState.handleCloseBasinTab (Panel.ui a) /\
     Panel.dateRanges a' = delete key (Panel.dateRanges a) /\
     Panel.presets a' = delete key (Panel.presets a) /\
     forall u tab' summaryData rangeData,
       activeTab u = Some TabBasin -> basinTab u = Some tab' ->
       basinName tab' = basinName tab ->
       let r := Panel.render {| Panel.ui := u; Panel.dateRanges := Panel.dateRanges a';
                                Panel.presets := Panel.presets a' |}
                  summaryData rangeData in
       Events.rangeStartDate r = Events.minPeakDate r /\
       Events.rangeEndDate r = Events.maxPeakDate r /\
       Events.selectedPreset r = None /\
       Events.rangeRequestUrl r = None).
Proof.
  split.
  - intros s Hs key a'.
    assert (Hkey : key <> "") by (cbv [key String.append]; discriminate).
    destruct (clear_both (Panel.render a None None) key Hkey) as [Hd Hp].
    assert (Hd' : Panel.dateRanges a' = delete key (Panel.dateRanges a)).
    { subst a'. unfold Panel.closeStationClick. rewrite Hs. exact Hd. }
    assert (Hp' : Panel.presets a' = delete key (Panel.presets a)).
    { subst a'. unfold Panel.closeStationClick. rewrite Hs. exact Hp. }
    split; [reflexivity|]. split; [exact Hd'|]. split; [exact Hp'|].
    clearbody a'.
    intros u s' summaryData rangeData Ha Hs' Hid r.
    apply (fresh_tab_defaults r key).
    + unfold Events.activeTabKey, Events.currentStation. simpl.
      rewrite Ha, Hs'. unfold key. now rewrite Hid.
    + simpl. rewrite Hd'. apply lookup_delete_eq.
    + simpl. rewrite Hp'. apply lookup_delete_eq.
  - intros tab Htab Hname key a'.
    assert (Hkey : key <> "") by (cbv [key String.append]; discriminate).
    destruct (clear_both (Panel.render a None None) key Hkey) as [Hd Hp].
    assert (Hd' : Panel.dateRanges a' = delete key (Panel.dateRanges a)).
    { subst a'. unfold Panel.closeBasinClick. rewrite Htab. exact Hd. }
    assert (Hp' : Panel.presets a' = delete key (Panel.presets a)).
    { subst a'. unfold Panel.closeBasinClick. rewrite Htab. exact Hp. }
    split; [reflexivity|]. split; [exact Hd'|]. split; [exact Hp'|].
    clearbody a'.
    intros u tab' summaryData rangeData Ha Htab' Hsame r.
    apply (fresh_tab_defaults r key).
    + unfold Events.activeTabKey, Events.currentStation, Events.currentBasin. simpl.
      rewrite Ha, Htab'. simpl. rewrite Hsame.
      apply truthy_true in Hname. now rewrite Hname.
    + simpl. rewrite Hd'. apply lookup_delete_eq.
    + simpl. rewrite Hp'. apply lookup_delete_eq.
Qed.

(** With both tabs open and a range on each, closing the station tab drops
    the range and the chart of the station and keeps the range of the
    basin; the station opened again shows its whole history. *)
Lemma close_forgets_tab_state_witness :
  let a' := Panel.closeStationClick Cases.twoTabs in
  Panel.dateRanges a' !! "s:101" = None /\
  Panel.presets a' !! "s:101" = None /\
  Panel.dateRanges a' !! "b:Tone" =
    Some {| Events.range_start := "2001-01-01"; Events.range_end := "2002-02-02" |} /\
  let r := Panel.render
             {| Panel.ui := MapState.commitStationSelection Sample.maebashi (Panel.ui a');
                Panel.dateRanges := Panel.dateRanges a';
                Panel.presets := Panel.presets a' |}
             (Some Sample.summaryKnown) None in
  Events.rangeStartDate r = Some "2000-01-01" /\
  Events.rangeEndDate r = Some "2020-12-31" /\
  @Events.rangeRequestUrl Host.runtime r = None.
Proof.
  intros a'.
  destruct (@close_forgets_tab_state Host.runtime Cases.twoTabs) as [Hstation _].
  destruct (Hstation Sample.maebashi eq_refl) as (_ & Hd & Hp & Hagain).
  fold a' in Hd, Hp, Hagain.
  split; [rewrite Hd; reflexivity|]. split; [rewrite Hp; reflexivity|].
  split; [rewrite Hd; reflexivity|].
  intros r.
  destruct (Hagain (MapState.commitStationSelection Sample.maebashi (Panel.ui a'))
              Sample.maebashi (Some Sample.summaryKnown) None eq_refl eq_refl eq_refl)
    as (Hs & He & _ & Hu).
  fold r in Hs, He, Hu. rewrite Hs, He. split; [reflexivity|]. split; [reflexivity|exact Hu].
Defined.

(** * What a click or an edit in the panel asks the server *)

Section PanelRequests.
Context `{Runtime}.

Lemma togglePreset_frame (r : Events.Render) (preset : Events.ChartPresetId) :
  let r' := Panel.togglePreset preset r in
  Events.activeTabKey r' = Events.activeTabKey r /\
  Events.eventsBasePath r' = Events.eventsBasePath r /\
  Events.minPeakDate r' = Events.minPeakDate r /\
  Events.maxPeakDate r' = Events.maxPeakDate r /\
  Events.rangeStartDate r' = Events.rangeStartDate r /\
  Events.rangeEndDate r' = Events.rangeEndDate r /\
  Events.hasDateFilterChanged r' = Events.hasDateFilterChanged r.
Proof.
  unfold Panel.togglePreset.
  destruct (Events.activeTabKey r) eqn:Hk; repeat split; try reflexivity; exact Hk.
Qed.

Lemma active_base (r : Events.Render) :
  is_Some (Events.activeTabKey r) -> is_Some (Events.eventsBasePath r).
Proof.
  intros [key Hkey].
  destruct (render_shape r) as [(s & _ & _ & Hb)|[(b & _ & _ & _ & _ & Hb)|(_ & Hk & _)]];
    [rewrite Hb; eauto|rewrite Hb; eauto|congruence].
Qed.

Lemma setStartDate_ranges (r : Events.Render) (key next re : string) :
  Events.activeTabKey r = Some key -> Events.rangeEndDate r = Some re -> next <> "" ->
  Events.rangeStartDate (Events.setStartDate next r) = Some next /\
  Events.rangeEndDate (Events.setStartDate next r) =
    Some (if Js.str_gt next re then next else re).
Proof.
  intros Hkey Hre Hnext.
  unfold Events.setStartDate. rewrite Hkey, Hre.
  rewrite (rangeEndDate_truthy r re Hre). simpl.
  rewrite rangeStartDate_set, rangeEndDate_set by exact Hkey. simpl.
  rewrite (or_else_some next) by exact Hnext. split; [reflexivity|].
  destruct (Js.str_gt next re).
  - now rewrite or_else_some.
  - now rewrite (current_end r key Hkey).
Qed.

Lemma setEndDate_ranges (r : Events.Render) (key next rs : string) :
  Events.activeTabKey r = Some key -> Events.rangeStartDate r = Some rs -> next <> "" ->
  Events.rangeStartDate (Events.setEndDate next r) =
    Some (if Js.str_lt next rs then next else rs) /\
  Events.rangeEndDate (Events.setEndDate next r) = Some next.
Proof.
  intros Hkey Hrs Hnext.
  unfold Events.setEndDate. rewrite Hkey, Hrs.
  rewrite (rangeStartDate_truthy r rs Hrs). simpl.
  rewrite rangeStartDate_set, rangeEndDate_set by exact Hkey. simpl.
  rewrite (or_else_some next) by exact Hnext. split; [|reflexivity].
  destruct (Js.str_lt next rs).
  - now rewrite or_else_some.
  - now rewrite (current_start r key Hkey).
Qed.

Lemma setStartDate_frame (r : Events.Render) (next : string) :
  let r' := Events.setStartDate next r in
  Events.eventsBasePath r' = Events.eventsBasePath r /\
  Events.minPeakDate r' = Events.minPeakDate r /\
  Events.maxPeakDate r' = Events.maxPeakDate r /\
  Events.selectedPreset r' = Events.selectedPreset r.
Proof.
  unfold Events.setStartDate.
  destruct (Events.activeTabKey r) eqn:Hk; repeat split; reflexivity.
Qed.

Lemma setEndDate_frame (r : Events.Render) (next : string) :
  let r' := Events.setEndDate next r in
  Events.eventsBasePath r' = Events.eventsBasePath r /\
  Events.minPeakDate r' = Events.minPeakDate r /\
  Events.maxPeakDate r' = Events.maxPeakDate r /\
  Events.selectedPreset r' = Events.selectedPreset r.
Proof.
  unfold Events.setEndDate.
  destruct (Events.activeTabKey r) eqn:Hk; repeat split; reflexivity.
Qed.

Lemma query_bounds (rs re : string) (tail : list (string * string)) :
  let q := [("includeRecent", "0"); ("peakStart", rs); ("peakEnd", re)] ++ tail in
  Events.params_get "peakStart" q = Some rs /\ Events.params_get "peakEnd" q = Some re.
Proof. split; reflexivity. Qed.

End PanelRequests.

(** X13. A click on a chart button, with the range of the tab known.
    Choosing a chart that is not the current one selects it and asks the
    server for the current range together with the matched series, whatever
    the range is. Clicking the current chart again deselects it; the ranged
    request then stays only when a bound differs from the default span, and
    it no longer asks for the series. *)
Theorem preset_click_request `{Runtime} (r : Events.Render)
    (preset : Events.ChartPresetId) (rs re : string) :
  is_Some (Events.activeTabKey r) ->
  Events.rangeStartDate r = Some rs ->
  Events.rangeEndDate r = Some re ->
  let r' := Panel.togglePreset preset r in
  exists base, Events.eventsBasePath r = Some base /\
    (Events.selectedPreset r <> Some preset ->
       Events.selectedPreset r' = Some preset /\
       Events.rangeRequestUrl r' =
         Some {| Events.path := base;
                 Events.query := [("includeRecent", "0"); ("peakStart", rs);
                                  ("peakEnd", re); ("includeMatchedSeries", "1")] |}) /\
    (Events.selectedPreset r = Some preset ->
       Events.selectedPreset r' = None /\
       Events.rangeRequestUrl r' =
         if Events.hasDateFilterChanged r
         then Some {| Events.path := base;
                      Events.query := [("includeRecent", "0"); ("peakStart", rs);
                                       ("peakEnd", re)] |}
         else None).
Proof.
  intros Hkey Hrs Hre r'.
  destruct (active_base r Hkey) as [base Hbase]. exists base. split; [exact Hbase|].
  destruct (togglePreset_frame r preset) as (_ & Hb' & _ & _ & Hrs' & Hre' & Hch').
  fold r' in Hb', Hrs', Hre', Hch'.
  rewrite Hbase in Hb'. rewrite Hrs in Hrs'. rewrite Hre in Hre'.
  pose proof (togglePreset_selected r preset Hkey) as Hsel. fold r' in Hsel.
  pose proof (rangeRequestUrl_eq r' base rs re Hb' Hrs' Hre') as Hurl.
  unfold Events.shouldFetchRangeData in Hurl. rewrite Hch' in Hurl.
  split.
  - intros Hne.
    assert (Hsel' : Events.selectedPreset r' = Some preset).
    { rewrite Hsel. destruct (Events.selectedPreset r) as [current|]; [|reflexivity].
      destruct (Panel.samePreset current preset) eqn:Hsame; [|reflexivity].
      apply samePreset_spec in Hsame. congruence. }
    split; [exact Hsel'|]. rewrite Hurl, Hsel'. reflexivity.
  - intros Hcur.
    assert (Hsel' : Events.selectedPreset r' = None).
    { rewrite Hsel, Hcur.
      destruct (Panel.samePreset preset preset) eqn:Hsame; [reflexivity|].
      assert (Panel.samePreset preset preset = true) by now apply samePreset_spec.
      congruence. }
    split; [exact Hsel'|]. rewrite Hurl, Hsel'. reflexivity.
Qed.

(** The station of the sample, summary known, no range stored: the button
    of the exceedance curve asks for the whole span with the series. *)
Lemma preset_click_request_witness :
  let r := Panel.render
             {| Panel.ui := Sample.bothTabs; Panel.dateRanges := ∅; Panel.presets := ∅ |}
             (Some Sample.summaryKnown) None in
  @Events.rangeRequestUrl Host.runtime (Panel.togglePreset Events.peak_distribution r) =
    Some {| Events.path := "/api/stations/101/events";
            Events.query := [("includeRecent", "0"); ("peakStart", "2000-01-01");
                             ("peakEnd", "2020-12-31"); ("includeMatchedSeries", "1")] |}.
Proof.
  intros r.
  destruct (@preset_click_request Host.runtime r Events.peak_distribution
              "2000-01-01" "2020-12-31") as (base & Hbase & Hon & _).
  - eexists. reflexivity.
  - reflexivity.
  - reflexivity.
  - destruct Hon as [_ Hurl]; [discriminate|].
    rewrite Hurl. injection Hbase as <-. reflexivity.
Defined.

(** X14. A date typed into the panel, with the span of the data known. A
    start date other than the first day of the span makes the hook ask for
    a range that starts at the typed date and ends at the current end, or at
    the typed date when that lies after the current end; an end date other
    than the last day of the span does the same from the other side. *)
Theorem date_edit_requests_range `{Runtime} (r : Events.Render) (next mn mx : string) :
  is_Some (Events.activeTabKey r) ->
  Events.minPeakDate r = Some mn ->
  Events.maxPeakDate r = Some mx ->
  next <> "" ->
  exists base rs re,
    Events.eventsBasePath r = Some base /\
    Events.rangeStartDate r = Some rs /\
    Events.rangeEndDate r = Some re /\
    (next <> mn ->
       exists u, Events.rangeRequestUrl (Events.setStartDate next r) = Some u /\
         Events.path u = base /\
         Events.params_get "peakStart" (Events.query u) = Some next /\
         Events.params_get "peakEnd" (Events.query u) =
           Some (if Js.str_gt next re then next else re)) /\
    (next <> mx ->
       exists u, Events.rangeRequestUrl (Events.setEndDate next r) = Some u /\
         Events.path u = base /\
         Events.params_get "peakStart" (Events.query u) =
           Some (if Js.str_lt next rs then next else rs) /\
         Events.params_get "peakEnd" (Events.query u) = Some next).
Proof.
  intros Hactive Hmin Hmax Hnext.
  destruct (active_base r Hactive) as [base Hbase].
  destruct Hactive as [key Hkey].
  assert (Hrs : is_Some (Events.rangeStartDate r)).
  { unfold Events.rangeStartDate, Js.or_else. rewrite Hmin.
    destruct (Js.truthy (Events.peakStartDate r)); eauto. }
  assert (Hre : is_Some (Events.rangeEndDate r)).
  { unfold Events.rangeEndDate, Js.or_else. rewrite Hmax.
    destruct (Js.truthy (Events.peakEndDate r)); eauto. }
  destruct Hrs as [rs Hrs]. destruct Hre as [re Hre].
  exists base, rs, re. split; [exact Hbase|]. split; [exact Hrs|]. split; [exact Hre|].
  split.
  - intros Hne.
    destruct (setStartDate_ranges r key next re Hkey Hre Hnext) as [Hs He].
    destruct (setStartDate_frame r next) as (Hb & Hmn & _ & _).
    set (r' := Events.setStartDate next r) in *.
    rewrite Hbase in Hb. rewrite Hmin in Hmn.
    pose proof (rangeRequestUrl_eq r' base _ _ Hb Hs He) as Hurl.
    assert (Hshould : Events.shouldFetchRangeData r' = true).
    { apply (shouldFetchRangeData_spec r' _ _ Hs He). right. left. eauto. }
    rewrite Hshould in Hurl. eexists. split; [exact Hurl|].
    split; [reflexivity|]. apply query_bounds.
  - intros Hne.
    destruct (setEndDate_ranges r key next rs Hkey Hrs Hnext) as [Hs He].
    destruct (setEndDate_frame r next) as (Hb & _ & Hmx & _).
    set (r' := Events.setEndDate next r) in *.
    rewrite Hbase in Hb. rewrite Hmax in Hmx.
    pose proof (rangeRequestUrl_eq r' base _ _ Hb Hs He) as Hurl.
    assert (Hshould : Events.shouldFetchRangeData r' = true).
    { apply (shouldFetchRangeData_spec r' _ _ Hs He). right. right. eauto. }
    rewrite Hshould in Hurl. eexists. split; [exact Hurl|].
    split; [reflexivity|]. apply query_bounds.
Qed.

(** The station of the sample with the year 2010 selected: a start date in
    2015 lies after the end, and the request is for that one day. *)
Lemma date_edit_requests_range_witness :
  let r := Panel.render Cases.twoTabs (Some Sample.summaryKnown) None in
  exists u, @Events.rangeRequestUrl Host.runtime (Events.setStartDate "2015-05-05" r) = Some u /\
    Events.params_get "peakStart" (Events.query u) = Some "2015-05-05" /\
    Events.params_get "peakEnd" (Events.query u) = Some "2015-05-05".
Proof.
  intros r.
  destruct (@date_edit_requests_range Host.runtime r "2015-05-05" "2000-01-01" "2020-12-31")
    as (base & rs & re & _ & _ & Hre & Hstart & _).
  - eexists. reflexivity.
  - reflexivity.
  - reflexivity.
  - discriminate.
  - destruct Hstart as (u & Hu & _ & Hs & He); [discriminate|].
    exists u. split; [exact Hu|]. split; [exact Hs|].
    rewrite He. injection Hre as <-. reflexivity.
Defined.

(** * The histogram depends on the months only *)

Section HistogramShape.
Context `{Runtime}.
Hypothesis month_range : forall s t, Date_parse s = Some t -> Date_getMonth t < 12.

Lemma histogram_ext (mf1 mf2 : list MonthlyFrequencyPoint) :
  length mf1 = length mf2 -> map month mf1 = map month mf2 ->
  (forall i, countAt i mf1 = countAt i mf2) -> mf1 = mf2.
Proof.
  revert mf2. induction mf1 as [|p mf1 IH]; intros [|q mf2] Hlen Hmonth Hcount;
    try discriminate; [reflexivity|].
  simpl in Hlen, Hmonth. injection Hmonth as Hm Hmonth.
  pose proof (Hcount 0) as Hc. unfold countAt in Hc. simpl in Hc.
  f_equal.
  - destruct p, q. simpl in *. congruence.
  - apply IH; [lia|exact Hmonth|]. intros i. exact (Hcount (S i)).
Qed.

Lemma monthlyFrequencyOf_counts (series : list StationMatchedPoint) :
  exists mf, Events.monthlyFrequencyOf series = Some mf /\ length mf = 12 /\
    map month mf = map month Events.initialMonthCounts /\
    forall i, countAt i mf = length (List.filter (inMonth i) series).
Proof.
  destruct (countMonths_spec series month_range Events.initialMonthCounts eq_refl)
    as (mf & Hmf & Hlen & Hmonth & _ & Hcount).
  exists mf. split; [exact Hmf|]. split; [exact Hlen|]. split; [exact Hmonth|].
  intros i. rewrite Hcount.
  assert (H0 : countAt i Events.initialMonthCounts = 0).
  { unfold countAt. do 12 (destruct i as [|i]; [reflexivity|]). reflexivity. }
  lia.
Qed.

Lemma monthlyFrequencyOf_same_months (s1 s2 : list StationMatchedPoint) :
  (forall i, length (List.filter (inMonth i) s1) = length (List.filter (inMonth i) s2)) ->
  Events.monthlyFrequencyOf s1 = Events.monthlyFrequencyOf s2.
Proof.
  intros Hsame.
  destruct (monthlyFrequencyOf_counts s1) as (mf1 & H1 & Hl1 & Hm1 & Hc1).
  destruct (monthlyFrequencyOf_counts s2) as (mf2 & H2 & Hl2 & Hm2 & Hc2).
  rewrite H1, H2. f_equal. apply histogram_ext; [congruence|congruence|].
  intros i. now rewrite Hc1, Hc2.
Qed.

Lemma filter_length_perm {A} (p : A -> bool) (l1 l2 : list A) :
  Permutation l1 l2 -> length (List.filter p l1) = length (List.filter p l2).
Proof.
  induction 1 as [|x l1 l2 _ IH|x y l|l1 l2 l3 _ IH1 _ IH2]; simpl.
  - reflexivity.
  - destruct (p x); simpl; congruence.
  - destruct (p x), (p y); reflexivity.
  - congruence.
Qed.

Lemma inMonth_parseable (i : nat) (item : StationMatchedPoint) :
  inMonth i item = true -> parseable item = true.
Proof. unfold inMonth, parseable. destruct (Date_parse (peak_time item)); congruence. Qed.

Lemma filter_inMonth_parseable (i : nat) (series : list StationMatchedPoint) :
  List.filter (inMonth i) (List.filter parseable series) = List.filter (inMonth i) series.
Proof.
  induction series as [|item series IH]; [reflexivity|]. simpl.
  destruct (parseable item) eqn:Hp; simpl.
  - now rewrite IH.
  - rewrite IH. destruct (inMonth i item) eqn:Hi; [|reflexivity].
    apply inMonth_parseable in Hi. congruence.
Qed.

End HistogramShape.

(** X15. The histogram depends only on how many points fall in each month.
    With months in range, the order of the series does not matter, points
    whose timestamp does not parse can be left out, and the histogram of two
    series put together has, in each bucket, the sum of the two counts. *)
Theorem monthly_frequency_order_independent `{Runtime} (s1 s2 : list StationMatchedPoint) :
  (forall s t, Date_parse s = Some t -> Date_getMonth t < 12) ->
  (Permutation s1 s2 -> Events.monthlyFrequencyOf s1 = Events.monthlyFrequencyOf s2) /\
  Events.monthlyFrequencyOf (List.filter parseable s1) = Events.monthlyFrequencyOf s1 /\
  exists mf1 mf2 mf,
    Events.monthlyFrequencyOf s1 = Some mf1 /\
    Events.monthlyFrequencyOf s2 = Some mf2 /\
    Events.monthlyFrequencyOf (s1 ++ s2) = Some mf /\
    forall m, countAt m mf = countAt m mf1 + countAt m mf2.
Proof.
  intros Hrange. split; [|split].
  - intros Hperm. apply (monthlyFrequencyOf_same_months Hrange).
    intros i. now apply filter_length_perm.
  - apply (monthlyFrequencyOf_same_months Hrange).
    intros i. now rewrite filter_inMonth_parseable.
  - destruct (monthlyFrequencyOf_counts Hrange s1) as (mf1 & H1 & _ & _ & Hc1).
    destruct (monthlyFrequencyOf_counts Hrange s2) as (mf2 & H2 & _ & _ & Hc2).
    destruct (monthlyFrequencyOf_counts Hrange (s1 ++ s2)) as (mf & H12 & _ & _ & Hc).
    exists mf1, mf2, mf. split; [exact H1|]. split; [exact H2|]. split; [exact H12|].
    intros m. rewrite Hc, Hc1, Hc2, List.filter_app, length_app. reflexivity.
Qed.

(** The sample series read backwards gives the same histogram. *)
Lemma monthly_frequency_order_independent_witness :
  @Events.monthlyFrequencyOf Host.runtime (rev Sample.series) =
  @Events.monthlyFrequencyOf Host.runtime Sample.series.
Proof.
  destruct (@monthly_frequency_order_independent Host.runtime
              (rev Sample.series) Sample.series host_month_range) as [Hperm _].
  apply Hperm. symmetry. apply Permutation_rev.
Defined.

(** * The exceedance chart *)

Section ChartFacts.

Lemma byRank_consistent :
  consistent_on (fun _ : PeakDistributionPoint => True) DistributionChart.byRank.
Proof.
  unfold DistributionChart.byRank. split.
  - intros a b _ _ Hab Hba. apply Nat.compare_gt_iff in Hab, Hba. lia.
  - unfold before. intros a b c _ _ _ Hab Hbc.
    rewrite Nat.compare_gt_iff in *. lia.
Qed.

Lemma insert_head {A} (cmp : A -> A -> comparison) (x : A) (l : list A) :
  Forall (before cmp x) l -> Js.insert cmp x l = x :: l.
Proof.
  intros Hl. destruct l as [|y l]; [reflexivity|]. simpl.
  apply Forall_cons_1 in Hl as [Hy _]. unfold before in Hy.
  destruct (cmp x y); congruence.
Qed.

Lemma sort_sorted_id {A} (cmp : A -> A -> comparison) (l : list A) :
  StronglySorted (before cmp) l -> Js.sort cmp l = l.
Proof.
  induction 1 as [|x l _ IH Hx]; [reflexivity|].
  simpl. rewrite IH. now apply insert_head.
Qed.

Lemma In_same_key {A} (f : A -> nat) (l : list A) (a b : A) :
  NoDup (map f l) -> In a l -> In b l -> f a = f b -> a = b.
Proof.
  induction l as [|x l IH]; simpl; [tauto|].
  intros Hnd Ha Hb Hf. apply NoDup_cons in Hnd as [Hx Hnd].
  rewrite list_elem_of_In in Hx.
  destruct Ha as [<-|Ha], Hb as [<-|Hb].
  - reflexivity.
  - exfalso. apply Hx. rewrite Hf. now apply in_map.
  - exfalso. apply Hx. rewrite <- Hf. now apply in_map.
  - now apply IH.
Qed.

Lemma sorted_perm_unique (l1 l2 : list PeakDistributionPoint) :
  NoDup (map rank l1) ->
  StronglySorted (before DistributionChart.byRank) l1 ->
  StronglySorted (before DistributionChart.byRank) l2 ->
  Permutation l1 l2 -> l1 = l2.
Proof.
  revert l2. induction l1 as [|x l1 IH]; intros l2 Hnd Hs1 Hs2 Hperm.
  - apply Permutation_nil in Hperm. now subst.
  - destruct l2 as [|y l2]; [symmetry in Hperm; now apply Permutation_nil in Hperm|].
    apply StronglySorted_inv in Hs1 as [Hs1 Hx].
    apply StronglySorted_inv in Hs2 as [Hs2 Hy].
    assert (Hxy : x = y).
    { assert (Hyin : In y (x :: l1))
        by (eapply Permutation_in; [symmetry; exact Hperm|now left]).
      assert (Hxin : In x (y :: l2))
        by (eapply Permutation_in; [exact Hperm|now left]).
      destruct Hyin as [Heq|Hyin]; [exact Heq|].
      destruct Hxin as [Heq|Hxin]; [now symmetry|].
      apply (In_same_key rank (x :: l1)); [exact Hnd|now left|now right|].
      rewrite List.Forall_forall in Hx, Hy.
      pose proof (Hx y Hyin) as H1. pose proof (Hy x Hxin) as H2.
      unfold before, DistributionChart.byRank in H1, H2.
      rewrite Nat.compare_gt_iff in H1, H2. lia. }
    subst y. f_equal. apply IH; [|exact Hs1|exact Hs2|].
    + simpl in Hnd. now apply NoDup_cons in Hnd.
    + now apply Permutation_cons_inv in Hperm.
Qed.

Lemma seq_sorted_by_rank (l : list PeakDistributionPoint) (k : nat) :
  map rank l = seq k (length l) -> StronglySorted (before DistributionChart.byRank) l.
Proof.
  revert k. induction l as [|x l IH]; intros k Hk; [constructor|].
  simpl in Hk. injection Hk as Hx Hl. constructor; [now apply (IH (S k))|].
  apply List.Forall_forall. intros y Hy.
  assert (Hin : In (rank y) (seq (S k) (length l))) by (rewrite <- Hl; now apply in_map).
  apply in_seq in Hin. unfold before, DistributionChart.byRank.
  rewrite Nat.compare_gt_iff. lia.
Qed.

Lemma last_rank (l : list PeakDistributionPoint) (k : nat) :
  map rank l = seq k (length l) ->
  rank <$> last l = if length l =? 0 then None else Some (k + length l - 1).
Proof.
  revert k. induction l as [|x l IH]; intros k Hk; [reflexivity|].
  simpl in Hk. injection Hk as Hx Hl.
  destruct l as [|y l]; [simpl; f_equal; lia|].
  change (last (x :: y :: l)) with (last (y :: l)).
  rewrite (IH (S k) Hl). simpl. f_equal. lia.
Qed.

End ChartFacts.

(** X16. The exceedance chart and the hook fit together. The chart sorts
    the points it is given by rank; on the distribution the hook computes
    this changes nothing, and given these points in any other order the
    chart restores that distribution. Its largest rank is the number of
    points with a finite peak. *)
Theorem distribution_chart_order (series : list StationMatchedPoint) :
  let dist := Events.peakDistributionOf series in
  DistributionChart.sorted dist = dist /\
  (forall points, Permutation points dist -> DistributionChart.sorted points = dist) /\
  DistributionChart.maxRank dist =
    (if length (List.filter Events.finitePeak series) =? 0 then None
     else Some (length (List.filter Events.finitePeak series))).
Proof.
  intros dist.
  destruct (imap_rankPoint (Events.sortedFinite series)) as [Hrank _].
  fold (Events.peakDistributionOf series) in Hrank. fold dist in Hrank.
  assert (Hlen : length dist = length (List.filter Events.finitePeak series)).
  { unfold dist, Events.peakDistributionOf, Events.sortedFinite.
    now rewrite length_imap, sort_length. }
  assert (Hrank' : map rank dist = seq 1 (length dist))
    by (rewrite Hrank; f_equal; rewrite <- (length_map rank dist), Hrank;
        now rewrite length_seq).
  assert (Hsorted : StronglySorted (before DistributionChart.byRank) dist)
    by exact (seq_sorted_by_rank dist 1 Hrank').
  assert (Hid : DistributionChart.sorted dist = dist) by now apply sort_sorted_id.
  split; [exact Hid|]. split.
  - intros points Hperm. unfold DistributionChart.sorted. symmetry.
    apply sorted_perm_unique.
    + rewrite Hrank'. apply NoDup_seq.
    + exact Hsorted.
    + apply (sort_sorted _ _ byRank_consistent). now apply List.Forall_forall.
    + rewrite sort_perm. now symmetry.
  - unfold DistributionChart.maxRank. rewrite Hid.
    pose proof (last_rank dist 1 Hrank') as Hlast. rewrite Hlen in Hlast.
    destruct (last dist) as [p|]; simpl in Hlast.
    + destruct (length (List.filter Events.finitePeak series)) as [|n]; [discriminate|].
      simpl in Hlast |- *. injection Hlast as ->. f_equal; lia.
    + destruct (length (List.filter Events.finitePeak series)); [reflexivity|discriminate].
Qed.

(** * Dates of the summary *)

Section DateFacts.

Lemma slice0_cons (n : nat) (c : ascii) (s : string) :
  Js.slice0 (S n) (String c s) = String c (Js.slice0 n s).
Proof. reflexivity. Qed.

Lemma slice0_prefix (n : nat) (s : string) : String.prefix (Js.slice0 n s) s = true.
Proof.
  revert s. induction n as [|n IH]; intros [|c s]; try reflexivity.
  rewrite slice0_cons. simpl. rewrite IH.
  destruct (ascii_dec c c); [reflexivity|congruence].
Qed.

Lemma slice0_length (n : nat) (s : string) :
  String.length (Js.slice0 n s) = Nat.min n (String.length s).
Proof.
  revert s. induction n as [|n IH]; intros [|c s]; try reflexivity.
  rewrite slice0_cons. simpl. now rewrite IH.
Qed.

Lemma slice0_idem (n : nat) (s : string) : Js.slice0 n (Js.slice0 n s) = Js.slice0 n s.
Proof.
  revert s. induction n as [|n IH]; intros [|c s]; try reflexivity.
  rewrite !slice0_cons. now rewrite IH.
Qed.

Lemma slice0_short (n : nat) (s : string) : String.length s <= n -> Js.slice0 n s = s.
Proof.
  revert s. induction n as [|n IH]; intros [|c s] Hlen; try reflexivity.
  - simpl in Hlen. lia.
  - rewrite slice0_cons. rewrite IH; [reflexivity|simpl in Hlen; lia].
Qed.

End DateFacts.

(** X17. [toDateOnly] answers nothing exactly for a missing or empty
    timestamp. Otherwise it answers the first ten characters of the
    timestamp, or all of it when it is shorter: a non-empty prefix. It
    leaves a value it has produced as it is. *)
Theorem to_date_only_prefix (v : option string) :
  (Events.toDateOnly v = None <-> v = None \/ v = Some "") /\
  (forall s d, v = Some s -> Events.toDateOnly v = Some d ->
     d <> "" /\ String.prefix d s = true /\
     String.length d = Nat.min 10 (String.length s) /\
     (String.length s <= 10 -> d = s)) /\
  Events.toDateOnly (Events.toDateOnly v) = Events.toDateOnly v.
Proof.
  split; [|split].
  - destruct v as [[|c s]|]; simpl; split; try tauto; try discriminate.
    + intros [|]; discriminate.
  - intros s d -> Hd. unfold Events.toDateOnly in Hd.
    destruct s as [|c s]; [discriminate|]. simpl Js.truthy in Hd. cbv iota in Hd.
    injection Hd as <-. split; [rewrite slice0_cons; discriminate|].
    split; [apply slice0_prefix|]. split; [apply slice0_length|].
    apply slice0_short.
  - destruct v as [[|c s]|]; try reflexivity.
    unfold Events.toDateOnly. simpl Js.truthy. cbv iota.
    rewrite slice0_cons. simpl Js.truthy. cbv iota.
    rewrite <- slice0_cons. now rewrite slice0_idem.
Qed.

(** * The export and the panel *)

Section ExportFacts.
Context `{MapUtils} `{Runtime}.

Lemma exportUrl_eq (r : Events.Render) :
  CsvExport.exportUrl (CsvExport.paramsOf r) =
    match Events.eventsBasePath r, Events.rangeStartDate r, Events.rangeEndDate r with
    | Some base, Some rs, Some re =>
        Some {| Events.path := base;
                Events.query := [("includeRecent", "0"); ("includeMatchedEvents", "1");
                                 ("peakStart", rs); ("peakEnd", re)] |}
    | _, _, _ => None
    end.
Proof.
  unfold CsvExport.exportUrl, CsvExport.nothingToExport, CsvExport.paramsOf,
    Events.eventsBasePath.
  cbn [CsvExport.currentStation CsvExport.currentBasin CsvExport.rangeStartDate
       CsvExport.rangeEndDate].
  destruct (Events.rangeStartDate r) as [rs|] eqn:Hrs.
  2:{ cbn [Js.truthy_opt negb]. rewrite orb_true_r. cbn [orb].
      destruct (Events.currentStation r); [reflexivity|].
      destruct (Events.currentBasin r) as [b|]; [|reflexivity].
      destruct (Js.truthy b); reflexivity. }
  destruct (Events.rangeEndDate r) as [re|] eqn:Hre.
  2:{ cbn [Js.truthy_opt negb]. rewrite orb_true_r.
      destruct (Events.currentStation r); [reflexivity|].
      destruct (Events.currentBasin r) as [b|]; [|reflexivity].
      destruct (Js.truthy b); reflexivity. }
  cbn [Js.truthy_opt].
  rewrite (rangeStartDate_truthy r rs Hrs), (rangeEndDate_truthy r re Hre).
  cbn [negb]. rewrite !orb_false_r.
  destruct (Events.currentStation r) as [s|].
  - rewrite bool_decide_eq_true_2 by eauto. reflexivity.
  - rewrite bool_decide_eq_false_2 by (intros [x Hx]; discriminate). cbn [negb andb].
    destruct (Events.currentBasin r) as [b|]; [|reflexivity].
    cbn [Js.truthy_opt]. destruct (Js.truthy b); reflexivity.
Qed.

End ExportFacts.

(** X18. The export asks for what the panel shows. Its request exists
    exactly when a tab is in front and both bounds of the range are known;
    it goes to the events path of that tab, carries the two bounds of the
    range in view and asks for the matched events. Whenever the panel has a
    ranged request of its own, the export addresses the same path with the
    same bounds; the export is also available on the default span, where the
    panel has none. *)
Theorem export_url_matches_panel `{MapUtils} `{Runtime} (r : Events.Render) :
  (CsvExport.exportUrl (CsvExport.paramsOf r) = None <->
     Events.activeTabKey r = None \/ Events.rangeStartDate r = None \/
     Events.rangeEndDate r = None) /\
  (forall u, CsvExport.exportUrl (CsvExport.paramsOf r) = Some u ->
     Events.eventsBasePath r = Some (Events.path u) /\
     Events.params_get "peakStart" (Events.query u) = Events.rangeStartDate r /\
     Events.params_get "peakEnd" (Events.query u) = Events.rangeEndDate r /\
     Events.params_get "includeMatchedEvents" (Events.query u) = Some "1" /\
     Events.params_get "includeMatchedSeries" (Events.query u) = None) /\
  (forall u', Events.rangeRequestUrl r = Some u' ->
     exists u, CsvExport.exportUrl (CsvExport.paramsOf r) = Some u /\
       Events.path u = Events.path u' /\
       Events.params_get "peakStart" (Events.query u) =
         Events.params_get "peakStart" (Events.query u') /\
       Events.params_get "peakEnd" (Events.query u) =
         Events.params_get "peakEnd" (Events.query u')).
Proof.
  rewrite exportUrl_eq.
  assert (Hbase : Events.eventsBasePath r = None <-> Events.activeTabKey r = None).
  { destruct (render_shape r)
      as [(s & _ & Hk & Hb)|[(b & _ & _ & _ & Hk & Hb)|(_ & Hk & Hb)]];
      rewrite Hk, Hb; split; congruence. }
  split; [|split].
  - rewrite <- Hbase.
    destruct (Events.eventsBasePath r), (Events.rangeStartDate r), (Events.rangeEndDate r);
      split; try tauto; try discriminate; intros [|[|]]; discriminate.
  - intros u Hu.
    destruct (Events.eventsBasePath r) as [base|]; [|discriminate].
    destruct (Events.rangeStartDate r) as [rs|]; [|discriminate].
    destruct (Events.rangeEndDate r) as [re|]; [|discriminate].
    injection Hu as <-. repeat split; reflexivity.
  - intros u' Hu'.
    pose proof (rangeRequestUrl_path r u' Hu') as Hpath.
    destruct (Events.rangeStartDate r) as [rs|] eqn:Hrs.
    2:{ unfold Events.rangeRequestUrl in Hu'. rewrite Hrs in Hu'.
        destruct (Events.eventsBasePath r); discriminate. }
    destruct (Events.rangeEndDate r) as [re|] eqn:Hre.
    2:{ unfold Events.rangeRequestUrl in Hu'. rewrite Hrs, Hre in Hu'.
        destruct (Events.eventsBasePath r); discriminate. }
    rewrite (rangeRequestUrl_eq r _ rs re Hpath Hrs Hre) in Hu'.
    destruct (Events.shouldFetchRangeData r); [|discriminate].
    injection Hu' as <-. rewrite Hpath. eexists. split; [reflexivity|].
    repeat split; reflexivity.
Qed.

(** * The sheet of the export *)

Section SheetFacts.
Context `{Runtime}.

Lemma exportRow_index (p : CsvExport.Params) (i : nat) (item : CsvExport.StationRecentEvent) :
  CsvExport.row_index (CsvExport.baseOf (CsvExport.exportRow p i item)) = i + 1.
Proof. unfold CsvExport.exportRow. destruct (CsvExport.currentStation p); reflexivity. Qed.

Lemma exportRow_keys (p : CsvExport.Params) (i j : nat)
    (item item' : CsvExport.StationRecentEvent) :
  CsvExport.rowKeys (CsvExport.exportRow p i item) =
  CsvExport.rowKeys (CsvExport.exportRow p j item').
Proof. unfold CsvExport.exportRow. destruct (CsvExport.currentStation p); reflexivity. Qed.

Lemma imap_index (p : CsvExport.Params) (l : list CsvExport.StationRecentEvent) (k : nat) :
  map (fun row => CsvExport.row_index (CsvExport.baseOf row))
    (imap (fun i => CsvExport.exportRow p (k + i)) l) = seq (k + 1) (length l).
Proof.
  revert k. induction l as [|item l IH]; intros k; [reflexivity|].
  rewrite imap_cons. cbn [map length seq]. rewrite exportRow_index. f_equal; [lia|].
  replace (S (k + 1)) with (S k + 1) by lia.
  rewrite <- (IH (S k)). f_equal. apply imap_ext. intros i x _. simpl. f_equal. lia.
Qed.

Lemma In_imap {A B} (f : nat -> A -> B) (l : list A) (y : B) :
  In y (imap f l) -> exists i x, y = f i x /\ In x l.
Proof.
  rewrite <- list_elem_of_In, elem_of_lookup_imap.
  intros (i & x & -> & Hx). exists i, x. split; [reflexivity|].
  rewrite <- list_elem_of_In. eapply list_elem_of_lookup_2. exact Hx.
Qed.

Lemma exportRows_source (p : CsvExport.Params) (data : CsvExport.ExportResponse) :
  exists source,
    CsvExport.exportRows p data = imap (CsvExport.exportRow p) source /\
    source =
      match CsvExport.matchedEventsDetail data with
      | Some (first :: more) => first :: more
      | _ => map (CsvExport.seriesRow p) (default [] (CsvExport.exportSeries data))
      end.
Proof.
  unfold CsvExport.exportRows. eexists. split; [reflexivity|].
  destruct (CsvExport.matchedEventsDetail data) as [[|first more]|]; reflexivity.
Qed.

Lemma exportUrl_bounds (p : CsvExport.Params) (url : Events.Url) :
  CsvExport.exportUrl p = Some url ->
  exists rs re, CsvExport.rangeStartDate p = Some rs /\ CsvExport.rangeEndDate p = Some re.
Proof.
  unfold CsvExport.exportUrl. destruct (CsvExport.nothingToExport p); [discriminate|].
  destruct (CsvExport.rangeStartDate p) as [rs|]; [|discriminate].
  destruct (CsvExport.rangeEndDate p) as [re|]; [|discriminate]. eauto.
Qed.

Lemma exportRow_names (p : CsvExport.Params) (k : nat) (ev : CsvExport.StationRecentEvent) :
  row_names p (CsvExport.ev_station_id ev) (CsvExport.ev_basin_name ev)
    (CsvExport.exportRow p k ev).
Proof.
  unfold row_names, CsvExport.exportRow.
  destruct (CsvExport.currentStation p); eexists; reflexivity.
Qed.

Lemma exportRow_shows (p : CsvExport.Params) (k : nat) (ev : CsvExport.StationRecentEvent) :
  row_shows ev (CsvExport.exportRow p k ev).
Proof.
  unfold row_shows, CsvExport.exportRow.
  destruct (CsvExport.currentStation p); repeat split; reflexivity.
Qed.

Lemma detail_row (p : CsvExport.Params) (detail : list CsvExport.StationRecentEvent)
    (k : nat) (ev : CsvExport.StationRecentEvent) :
  detail !! k = Some ev ->
  exists row, imap (CsvExport.exportRow p) detail !! k = Some row /\
    CsvExport.row_index (CsvExport.baseOf row) = k + 1 /\
    row_shows ev row /\
    row_names p (CsvExport.ev_station_id ev) (CsvExport.ev_basin_name ev) row.
Proof.
  intros Hk. exists (CsvExport.exportRow p k ev).
  rewrite list_lookup_imap, Hk. split; [reflexivity|].
  split; [apply exportRow_index|]. split; [apply exportRow_shows|apply exportRow_names].
Qed.

Lemma series_row (p : CsvExport.Params) (series : list StationMatchedPoint)
    (k : nat) (pt : StationMatchedPoint) :
  series !! k = Some pt ->
  exists row, imap (CsvExport.exportRow p) (map (CsvExport.seriesRow p) series) !! k
              = Some row /\
    CsvExport.row_index (CsvExport.baseOf row) = k + 1 /\
    row_shows_point pt row /\
    row_names p None (CsvExport.currentBasin p) row.
Proof.
  intros Hk. exists (CsvExport.exportRow p k (CsvExport.seriesRow p pt)).
  rewrite list_lookup_imap. change map with (@fmap list _) at 1.
  rewrite list_lookup_fmap, Hk. split; [reflexivity|].
  split; [apply exportRow_index|]. split.
  - unfold row_shows_point, CsvExport.exportRow, CsvExport.seriesRow.
    destruct (CsvExport.currentStation p); repeat split; reflexivity.
  - unfold row_names, CsvExport.exportRow, CsvExport.seriesRow.
    destruct (CsvExport.currentStation p); eexists; reflexivity.
Qed.

End SheetFacts.

(** X19. What the export hands to the browser. A download yields an error
    or a workbook, never both. Without a request it leaves the error as it
    was; with a request, there is no workbook exactly when the fetch fails
    or a step of saving fails, and the error is then the failure message. A
    workbook comes without error, under the name made of the sanitised
    prefix and the two bounds. Its rows follow the response: when the
    response has detailed events, row [k] shows event [k], and otherwise row
    [k] shows point [k] of the series; there are no other rows, row [k] has
    number [k + 1], its naming columns are those of the export, and the
    header taken from the first row names the columns of every row. *)
Theorem export_workbook_shape `{Runtime} (p : CsvExport.Params)
    (fetch : Events.Url -> option CsvExport.ExportResponse)
    (save : CsvExport.Workbook -> bool) (previousError : option string) :
  let result := CsvExport.downloadEventsXlsx p fetch save previousError in
  (result.2 = None ->
     (CsvExport.exportUrl p = None /\ result.1 = previousError) \/
     (exists url, CsvExport.exportUrl p = Some url /\
        result.1 = Some CsvExport.downloadErrorMessage /\
        (fetch url = None \/
         exists data workbook,
           fetch url = Some data /\ save workbook = false /\
           CsvExport.sheetRows workbook = CsvExport.exportRows p data))) /\
  (forall wb, result.2 = Some wb ->
     result.1 = None /\ save wb = true /\
     (exists rs re prefix,
        CsvExport.rangeStartDate p = Some rs /\ CsvExport.rangeEndDate p = Some re /\
        prefix = match CsvExport.currentStation p with
                 | Some s => "station_" +:+ CsvExport.getDisplayName p s
                 | None => "basin_" +:+ default "null" (CsvExport.currentBasin p)
                 end /\
        CsvExport.fileName wb =
          CsvExport.sanitizeFileNamePart prefix +:+ "_" +:+ rs +:+ "_to_" +:+ re
          +:+ ".xlsx") /\
     (exists url data,
        CsvExport.exportUrl p = Some url /\ fetch url = Some data /\
        match CsvExport.matchedEventsDetail data with
        | Some (first :: more) =>
            length (CsvExport.sheetRows wb) = length (first :: more) /\
            forall k ev, (first :: more) !! k = Some ev ->
              exists row, CsvExport.sheetRows wb !! k = Some row /\
                CsvExport.row_index (CsvExport.baseOf row) = k + 1 /\
                row_shows ev row /\
                row_names p (CsvExport.ev_station_id ev) (CsvExport.ev_basin_name ev) row
        | _ =>
            let series := default [] (CsvExport.exportSeries data) in
            length (CsvExport.sheetRows wb) = length series /\
            forall k pt, series !! k = Some pt ->
              exists row, CsvExport.sheetRows wb !! k = Some row /\
                CsvExport.row_index (CsvExport.baseOf row) = k + 1 /\
                row_shows_point pt row /\
                row_names p None (CsvExport.currentBasin p) row
        end) /\
     map (fun row => CsvExport.row_index (CsvExport.baseOf row)) (CsvExport.sheetRows wb) =
       seq 1 (length (CsvExport.sheetRows wb)) /\
     (forall row, In row (CsvExport.sheetRows wb) ->
        CsvExport.rowKeys row = CsvExport.columns wb) /\
     (CsvExport.sheetRows wb = [] -> CsvExport.columns wb = [])).
Proof.
  intros result. subst result. unfold CsvExport.downloadEventsXlsx.
  destruct (CsvExport.exportUrl p) as [url|] eqn:Hurl;
    [|split; [intros _; now left|discriminate]].
  destruct (fetch url) as [data|] eqn:Hfetch.
  2:{ split; [|discriminate]. intros _. right. exists url. auto. }
  match goal with |- context [save ?w] => set (workbook := w) end.
  destruct (save workbook) eqn:Hsave.
  2:{ split; [|discriminate]. intros _. right. exists url.
      split; [reflexivity|]. split; [reflexivity|]. right.
      exists data, workbook. auto. }
  split; [discriminate|]. intros wb [= <-]. cbn [fst].
  split; [reflexivity|]. split; [exact Hsave|].
  subst workbook. cbn [CsvExport.sheetRows CsvExport.columns CsvExport.fileName].
  destruct (exportRows_source p data) as (source & Hrows & Hsource).
  rewrite Hrows. split; [|split; [|split; [|split]]].
  - destruct (exportUrl_bounds p url Hurl) as (rs & re & Hrs & Hre).
    exists rs, re. eexists. split; [exact Hrs|]. split; [exact Hre|].
    split; [reflexivity|]. unfold CsvExport.exportFileName. now rewrite Hrs, Hre.
  - exists url, data. split; [reflexivity|]. split; [exact Hfetch|].
    destruct (CsvExport.matchedEventsDetail data) as [[|first more]|];
      subst source; cbv zeta.
    + rewrite length_imap, length_map. split; [reflexivity|].
      intros k pt Hk. apply series_row. exact Hk.
    + rewrite length_imap. split; [reflexivity|].
      intros k ev Hk. apply detail_row. exact Hk.
    + rewrite length_imap, length_map. split; [reflexivity|].
      intros k pt Hk. apply series_row. exact Hk.
  - rewrite length_imap. exact (imap_index p source 0).
  - intros row Hrow. apply In_imap in Hrow as (i & item & -> & Hitem).
    destruct source as [|first more]; [destruct Hitem|].
    rewrite imap_cons. apply exportRow_keys.
  - destruct source; [reflexivity|]. rewrite imap_cons. discriminate.
Qed.

(** The station of the sample, a response with the series only: a workbook
    with one row for each point, and no error. *)
Lemma export_workbook_shape_witness :
  exists wb,
    (@CsvExport.downloadEventsXlsx Host.runtime Cases.stationExport Cases.answerSeries
       Cases.saves (Some "earlier")).2 = Some wb /\
    length (CsvExport.sheetRows wb) = length Sample.series /\
    map (fun row => CsvExport.row_index (CsvExport.baseOf row)) (CsvExport.sheetRows wb) =
      seq 1 (length (CsvExport.sheetRows wb)).
Proof.
  destruct (@export_workbook_shape Host.runtime Cases.stationExport Cases.answerSeries
              Cases.saves (Some "earlier")) as [_ Hwb].
  eexists. split; [reflexivity|].
  destruct (Hwb _ eq_refl) as (_ & _ & _ & _ & Hindex & _).
  split; [reflexivity|exact Hindex].
Defined.

(** * Paging through the stations *)

Section PagingFacts.

Lemma firstn_add {A} (a b : nat) (l : list A) :
  firstn (a + b) l = firstn a l ++ firstn b (skipn a l).
Proof.
  revert l. induction a as [|a IH]; intros [|x l]; simpl;
    try reflexivity; [now rewrite firstn_nil|now rewrite IH].
Qed.

Lemma pages_concat {A} (rows : list A) (pageSize n k : nat) :
  concat (map (fun i => firstn pageSize (skipn (i * pageSize) rows)) (seq k n)) =
  firstn (n * pageSize) (skipn (k * pageSize) rows).
Proof.
  revert k. induction n as [|n IH]; intros k; [reflexivity|].
  cbn [seq map concat]. rewrite (IH (S k)).
  change (S n * pageSize) with (pageSize + n * pageSize).
  rewrite firstn_add, skipn_skipn. reflexivity.
Qed.

Lemma ceil_covers (total pageSize : nat) :
  1 <= pageSize -> total <= (total + pageSize - 1) / pageSize * pageSize.
Proof.
  intros Hps.
  pose proof (Nat.div_mod_eq (total + pageSize - 1) pageSize) as Hdm.
  pose proof (Nat.mod_upper_bound (total + pageSize - 1) pageSize ltac:(lia)) as Hlt.
  nia.
Qed.

Lemma ceil_tight (total pageSize : nat) :
  1 <= pageSize -> 1 <= total ->
  ((total + pageSize - 1) / pageSize - 1) * pageSize < total.
Proof.
  intros Hps Htotal.
  pose proof (Nat.div_mod_eq (total + pageSize - 1) pageSize) as Hdm.
  pose proof (Nat.mod_upper_bound (total + pageSize - 1) pageSize ltac:(lia)) as Hlt.
  assert (Hpos : 1 <= (total + pageSize - 1) / pageSize)
    by (apply Nat.div_str_pos; lia).
  nia.
Qed.

Lemma fetchPages_all (fetchPage : nat -> option Listing.StationsApiResponse)
    (f : nat -> Listing.StationsApiResponse) (pages : list nat) :
  (forall p, In p pages -> fetchPage p = Some (f p)) ->
  Listing.fetchPages fetchPage pages = Some (map f pages).
Proof.
  induction pages as [|p pages IH]; intros Hp; [reflexivity|].
  simpl. rewrite (Hp p) by now left. rewrite IH by (intros q Hq; apply Hp; now right).
  reflexivity.
Qed.

Lemma fetchPages_some (fetchPage : nat -> option Listing.StationsApiResponse)
    (pages : list nat) (answers : list Listing.StationsApiResponse) :
  Listing.fetchPages fetchPage pages = Some answers ->
  forall p, In p pages -> is_Some (fetchPage p).
Proof.
  revert answers. induction pages as [|q pages IH]; intros answers Hsome p Hp;
    [destruct Hp|].
  simpl in Hsome. destruct (fetchPage q) as [data|] eqn:Hq; [|discriminate].
  destruct (Listing.fetchPages fetchPage pages) as [more|] eqn:Hmore; [|discriminate].
  destruct Hp as [<-|Hp]; [rewrite Hq; eauto|]. now apply (IH more).
Qed.

End PagingFacts.

(** X20. One page of the listing, for a page size of at least 1 and a page
    number of at least 1. The page holds the rows that follow the pages
    before it, at most a page size of them; the page count is the least
    number of pages that holds every row; a page after the last is
    empty. *)
Theorem query_stations_page (rows : list Station) (page pageSize : nat) :
  1 <= pageSize -> 1 <= page ->
  let answer := Listing.queryStations rows page pageSize in
  let pages := Listing.totalPages (Listing.pagination answer) in
  length (Listing.items answer) =
    Nat.min pageSize (length rows - (page - 1) * pageSize) /\
  (forall i st, Listing.items answer !! i = Some st ->
     rows !! ((page - 1) * pageSize + i) = Some st) /\
  Listing.total (Listing.pagination answer) = length rows /\
  length rows <= pages * pageSize /\
  (rows <> [] -> (pages - 1) * pageSize < length rows) /\
  (rows = [] -> pages = 0) /\
  (pages < page -> Listing.items answer = []).
Proof.
  intros Hps Hpage answer pages. subst answer pages.
  cbn [Listing.queryStations Listing.items Listing.pagination Listing.totalPages
       Listing.total].
  pose proof (ceil_covers (length rows) pageSize Hps) as Hcover.
  split; [|split; [|split; [|split; [|split; [|split]]]]].
  - rewrite length_firstn, length_skipn. reflexivity.
  - intros i st Hi.
    assert (Hlt : i < pageSize).
    { apply lookup_lt_Some in Hi. rewrite length_firstn in Hi. lia. }
    change firstn with (@take Station) in Hi. change skipn with (@drop Station) in Hi.
    rewrite lookup_take_lt in Hi by exact Hlt. now rewrite lookup_drop in Hi.
  - reflexivity.
  - exact Hcover.
  - intros Hrows. apply ceil_tight; [exact Hps|].
    destruct rows; [congruence|simpl; lia].
  - intros ->. simpl. apply Nat.div_small. lia.
  - intros Hlast. apply length_zero_iff_nil.
    rewrite length_firstn, length_skipn. nia.
Qed.

(** Five stations two to a page: three pages, and the third holds the one
    station that is left. *)
Lemma query_stations_page_witness :
  let answer := Listing.queryStations Sample.stations 3 2 in
  length (Listing.items answer) = 1 /\
  Listing.totalPages (Listing.pagination answer) = 3.
Proof.
  intros answer.
  destruct (query_stations_page Sample.stations 3 2) as (Hlen & _ & _ & _ & _ & _ & _);
    [lia|lia|].
  fold answer in Hlen. split; [rewrite Hlen; reflexivity|reflexivity].
Defined.

(** X21. Loading the stations page by page loses and repeats nothing: when
    the server answers every page of [fetchAllStations] with [queryStations]
    on the same rows and the same page size, the result is these rows, in
    their order. *)
Theorem fetch_all_stations_complete (rows : list Station) (pageSize : nat)
    (fetchPage : nat -> option Listing.StationsApiResponse) :
  1 <= pageSize ->
  (forall page, 1 <= page -> fetchPage page = Some (Listing.queryStations rows page pageSize)) ->
  Listing.fetchAllStations fetchPage = Some rows.
Proof.
  intros Hps Hserver.
  pose proof (ceil_covers (length rows) pageSize Hps) as Hcover.
  unfold Listing.fetchAllStations. rewrite (Hserver 1) by lia.
  cbn [Listing.queryStations Listing.items Listing.pagination Listing.totalPages].
  set (pages := (length rows + pageSize - 1) / pageSize) in *. clearbody pages.
  assert (Hone : firstn pageSize (skipn ((1 - 1) * pageSize) rows) =
                 firstn (1 * pageSize) rows) by (simpl; now rewrite Nat.add_0_r).
  destruct pages as [|n]; [rewrite Hone; simpl; f_equal; apply firstn_all2; lia|].
  destruct (1 <? S n) eqn:Hmore.
  - rewrite (fetchPages_all fetchPage
               (fun page => Listing.queryStations rows page pageSize)).
    2:{ intros p Hp. apply Hserver. apply in_map_iff in Hp as (i & <- & _). lia. }
    f_equal. rewrite !map_map.
    cbn [Listing.queryStations Listing.items].
    rewrite (map_ext _ (fun i => firstn pageSize (skipn (S i * pageSize) rows))).
    2:{ intros i. do 2 f_equal. f_equal. lia. }
    rewrite <- (map_map S (fun i => firstn pageSize (skipn (i * pageSize) rows))).
    rewrite seq_shift.
    change (firstn pageSize (skipn ((1 - 1) * pageSize) rows))
      with (firstn pageSize (skipn (0 * pageSize) rows)).
    change (firstn pageSize (skipn (0 * pageSize) rows) ++
            concat (map (fun i => firstn pageSize (skipn (i * pageSize) rows))
                      (seq 1 (S n - 1))))
      with (concat (map (fun i => firstn pageSize (skipn (i * pageSize) rows))
                      (seq 0 (S (S n - 1))))).
    rewrite pages_concat. simpl skipn. apply firstn_all2. nia.
  - apply Nat.ltb_ge in Hmore. rewrite Hone. f_equal. apply firstn_all2. nia.
Qed.

(** The five stations of the sample, two to a page. *)
Lemma fetch_all_stations_complete_witness :
  Listing.fetchAllStations Cases.twoPerPage = Some Sample.stations.
Proof.
  apply (fetch_all_stations_complete Sample.stations 2); [lia|].
  intros page _. reflexivity.
Defined.

(** X22. Loading the stations is all or nothing: when [fetchAllStations]
    has a result, the first page and every page up to the page count the
    first page announces were answered, and the result starts with the
    items of the first page. *)
Theorem fetch_all_stations_needs_every_page
    (fetchPage : nat -> option Listing.StationsApiResponse) (merged : list Station) :
  Listing.fetchAllStations fetchPage = Some merged ->
  exists firstPageData,
    fetchPage 1 = Some firstPageData /\
    (forall page, 1 <= page <= Listing.totalPages (Listing.pagination firstPageData) ->
       is_Some (fetchPage page)) /\
    exists more, merged = Listing.items firstPageData ++ more.
Proof.
  unfold Listing.fetchAllStations. intros Hall.
  destruct (fetchPage 1) as [firstPageData|] eqn:Hfirst; [|discriminate].
  exists firstPageData. split; [reflexivity|].
  set (pages := Listing.totalPages (Listing.pagination firstPageData)) in *.
  clearbody pages.
  assert (Hsingle : forall page, 1 <= page <= 1 -> is_Some (fetchPage page)).
  { intros page Hpage. assert (page = 1) as -> by lia. rewrite Hfirst. eauto. }
  destruct pages as [|n].
  { simpl in Hall. injection Hall as <-. split.
    - intros page Hpage. lia.
    - exists []. now rewrite app_nil_r. }
  destruct (1 <? S n) eqn:Hmore.
  - apply Nat.ltb_lt in Hmore.
    destruct (Listing.fetchPages fetchPage _) as [answers|] eqn:Hpages; [|discriminate].
    injection Hall as <-. split; [|eauto].
    intros page Hpage. destruct (Nat.eq_dec page 1) as [->|Hne]; [rewrite Hfirst; eauto|].
    apply (fetchPages_some _ _ _ Hpages). apply in_map_iff.
    exists (page - 2). split; [lia|]. apply in_seq. lia.
  - apply Nat.ltb_ge in Hmore. injection Hall as <-. split.
    + intros page Hpage. apply Hsingle. lia.
    + exists []. now rewrite app_nil_r.
Qed.

(** The server of the sample answers all three pages. *)
Lemma fetch_all_stations_needs_every_page_witness :
  is_Some (Cases.twoPerPage 3).
Proof.
  destruct (fetch_all_stations_needs_every_page Cases.twoPerPage Sample.stations eq_refl)
    as (firstPageData & Hfirst & Hall & _).
  injection Hfirst as <-. apply Hall. simpl. lia.
Defined.

(** * The markers and the tabs *)

Section MarkerFacts.

Lemma sameId_spec (a : option string) (stationId : string) :
  Markers.sameId a stationId = true <-> a = Some stationId.
Proof.
  destruct a as [x|]; simpl; [|split; discriminate].
  rewrite String.eqb_eq. split; congruence.
Qed.

Lemma pane_selected (props : Markers.Props) (stationId : string) :
  Markers.pane props stationId = "station-selected" <->
  Markers.isSelected props stationId = true.
Proof.
  unfold Markers.pane. destruct (Markers.isSelected props stationId);
    [tauto|]. destruct (Markers.isPreview props stationId); split; discriminate.
Qed.

End MarkerFacts.

(** X23. How the markers follow the tabs, in every state the page can
    reach. With the station tab in front, the markers drawn as selected are
    exactly those of the station of the tab. With the basin tab in front, no
    marker is drawn as selected, and the markers drawn as part of the basin
    are exactly those of the stations of the basin of the tab, the previewed
    one apart. With no basin tab in front no marker is drawn as part of a
    basin. *)
Theorem markers_follow_tabs `{MapUtils} (p : Search.Params) (actions : list Panel.Action) :
  let st := Panel.run p actions Panel.initial in
  let props := markerProps (Search.groups p) st in
  (forall s, activeTab st = Some TabStation -> stationTab st = Some s ->
     forall stationId,
       Markers.pane props stationId = "station-selected" <-> stationId = station_id s) /\
  (activeTab st <> Some TabStation ->
     forall stationId, Markers.isSelected props stationId = false) /\
  (forall tab, activeTab st = Some TabBasin -> basinTab st = Some tab ->
     forall stationId,
       Markers.isBasinHighlighted props stationId = true <->
       In stationId (map station_id
                       (default [] (groups_get (basinName tab) (Search.groups p)))) /\
       previewStationId st <> Some stationId) /\
  (activeTab st <> Some TabBasin ->
     forall stationId, Markers.isBasinHighlighted props stationId = false).
Proof.
  intros st props.
  assert (Hinv : tabs_consistent (Search.groups p) st)
    by apply run_consistent, initial_consistent.
  destruct Hinv as (Hst & _ & _).
  split; [|split; [|split]].
  - intros s Ha Hs stationId. rewrite pane_selected.
    destruct (Hst Ha) as (s' & Hs' & Hsel).
    assert (s' = s) as -> by congruence.
    unfold Markers.isSelected, props, markerProps.
    cbn [Markers.activeTab Markers.selectedStationId]. rewrite Ha, Hsel. simpl.
    rewrite String.eqb_eq. split; congruence.
  - intros Ha stationId. unfold Markers.isSelected, props, markerProps.
    cbn [Markers.activeTab]. destruct (activeTab st) as [[|]|]; congruence.
  - intros tab Ha Htab stationId.
    unfold Markers.isBasinHighlighted, Markers.isPreview, Markers.isSelected,
      props, markerProps, Panel.basinHighlightedStationIds.
    cbn [Markers.activeTab Markers.selectedStationId Markers.previewStationId
         Markers.basinHighlightedStationIds].
    rewrite Ha, Htab. cbn [negb andb].
    rewrite andb_true_iff, negb_true_iff, bool_decide_eq_true, list_elem_of_In.
    split.
    + intros [Hpv Hin]. split; [exact Hin|]. intros Heq.
      apply sameId_spec in Heq. congruence.
    + intros [Hin Hpv]. split; [|exact Hin].
      destruct (Markers.sameId (previewStationId st) stationId) eqn:Hsame; [|reflexivity].
      apply sameId_spec in Hsame. contradiction.
  - intros Ha stationId. unfold Markers.isBasinHighlighted, props, markerProps.
    cbn [Markers.activeTab]. destruct (activeTab st) as [[|]|]; congruence.
Qed.
